(** * mk_spec_light: the markdown rewriting pass

    A shallow embedding of [scripts/mk_spec_light.py] and the properties
    its specification states about [process_markdown_content] and about
    a run of the script.

    Python strings are sequences of Unicode code points: a character is
    modelled as its code point, a string as a list of characters.  The
    functions of the [re] module the script calls are modelled by a
    backtracking matcher over a small regular expression syntax, with
    the priorities of Python's engine (leftmost alternative first, greedy
    or lazy repetition as written). *)

From Stdlib Require Import String Ascii.
From Stdlib Require Import List NArith Arith Bool Lia.
Import ListNotations.

Set Implicit Arguments.

(** ** Characters and strings *)

Definition char := N.
Definition str := list char.
Bind Scope N_scope with char.

Definition char_eqb (a b : char) : bool := N.eqb a b.

Fixpoint str_eqb (a b : str) : bool :=
  match a, b with
  | [], [] => true
  | x :: a', y :: b' => char_eqb x y && str_eqb a' b'
  | _, _ => false
  end.

(** Source text is read as UTF-8 ([open(..., encoding='utf-8')]); the
    literals of this development are written the same way. *)
Fixpoint utf8_decode (bs : list N) : str :=
  match bs with
  | [] => []
  | b :: t =>
      if (b <? 128)%N then b :: utf8_decode t
      else if (b <? 224)%N then
        match t with
        | b1 :: t1 => ((b - 192) * 64 + (b1 - 128))%N :: utf8_decode t1
        | [] => [b]
        end
      else if (b <? 240)%N then
        match t with
        | b1 :: b2 :: t2 =>
            ((b - 224) * 4096 + (b1 - 128) * 64 + (b2 - 128))%N :: utf8_decode t2
        | _ => [b]
        end
      else
        match t with
        | b1 :: b2 :: b3 :: t3 =>
            ((b - 240) * 262144 + (b1 - 128) * 4096 + (b2 - 128) * 64 + (b3 - 128))%N
              :: utf8_decode t3
        | _ => [b]
        end
  end.

Definition u (s : string) : str :=
  utf8_decode (map N_of_ascii (list_ascii_of_string s)).

Definition NL : char := 10%N.

(** [sep.join(parts)] *)
Fixpoint join (sep : str) (parts : list str) : str :=
  match parts with
  | [] => []
  | [p] => p
  | p :: ps => p ++ sep ++ join sep ps
  end.

(** [s.split(c)] for a one-character separator: never the empty list. *)
Fixpoint split (c : char) (s : str) : list str :=
  match s with
  | [] => [[]]
  | x :: s' =>
      if char_eqb x c then [] :: split c s'
      else match split c s' with
           | [] => [[x]]
           | w :: ws => (x :: w) :: ws
           end
  end.

(** [str.isspace] on one character, which is also what [\s] matches in a
    [str] pattern (both are [Py_UNICODE_ISSPACE]). *)
Definition isspace (c : char) : bool :=
  ((9 <=? c) && (c <=? 13) || (28 <=? c) && (c <=? 32)
   || (c =? 133) || (c =? 160) || (c =? 5760)
   || (8192 <=? c) && (c <=? 8202)
   || (c =? 8232) || (c =? 8233) || (c =? 8239) || (c =? 8287) || (c =? 12288))%N.

Fixpoint lstrip_by {A} (p : A -> bool) (s : list A) : list A :=
  match s with
  | [] => []
  | x :: s' => if p x then lstrip_by p s' else s
  end.

Definition rstrip_by {A} (p : A -> bool) (s : list A) : list A :=
  rev (lstrip_by p (rev s)).

Definition strip_by {A} (p : A -> bool) (s : list A) : list A :=
  rstrip_by p (lstrip_by p s).

(** [s.lstrip()], [s.strip()] and [s.strip(chars)]. *)
Definition lstrip (s : str) : str := lstrip_by isspace s.
Definition strip (s : str) : str := strip_by isspace s.
Definition strip_chars (cs : str) (s : str) : str :=
  strip_by (fun c => existsb (char_eqb c) cs) s.

(** [s.startswith(p)] *)
Fixpoint startswith (p s : str) : bool :=
  match p, s with
  | [], _ => true
  | _ :: _, [] => false
  | x :: p', y :: s' => char_eqb x y && startswith p' s'
  end.

(** [p in s] *)
Fixpoint contains (p s : str) : bool :=
  startswith p s ||
  match s with
  | [] => false
  | _ :: s' => contains p s'
  end.

(** ** The regular expressions of the [re] module *)

Inductive regex : Type :=
| Eps
| Chr (p : char -> bool)
| Seq (a b : regex)
| Alt (a b : regex)
| Star (greedy : bool) (a : regex)
| Group (n : nat) (a : regex)
| Bol
| Eol.

(** Where the matcher stands: the offset in the subject, what is left of
    it, and the groups closed so far. *)
Record cursor : Type := Cursor {
  pos : nat;
  rest : str;
  caps : list (nat * str)
}.

Definition start (s : str) : cursor := Cursor 0 s [].

Definition orelse {A} (x y : option A) : option A :=
  match x with
  | Some v => Some v
  | None => y
  end.

(** [$] without [re.MULTILINE]: the end of the subject, or just before a
    newline that ends it. *)
Definition at_end (s : str) : bool :=
  match s with
  | [] => true
  | [c] => char_eqb c NL
  | _ => false
  end.

(** The backtracking matcher, in continuation-passing style: [k] is what
    remains to be matched after [r].  A repetition stops when its body
    fails or consumes nothing. *)
Fixpoint go {A} (r : regex) (c : cursor) (k : cursor -> option A) : option A :=
  match r with
  | Eps => k c
  | Chr p =>
      match rest c with
      | x :: xs => if p x then k (Cursor (S (pos c)) xs (caps c)) else None
      | [] => None
      end
  | Seq a b => go a c (fun c' => go b c' k)
  | Alt a b => orelse (go a c k) (go b c k)
  | Star g a =>
      (fix loop (n : nat) (c : cursor) : option A :=
         let again :=
           match n with
           | O => None
           | S n' =>
               go a c (fun c' =>
                 if length (rest c') <? length (rest c) then loop n' c' else None)
           end in
         if g then orelse again (k c) else orelse (k c) again)
        (length (rest c)) c
  | Group n a =>
      go a c (fun c' =>
        k (Cursor (pos c') (rest c')
             ((n, firstn (pos c' - pos c) (rest c)) :: caps c')))
  | Bol => if pos c =? 0 then k c else None
  | Eol => if at_end (rest c) then k c else None
  end.

Definition Plus (a : regex) : regex := Seq a (Star true a).
Definition Opt (a : regex) : regex := Alt a Eps.

Fixpoint Times (n : nat) (a : regex) : regex :=
  match n with
  | O => Eps
  | S n' => Seq a (Times n' a)
  end.

(** [a{n,}] *)
Definition AtLeast (n : nat) (a : regex) : regex := Seq (Times n a) (Star true a).

Fixpoint Cat (rs : list regex) : regex :=
  match rs with
  | [] => Eps
  | [r] => r
  | r :: rs' => Seq r (Cat rs')
  end.

Definition lit (c : char) : regex := Chr (char_eqb c).
Definition lits (s : str) : regex := Cat (map lit s).

(** [.] matches anything but a newline; [[^...]] matches a newline too. *)
Definition dot : regex := Chr (fun c => negb (char_eqb c NL)).
Definition one_of (cs : str) : regex := Chr (fun c => existsb (char_eqb c) cs).
Definition none_of (cs : str) : regex := Chr (fun c => negb (existsb (char_eqb c) cs)).
Definition range (lo hi : char) : regex := Chr (fun c => (lo <=? c)%N && (c <=? hi)%N).
Definition space : regex := Chr isspace.

(** [re.match(r, s)]: the cursor after the match. *)
Definition re_match (r : regex) (s : str) : option cursor := go r (start s) Some.

Definition matches (r : regex) (s : str) : bool :=
  match re_match r s with
  | Some _ => true
  | None => false
  end.

(** [re.search(r, s)] as a test: is there an offset at which [r] matches? *)
Fixpoint search_from (r : regex) (p : nat) (s : str) : bool :=
  match go r (Cursor p s []) Some with
  | Some _ => true
  | None =>
      match s with
      | [] => false
      | _ :: xs => search_from r (S p) xs
      end
  end.

Definition re_search (r : regex) (s : str) : bool := search_from r 0 s.

(** A replacement template: text and group references. *)
Inductive piece : Type :=
| Text (s : str)
| Ref (n : nat).

Fixpoint group (n : nat) (gs : list (nat * str)) : str :=
  match gs with
  | [] => []
  | (m, s) :: gs' => if n =? m then s else group n gs'
  end.

Definition expand (tpl : list piece) (gs : list (nat * str)) : str :=
  flat_map (fun p => match p with Text s => s | Ref n => group n gs end) tpl.

(** [re.sub(r, tpl, s)]: leftmost matches, left to right, none overlapping.
    An empty match is replaced too and the scan moves on by one character. *)
Fixpoint sub_from (fuel : nat) (r : regex) (tpl : list piece) (c : cursor) : str :=
  match fuel with
  | O => rest c
  | S fuel' =>
      let skip :=
        match rest c with
        | [] => []
        | x :: xs => x :: sub_from fuel' r tpl (Cursor (S (pos c)) xs [])
        end in
      match go r (Cursor (pos c) (rest c) []) Some with
      | Some c' =>
          if pos c <? pos c'
          then expand tpl (caps c') ++ sub_from fuel' r tpl c'
          else expand tpl (caps c') ++ skip
      | None => skip
      end
  end.

Definition re_sub (r : regex) (tpl : list piece) (s : str) : str :=
  sub_from (S (length s)) r tpl (start s).

(** ** Character classes that depend on the Unicode database *)

Definition ascii_lower (c : char) : char :=
  if ((65 <=? c) && (c <=? 90))%N then (c + 32)%N else c.

Definition ascii_letter (c : char) : bool :=
  ((65 <=? c) && (c <=? 90) || (97 <=? c) && (c <=? 122))%N.

Definition ascii_digit (c : char) : bool := ((48 <=? c) && (c <=? 57))%N.

(** What a literal [p] matches in a pattern compiled with [re.IGNORECASE]:
    the characters whose Unicode lower case is that of [p], and the
    engine's extra equivalents of it.  For an ASCII letter these are its
    two cases and, for k, the Kelvin sign U+212A; for i, U+0130 and
    U+0131; for s, the long s U+017F.  What is not a letter matches
    itself only. *)
Definition ci_eqb (p c : char) : bool :=
  if ascii_letter p then
    let lo := ascii_lower p in
    (char_eqb (ascii_lower c) lo
     || char_eqb lo 107 && char_eqb c 8490
     || char_eqb lo 105 && (char_eqb c 304 || char_eqb c 305)
     || char_eqb lo 115 && char_eqb c 383)%N
  else char_eqb p c.

Definition liti (c : char) : regex := Chr (ci_eqb c).
Definition litsi (s : str) : regex := Cat (map liti s).

(** ** What can go wrong

    Indexing a list and popping from it raise [IndexError] out of range,
    and a [while] loop is run with fuel. *)

Inductive exn : Type :=
| IndexError
| Unfinished.

Inductive outcome (A : Type) : Type :=
| Ok (a : A)
| Raise (e : exn).

Arguments Ok {A} a.
Arguments Raise {A} e.

Definition bind {A B} (x : outcome A) (f : A -> outcome B) : outcome B :=
  match x with
  | Ok a => f a
  | Raise e => Raise e
  end.

Notation "'do' x <- e1 ;; e2" := (bind e1 (fun x => e2))
  (at level 10, x name, e1 at level 100, e2 at level 200).

(** [l[i]] for [i >= 0], [l[-1]], [l.pop(0)] and [l.pop()] (the popped
    item is not used: what is returned is the list that remains). *)
Definition getitem {A} (l : list A) (i : nat) : outcome A :=
  match nth_error l i with
  | Some x => Ok x
  | None => Raise IndexError
  end.

Definition getlast {A} (l : list A) : outcome A :=
  match rev l with
  | x :: _ => Ok x
  | [] => Raise IndexError
  end.

Definition pop_first {A} (l : list A) : outcome (list A) :=
  match l with
  | _ :: l' => Ok l'
  | [] => Raise IndexError
  end.

Definition pop_last {A} (l : list A) : outcome (list A) :=
  match l with
  | _ :: _ => Ok (removelast l)
  | [] => Raise IndexError
  end.

Section Rewriter.

(** [str.isalnum] beyond ASCII is a table of the interpreter's Unicode
    database; the rewriting pass is modelled for any such table. *)
Variable unicode_alnum : char -> bool.

(** [\w] in a [str] pattern: alphanumeric, or the underscore. *)
Definition isword (c : char) : bool :=
  if (c <? 128)%N then ascii_letter c || ascii_digit c || char_eqb c 95
  else unicode_alnum c.

(** *** The patterns of [process_markdown_content], in source order *)

(** [^##?\s+Table of Contents], [re.IGNORECASE] *)
Definition re_toc_start : regex :=
  Cat [Bol; lit 35; Opt (lit 35); Plus space; litsi (u "Table of Contents")].

(** [^##\s+\w] *)
Definition re_toc_end : regex :=
  Cat [Bol; lit 35; lit 35; Plus space; Chr isword].

(** [<!--.*?-->] *)
Definition re_html_comment : regex :=
  Cat [lits (u "<!--"); Star false dot; lits (u "-->")].

(** [^\s*!\[.*\]\(.*(?:shields\.io|badge\.).*\)\s*$] *)
Definition re_badge : regex :=
  Cat [Bol; Star true space; lits (u "!["); Star true dot; lits (u "](");
       Star true dot; Alt (lits (u "shields.io")) (lits (u "badge."));
       Star true dot; lit 41; Star true space; Eol].

(** Line 85: an exclamation mark, the alt text in brackets (group 1, any
    characters but a closing bracket, possibly none), the target in
    parentheses (one or more characters but a closing parenthesis); and
    its replacement [[Image: \1]]. *)
Definition re_image : regex :=
  Cat [lits (u "!["); Group 1 (Star true (none_of (u "]"))); lits (u "](");
       Plus (none_of (u ")")); lit 41].
Definition tpl_image : list piece := [Text (u "[Image: "); Ref 1; Text (u "]")].

(** [\[([^\]]+)\]\([^)]+\)] and its replacement [\1] *)
Definition re_link : regex :=
  Cat [lit 91; Group 1 (Plus (none_of (u "]"))); lits (u "](");
       Plus (none_of (u ")")); lit 41].

(** [[\U0001F300-\U0001F9FF]], [[☀-⛿]], [[✀-➿]] *)
Definition re_emoji : regex := range 127744 129535.
Definition re_misc_symbols : regex := range 9728 9983.
Definition re_dingbats : regex := range 9984 10175.

(** [m{n}([^m]+)m{n}] for an emphasis marker [m]: [\*\*\*([^*]+)\*\*\*],
    [\*\*([^*]+)\*\*], [\*([^*]+)\*] and the same with underscores. *)
Definition re_emphasis (m : char) (n : nat) : regex :=
  Cat [Times n (lit m); Group 1 (Plus (none_of [m])); Times n (lit m)].

(** [\s*#+\s*$] *)
Definition re_heading_tail : regex :=
  Cat [Star true space; Plus (lit 35); Star true space; Eol].

(** Line 108: at the start, white space (group 1), four or more [#],
    one or more white space (group 2); and its replacement [\1###\2]. *)
Definition re_heading_deep : regex :=
  Cat [Bol; Group 1 (Star true space); AtLeast 4 (lit 35); Group 2 (Plus space)].
Definition tpl_heading_deep : list piece := [Ref 1; Text (u "###"); Ref 2].

(** Line 113: an optional bar, a cell of dashes and colons, one or more
    further such cells each after a bar (group 1), an optional bar; white
    space allowed around every piece, the whole line matched. *)
Definition re_table_separator : regex :=
  Cat [Bol; Star true space; Opt (lit 124); Star true space;
       Plus (one_of (u "-:")); Star true space;
       Plus (Group 1 (Cat [lit 124; Star true space; Plus (one_of (u "-:"));
                           Star true space]));
       Opt (lit 124); Star true space; Eol].

(** [^\s*\|.*\|\s*$] *)
Definition re_table_row : regex :=
  Cat [Bol; Star true space; lit 124; Star true dot; lit 124; Star true space; Eol].

(** [[ \t]+] *)
Definition re_blanks : regex := Plus (one_of [32; 9]%N).

(** [^\*\*Maintained by\*\*|^Maintained by:], [re.IGNORECASE] *)
Definition re_footer : regex :=
  Alt (Cat [Bol; lits (u "**"); litsi (u "Maintained by"); lits (u "**")])
      (Cat [Bol; litsi (u "Maintained by:")]).

(** *** The state of the line loop *)

Record State : Type := mkState {
  output : list str;
  in_code_block : bool;
  code_buffer : list str;
  code_lang : str;
  skip_yaml : bool;
  skip_toc : bool
}.

Definition initial : State := mkState [] false [] [] false false.

Definition set_skip_yaml (b : bool) (st : State) : State :=
  mkState (output st) (in_code_block st) (code_buffer st) (code_lang st) b (skip_toc st).

Definition set_skip_toc (b : bool) (st : State) : State :=
  mkState (output st) (in_code_block st) (code_buffer st) (code_lang st) (skip_yaml st) b.

Definition emit (line : str) (st : State) : State :=
  mkState (output st ++ [line]) (in_code_block st) (code_buffer st) (code_lang st)
          (skip_yaml st) (skip_toc st).

Definition fence : str := u "```".
Definition yaml_delimiter : str := u "---".

(** Lines 53-58: comments closed on their line are cut out; a line with
    one delimiter only is skipped ([None]). *)
Definition html_comments (line : str) : option str :=
  if contains (u "<!--") line && contains (u "-->") line
  then Some (re_sub re_html_comment [] line)
  else if contains (u "<!--") line then None
  else if contains (u "-->") line then None
  else Some line.

(** Lines 61-74: a fence line opens a block or closes and flushes it. *)
Definition toggle_fence (line : str) (st : State) : State :=
  if negb (in_code_block st)
  then mkState (output st) true [line] (strip (skipn 3 (strip line)))
               (skip_yaml st) (skip_toc st)
  else mkState (output st ++ (code_buffer st ++ [line])) false [] []
               (skip_yaml st) (skip_toc st).

Definition buffer_code (line : str) (st : State) : State :=
  mkState (output st) (in_code_block st) (code_buffer st ++ [line]) (code_lang st)
          (skip_yaml st) (skip_toc st).

(** Lines 85-101: images, links, emoji and emphasis. *)
Definition inline_markup (line : str) : str :=
  let line := re_sub re_image tpl_image line in
  let line := re_sub re_link [Ref 1] line in
  let line := re_sub re_emoji [] line in
  let line := re_sub re_misc_symbols [] line in
  let line := re_sub re_dingbats [] line in
  let line := re_sub (re_emphasis 42 3) [Ref 1] line in
  let line := re_sub (re_emphasis 42 2) [Ref 1] line in
  let line := re_sub (re_emphasis 42 1) [Ref 1] line in
  let line := re_sub (re_emphasis 95 3) [Ref 1] line in
  let line := re_sub (re_emphasis 95 2) [Ref 1] line in
  let line := re_sub (re_emphasis 95 1) [Ref 1] line in
  line.

(** Lines 104-108 *)
Definition clamp_heading (line : str) : str :=
  if startswith (u "#") (lstrip line)
  then
    let line := re_sub re_heading_tail [] line in
    re_sub re_heading_deep tpl_heading_deep line
  else line.

Definition nonempty (s : str) : bool :=
  match s with
  | [] => false
  | _ :: _ => true
  end.

(** Lines 117-118: the trimmed, non-empty cells of a row. *)
Definition table_cells (line : str) : list str :=
  filter nonempty (map strip (split 124 (strip_chars (u "|") (strip line)))).

Definition bullet_line (cells : list str) : str :=
  u "• " ++ join (u " — ") cells.

(** Lines 111-126: the table rule, then blank collapsing and the append. *)
Definition table_or_text (line : str) (st : State) : State :=
  let text := emit (re_sub re_blanks [Text (u " ")] line) st in
  if contains (u "|") line && negb (in_code_block st) && negb (contains (u "`") line)
  then
    if matches re_table_separator line then st
    else if matches re_table_row line then
      let cells := table_cells line in
      match cells with
      | [] => st
      | _ :: _ => emit (bullet_line cells) st
      end
    else text
  else text.

(** Lines 52-126: a line that is in neither skipped region. *)
Definition handle_line (line : str) (st : State) : State :=
  match html_comments line with
  | None => st
  | Some line =>
      if startswith fence (strip line) then toggle_fence line st
      else if in_code_block st then buffer_code line st
      else if matches re_badge line then st
      else table_or_text (clamp_heading (inline_markup line)) st
  end.

(** The body of the loop over [enumerate(lines)]; a [continue] returns
    the state as it stands. *)
Definition step (i : nat) (line : str) (st : State) : State :=
  if (i =? 0) && str_eqb (strip line) yaml_delimiter then set_skip_yaml true st
  else if skip_yaml st then
    if str_eqb (strip line) yaml_delimiter then set_skip_yaml false st else st
  else if matches re_toc_start line then set_skip_toc true st
  else
    let st := if skip_toc st && matches re_toc_end line
              then set_skip_toc false st else st in
    if skip_toc st then st
    else handle_line line st.

Fixpoint run (i : nat) (lines : list str) (st : State) : State :=
  match lines with
  | [] => st
  | line :: lines' => run (S i) lines' (step i line st)
  end.

(** *** After the loop *)

(** [line.strip() == ''] *)
Definition blank (line : str) : bool := str_eqb (strip line) [].

(** Lines 129-138 *)
Fixpoint collapse_blank_lines (empty_count : nat) (output : list str) : list str :=
  match output with
  | [] => []
  | line :: output' =>
      if blank line then
        let empty_count := S empty_count in
        if empty_count <=? 2
        then line :: collapse_blank_lines empty_count output'
        else collapse_blank_lines empty_count output'
      else line :: collapse_blank_lines 0 output'
  end.

(** Lines 141-142 *)
Fixpoint drop_leading_blank (fuel : nat) (result : list str) : outcome (list str) :=
  match fuel with
  | O => Raise Unfinished
  | S fuel' =>
      if negb (length result =? 0) then
        do first <- getitem result 0 ;;
        if blank first
        then do result' <- pop_first result ;; drop_leading_blank fuel' result'
        else Ok result
      else Ok result
  end.

(** Lines 143-144 *)
Fixpoint drop_trailing_blank (fuel : nat) (result : list str) : outcome (list str) :=
  match fuel with
  | O => Raise Unfinished
  | S fuel' =>
      if negb (length result =? 0) then
        do last <- getlast result ;;
        if blank last
        then do result' <- pop_last result ;; drop_trailing_blank fuel' result'
        else Ok result
      else Ok result
  end.

(** Lines 148-158: the loop over [range(max(0, len(result) - 15), len(result))]. *)
Fixpoint cut_footer (result : list str) (indices : list nat) : outcome (list str) :=
  match indices with
  | [] => Ok result
  | i :: indices' =>
      if i <? length result then
        do line <- getitem result i ;;
        if re_search re_footer line then
          let final_result := firstn i result in
          if negb (length final_result =? 0) then
            do last <- getlast final_result ;;
            if str_eqb (strip last) yaml_delimiter
            then pop_last final_result
            else Ok final_result
          else Ok final_result
        else cut_footer result indices'
      else cut_footer result indices'
  end.

Definition footer_window (result : list str) : list nat :=
  let lo := Nat.max 0 (length result - 15) in
  seq lo (length result - lo).

(** Lines 128-160, from the lines the loop put out. *)
Definition finish (output : list str) : outcome str :=
  let result := collapse_blank_lines 0 output in
  do result <- drop_leading_blank (S (length result)) result ;;
  do result <- drop_trailing_blank (S (length result)) result ;;
  do final_result <- cut_footer result (footer_window result) ;;
  Ok (join [NL] final_result).

(** The rewriting of a document given as its lines. *)
Definition rewrite_lines (lines : list str) : outcome str :=
  finish (output (run 0 lines initial)).

Definition process_markdown_content (content : str) : outcome str :=
  rewrite_lines (split NL content).

(** *** The script's globals (lines 14-16)

    They are set when the module is loaded: [PRESERVE_ALL_CODE] from
    the environment of the process, [SRC_DIR] and [DST_DIR] from its
    arguments.  [main] reads them (lines 188-189). *)




(** A document written as its lines. *)
Definition doc (lines : list string) : str := join [NL] (map u lines).

(** An interpreter that knows no alphanumerics beyond ASCII. *)
Definition ascii_only : char -> bool := fun _ => false.

(** What holds whatever the interpreter's table of alphanumerics is. *)
Definition for_any_alnum (P : (char -> bool) -> Prop) : Prop :=
  forall alnum : char -> bool, P alnum.

(** *** The walk over the source tree (lines 163-212)

    What [process_file] and [main] ask of [pathlib], of the file system
    and of the interpreter is kept abstract: a host gives the operations
    on paths, and the operations on a state of the file system, each of
    which returns normally or raises an [Exception] with a message.  An
    operation that writes leaves a state behind even when it raises.
    [print] is taken not to raise. *)

Inductive result (A : Type) : Type :=
| Done (a : A)
| Error (message : str).

Arguments Done {A} a.
Arguments Error {A} message.

Record Host (path world : Type) : Type := mkHost {
  path_of : str -> path;
  path_str : path -> str;
  parent : path -> path;
  joinpath : path -> path -> path;
  relative_to : path -> path -> result path;
  path_exists : path -> world -> bool;
  mkdir : path -> world -> world * result unit;
  sorted_md : path -> world -> result (list path);
  read_text : path -> world -> result str;
  write_text : path -> str -> world -> world * result unit;
  message_of : exn -> str
}.

(** A line printed on the standard output or on the standard error. *)
Inductive printed : Type :=
| Out (line : str)
| Err (line : str).


Section Walk.

Context {path world : Type} (host : Host path world).

Definition report_failure (src_path : path) (message : str) : printed :=
  Err (u "✗  " ++ path_str host src_path ++ u ": " ++ message).

(** Lines 163-183; the lines printed are added to [log]. *)
Definition process_file (src_path dst_path : path) (w : world) (log : list printed)
    : world * list printed :=
  match read_text host src_path w with
  | Error message => (w, log ++ [report_failure src_path message])
  | Done content =>
      match process_markdown_content content with
      | Raise e => (w, log ++ [report_failure src_path (message_of host e)])
      | Ok optimized =>
          match mkdir host (parent host dst_path) w with
          | (w, Error message) => (w, log ++ [report_failure src_path message])
          | (w, Done _) =>
              match write_text host dst_path optimized w with
              | (w, Error message) => (w, log ++ [report_failure src_path message])
              | (w, Done _) =>
                  (w, log ++ [Out (u "✔  " ++ path_str host src_path ++ u " -> "
                                     ++ path_str host dst_path)])
              end
          end
      end
  end.




End Walk.

(** A host for examples: paths are lists of components, and a state of
    the file system lists the files with their content, or with nothing
    for a file that cannot be read. *)
Fixpoint path_prefix (p q : list str) : bool :=
  match p, q with
  | [], _ => true
  | _ :: _, [] => false
  | a :: p', b :: q' => str_eqb a b && path_prefix p' q'
  end.

Definition memory_host : Host (list str) (list (list str * option str)) :=
  mkHost
    (fun s => split 47 s)
    (fun p => join [47%N] p)
    (fun p => removelast p)
    (fun p q => p ++ q)
    (fun p q => if path_prefix q p then Done (skipn (length q) p)
                else Error (u "is not in the subpath"))
    (fun p w => existsb (fun f => path_prefix p (fst f)) w)
    (fun p w => (w, Done tt))
    (fun p w => Done (filter (path_prefix p) (map fst w)))
    (fun p w =>
       match find (fun f => path_prefix p (fst f) && path_prefix (fst f) p) w with
       | Some (_, Some content) => Done content
       | Some (_, None) => Error (u "Permission denied")
       | None => Error (u "No such file or directory")
       end)
    (fun p s w => ((p, Some s) :: w, Done tt))
    (fun e => []).

(** *** Prose

    The characters the inline rules look for: an opening bracket, the
    two emphasis markers and the three ranges of symbols. *)
Definition inline_char (c : char) : bool :=
  existsb (char_eqb c) (u "[*_")
  || (127744 <=? c)%N && (c <=? 129535)%N
  || (9728 <=? c)%N && (c <=? 9983)%N
  || (9984 <=? c)%N && (c <=? 10175)%N.

(** A line without those characters and without a comment delimiter. *)
Definition inline_free (line : str) : bool :=
  forallb (fun c => negb (inline_char c)) line
  && negb (contains (u "<!--") line) && negb (contains (u "-->") line).

(** A line that holds no heading marker and no backtick either. *)
Definition plain (line : str) : bool :=
  inline_free line && negb (contains (u "#") line)
  && negb (contains (u "`") line).

(** What [[ \t]] matches. *)
Definition is_blank (c : char) : bool := existsb (char_eqb c) [32; 9]%N.

(** Every run of blanks replaced by one space. *)
Fixpoint squeeze (s : str) : str :=
  match s with
  | [] => []
  | x :: s' =>
      if is_blank x then
        match s' with
        | [] => [32%N]
        | y :: _ => if is_blank y then squeeze s' else 32%N :: squeeze s'
        end
      else x :: squeeze s'
  end.

(** The patterns of the inline rules (lines 85-101), and a line in
    which none of them finds anything to rewrite. *)
Definition inline_patterns : list regex :=
  [re_image; re_link; re_emoji; re_misc_symbols; re_dingbats;
   re_emphasis 42 3; re_emphasis 42 2; re_emphasis 42 1;
   re_emphasis 95 3; re_emphasis 95 2; re_emphasis 95 1].

Definition unmatched (line : str) : bool :=
  forallb (fun r => negb (re_search r line)) inline_patterns.

(** A line without a comment delimiter. *)
Definition comment_free (line : str) : bool :=
  negb (contains (u "<!--") line) && negb (contains (u "-->") line).

(** A line that no rule of the loop takes for anything: it holds no
    comment delimiter; it is no heading of a table of contents, no code
    fence and no badge line; no inline pattern finds a match in it; if
    it is a heading, it is not closed by heading markers and not deeper
    than three levels; it is no table row and no separator row (where
    the table rule applies: a bar and no backtick); and it is no footer
    line. *)
Definition quiet (line : str) : bool :=
  comment_free line
  && negb (matches re_toc_start line)
  && negb (startswith fence (strip line))
  && negb (matches re_badge line)
  && unmatched line
  && negb (startswith (u "#") (lstrip line)
           && (re_search re_heading_tail line || re_search re_heading_deep line))
  && negb (contains (u "|") line && negb (contains (u "`") line)
           && (matches re_table_separator line || matches re_table_row line))
  && negb (re_search re_footer line).

(** A line of prose that is rewritten already: no rule takes it for
    anything, as it is written or once its blanks are collapsed. *)
Definition prose_line (line : str) : bool :=
  quiet line && quiet (squeeze line).

(** A front matter delimiter, as the line is written or once its blanks
    are collapsed; and lines the first of which that is not blank, if
    there is one, is no such delimiter. *)
Definition delimiter (line : str) : bool :=
  str_eqb (strip line) yaml_delimiter
  || str_eqb (strip (squeeze line)) yaml_delimiter.

Definition opens_with_text (lines : list str) : bool :=
  match lstrip_by blank lines with
  | first :: _ => negb (delimiter first)
  | [] => true
  end.

(** Of every run of blank lines the first two stay: a blank line goes
    when the two lines before it are blank ([before1] tells whether the
    line just before is, [before2] whether the one before that is). *)
Fixpoint cap_blank_runs (before2 before1 : bool) (lines : list str) : list str :=
  match lines with
  | [] => []
  | line :: lines' =>
      if blank line && (before1 && before2)
      then cap_blank_runs true true lines'
      else line :: cap_blank_runs before1 (blank line) lines'
  end.

(** Blanks collapsed in every line, runs of blank lines cut to two, blank
    lines at both ends removed. *)
Definition tidy (lines : list str) : list str :=
  strip_by blank (cap_blank_runs false false (map squeeze lines)).

(** No more than two blank lines in a row, [n] having come just before. *)
Fixpoint runs_ok (n : nat) (lines : list str) : bool :=
  match lines with
  | [] => true
  | line :: lines' =>
      if blank line then (S n <=? 2) && runs_ok (S n) lines'
      else runs_ok 0 lines'
  end.

(** What the three patterns of lines 91-93 match. *)
Definition symbol (c : char) : bool :=
  (127744 <=? c)%N && (c <=? 129535)%N
  || (9728 <=? c)%N && (c <=? 9983)%N
  || (9984 <=? c)%N && (c <=? 10175)%N.

(** A line that is a code fence once its closed comments are cut out. *)
Definition fence_line (line : str) : bool :=
  match html_comments line with
  | Some line => startswith fence (strip line)
  | None => false
  end.

(** The lines after an opening fence that leave the block open: none
    of them is a fence line, but for those that a heading of a table of
    contents suppresses, up to the next line that begins with two
    heading markers, white space and a word character; [toc] tells
    whether the suppression is on. *)
Fixpoint stays_open (toc : bool) (later : list str) : bool :=
  match later with
  | [] => true
  | line :: later' =>
      if matches re_toc_start line then stays_open true later'
      else if toc && negb (matches re_toc_end line) then stays_open true later'
      else negb (fence_line line) && stays_open false later'
  end.

(** The longest prefix made of characters of a class: what a greedy
    repetition of the class takes. *)
Fixpoint span_by {A} (p : A -> bool) (s : list A) : list A :=
  match s with
  | x :: s' => if p x then x :: span_by p s' else []
  | [] => []
  end.

(** A pattern whose matches begin with a character of [q]. *)
Fixpoint starts_with (q : char -> bool) (r : regex) : Prop :=
  match r with
  | Chr p => forall x, p x = true -> q x = true
  | Seq a _ | Group _ a => starts_with q a
  | Alt a b => starts_with q a /\ starts_with q b
  | Eps | Star _ _ | Bol | Eol => False
  end.

(** What [re_heading_deep] matches at the start of a line: the cursor
    after the match, with the white space before the markers as group 1
    and the white space after them as group 2. *)
Definition deep_heading (line : str) : option cursor :=
  let indent := span_by isspace line in
  let line1 := lstrip line in
  if forallb (char_eqb 35) (firstn 4 line1) && (4 <=? length line1) then
    let more := span_by (char_eqb 35) (skipn 4 line1) in
    match lstrip_by (char_eqb 35) (skipn 4 line1) with
    | x :: xs =>
        if isspace x
        then Some (Cursor (S (0 + length indent + 4 + length more)
                           + length (span_by isspace xs))
                          (lstrip xs)
                          [(2, x :: span_by isspace xs); (1, indent)])
        else None
    | [] => None
    end
  else None.

(** The inline rules after the image and the link rule: symbols (lines
    91-93) and emphasis (lines 96-101). *)
Definition symbol_rules (line : str) : str :=
  re_sub re_dingbats [] (re_sub re_misc_symbols [] (re_sub re_emoji [] line)).

Definition emphasis_rules (line : str) : str :=
  let line := re_sub (re_emphasis 42 3) [Ref 1] line in
  let line := re_sub (re_emphasis 42 2) [Ref 1] line in
  let line := re_sub (re_emphasis 42 1) [Ref 1] line in
  let line := re_sub (re_emphasis 95 3) [Ref 1] line in
  let line := re_sub (re_emphasis 95 2) [Ref 1] line in
  let line := re_sub (re_emphasis 95 1) [Ref 1] line in
  line.

(** Characters that are no symbol and no emphasis marker. *)
Definition unstyled (c : char) : Prop :=
  symbol c = false /\ c <> 42%N /\ c <> 95%N.

(** A table row written from its cells, and the characters of a cell that
    no rule before the table rule looks for. *)
Definition row_of (cells : list str) : str :=
  u "| " ++ join (u " | ") cells ++ u " |".

Definition cell_char (c : char) : bool :=
  negb (inline_char c) && negb (existsb (char_eqb c) (u "#`|<>"))
  && negb (char_eqb c NL).

(** What a separator row is made of (line 113). *)
Definition separator_char (c : char) : bool :=
  isspace c || existsb (char_eqb c) (u "|-:").

(** A full table row written from its cells: white space, a bar, the
    cells with a bar between them, a bar, white space. *)
Definition full_row (indent : str) (cells : list str) (trail : str) : str :=
  indent ++ [124%N] ++ join [124%N] cells ++ [124%N] ++ trail.

(** The trimmed cells of a text between bars that are not empty (lines
    117-118, once the bars at both ends are gone). *)
Definition kept_cells (s : str) : list str :=
  filter nonempty (map strip (split 124 s)).

(** *** Notions used in the proofs *)

(** A pattern that has to consume a character outside [P] matches nowhere
    in a subject made of characters of [P]. *)
Definition fails_on (P : char -> Prop) (r : regex) : Prop :=
  forall (A : Type) (k : cursor -> option A) (c : cursor),
    Forall P (rest c) -> go r c k = None.

(** What the character classes of a pattern can consume. *)
Fixpoint consumes (Q : char -> Prop) (r : regex) : Prop :=
  match r with
  | Chr p => forall x, p x = true -> Q x
  | Seq a b | Alt a b => consumes Q a /\ consumes Q b
  | Star _ a | Group _ a => consumes Q a
  | Eps | Bol | Eol => True
  end.

(** Characters that are no inline markup, no heading marker, no bar. *)
Definition unmarked (c : char) : Prop := inline_char c = false.
Definition not_hash (c : char) : Prop := c <> 35%N.
Definition not_bar (c : char) : Prop := c <> 124%N.

(** A line of a fenced block that reaches the fence rule as it is: no
    comment delimiter, and not the heading of a table of contents. *)
Definition reaches_fence_rule (line : str) : Prop :=
  contains (u "<!--") line = false /\ contains (u "-->") line = false
  /\ matches re_toc_start line = false.

(** A cursor, and a replacement template, made of characters of [P]. *)
Definition cursor_in (P : char -> Prop) (c : cursor) : Prop :=
  Forall P (rest c) /\ Forall (fun g => Forall P (snd g)) (caps c).

Definition template_in (P : char -> Prop) (tpl : list piece) : Prop :=
  Forall (fun p => match p with Text s => Forall P s | Ref _ => True end) tpl.

(** The characters that the rewriting writes by itself: the caption of an
    image, the heading marker, the bullet and the dash of a table row,
    and the space. *)
Definition own_text : str := u "[Image: ]#• —".

(** The lines put out and the lines held back are made of characters of [P]. *)
Definition lines_in (P : char -> Prop) (st : State) : Prop :=
  Forall (Forall P) (output st) /\ Forall (Forall P) (code_buffer st).

(** * Properties *)

(** ** Lists and strings *)

Lemma char_eqb_eq (a b : char) : char_eqb a b = true <-> a = b.
Proof. apply N.eqb_eq. Qed.

Lemma str_eqb_eq (a b : str) : str_eqb a b = true <-> a = b.
Proof.
  revert b; induction a as [|x a IH]; intros [|y b]; simpl; split; intro H;
    try reflexivity; try discriminate.
  - apply andb_true_iff in H as [Hx Hr].
    apply char_eqb_eq in Hx. apply IH in Hr. now subst.
  - injection H as -> ->. apply andb_true_iff.
    split; [now apply char_eqb_eq | now apply IH].
Qed.

Lemma str_eqb_refl (a : str) : str_eqb a a = true.
Proof. now apply str_eqb_eq. Qed.

Lemma lstrip_by_app_keep {A} (p : A -> bool) (s : list A) (x : A) :
  p x = false -> lstrip_by p (s ++ [x]) = lstrip_by p s ++ [x].
Proof.
  intros Hx. induction s as [|y s IH]; simpl.
  - now rewrite Hx.
  - destruct (p y); [exact IH | reflexivity].
Qed.

Lemma rstrip_by_cons_keep {A} (p : A -> bool) (x : A) (s : list A) :
  p x = false -> rstrip_by p (x :: s) = x :: rstrip_by p s.
Proof.
  intros Hx. unfold rstrip_by. simpl.
  rewrite lstrip_by_app_keep by exact Hx.
  rewrite rev_app_distr. reflexivity.
Qed.

Lemma strip_by_cons_keep {A} (p : A -> bool) (x : A) (s : list A) :
  p x = false -> strip_by p (x :: s) = x :: rstrip_by p s.
Proof.
  intros Hx. unfold strip_by. simpl. rewrite Hx.
  now apply rstrip_by_cons_keep.
Qed.

Lemma lstrip_by_idem {A} (p : A -> bool) (s : list A) :
  lstrip_by p (lstrip_by p s) = lstrip_by p s.
Proof.
  induction s as [|x s IH]; simpl; [reflexivity|].
  destruct (p x) eqn:Hx; [exact IH | simpl; now rewrite Hx].
Qed.

Lemma rstrip_by_idem {A} (p : A -> bool) (s : list A) :
  rstrip_by p (rstrip_by p s) = rstrip_by p s.
Proof.
  unfold rstrip_by. rewrite rev_involutive, lstrip_by_idem. reflexivity.
Qed.

Lemma lstrip_by_rstrip_by {A} (p : A -> bool) (s : list A) :
  lstrip_by p s = s -> lstrip_by p (rstrip_by p s) = rstrip_by p s.
Proof.
  destruct s as [|x s]; [reflexivity|]. simpl.
  destruct (p x) eqn:Hx.
  - intros H. exfalso.
    assert (Hlen : forall l : list A, length (lstrip_by p l) <= length l).
    { induction l as [|y l IHl]; simpl; [lia|]. destruct (p y); simpl; lia. }
    specialize (Hlen s). rewrite H in Hlen. simpl in Hlen. lia.
  - intros _. rewrite rstrip_by_cons_keep by exact Hx. simpl. now rewrite Hx.
Qed.

Lemma strip_by_idem {A} (p : A -> bool) (s : list A) :
  strip_by p (strip_by p s) = strip_by p s.
Proof.
  unfold strip_by.
  rewrite lstrip_by_rstrip_by by apply lstrip_by_idem.
  apply rstrip_by_idem.
Qed.

Lemma lstrip_by_keeps {A} (p : A -> bool) (s : list A) (x : A) :
  In x s -> p x = false -> In x (lstrip_by p s).
Proof.
  induction s as [|y s IH]; simpl; [tauto|].
  intros [->|Hin] Hx.
  - rewrite Hx. now left.
  - destruct (p y); [now apply IH | now right].
Qed.

Lemma lstrip_by_incl {A} (p : A -> bool) (s : list A) (x : A) :
  In x (lstrip_by p s) -> In x s.
Proof.
  induction s as [|y s IH]; simpl; [tauto|].
  destruct (p y); [intros H; right; now apply IH | tauto].
Qed.

Lemma strip_by_keeps {A} (p : A -> bool) (s : list A) (x : A) :
  In x s -> p x = false -> In x (strip_by p s).
Proof.
  intros Hin Hx. unfold strip_by, rstrip_by.
  rewrite <- in_rev. apply lstrip_by_keeps; [|exact Hx].
  rewrite <- in_rev. now apply lstrip_by_keeps.
Qed.

Lemma strip_by_incl {A} (p : A -> bool) (s : list A) (x : A) :
  In x (strip_by p s) -> In x s.
Proof.
  unfold strip_by, rstrip_by. intros H.
  rewrite <- in_rev in H. apply lstrip_by_incl in H.
  rewrite <- in_rev in H. now apply lstrip_by_incl in H.
Qed.

Lemma startswith_head (x : char) (p s : str) :
  startswith (x :: p) s = true -> exists s', s = x :: s'.
Proof.
  destruct s as [|y s]; simpl; [discriminate|].
  intros H. apply andb_true_iff in H as [H _].
  apply char_eqb_eq in H. subst. now exists s.
Qed.

Lemma contains_head (x : char) (p s : str) :
  contains (x :: p) s = true -> In x s.
Proof.
  induction s as [|y s IH]; intros H.
  - simpl in H. discriminate.
  - cbn [contains] in H. apply orb_true_iff in H as [H|H].
    + apply startswith_head in H as [s' E]. injection E as -> _. now left.
    + right. now apply IH.
Qed.

Lemma contains_single (x : char) (s : str) :
  contains [x] s = true <-> In x s.
Proof.
  split; [apply contains_head|].
  induction s as [|y s IH]; simpl; [tauto|].
  intros [->|Hin].
  - unfold char_eqb. rewrite N.eqb_refl. reflexivity.
  - rewrite IH by exact Hin. apply orb_true_r.
Qed.

Lemma yaml_delimiter_eq : yaml_delimiter = [45; 45; 45]%N.
Proof. reflexivity. Qed.

(** ** The matcher *)

Lemma go_fails (P : char -> Prop) (r : regex) :
  forall (A : Type) (k : cursor -> option A) (c : cursor),
    (forall c', Forall P (rest c') -> k c' = None) ->
    Forall P (rest c) -> go r c k = None.
Proof.
  induction r as [|p|a IHa b IHb|a IHa b IHb|g a IHa|n a IHa| |];
    intros A k c Hk Hc; cbn [go].
  - now apply Hk.
  - destruct c as [i [|x xs] cs]; cbn [rest pos caps] in *; [reflexivity|].
    destruct (p x); [|reflexivity].
    apply Hk. cbn [rest]. now inversion Hc.
  - apply IHa; [|exact Hc]. intros c' Hc'. now apply IHb.
  - rewrite IHa, IHb by assumption. reflexivity.
  - generalize (length (rest c)). intros n. revert c Hc.
    induction n as [|n IHn]; intros c Hc.
    + rewrite (Hk c Hc). now destruct g.
    + rewrite (Hk c Hc).
      rewrite IHa; [now destruct g | | exact Hc].
      intros c' Hc'. destruct (length (rest c') <? length (rest c)); [|reflexivity].
      now apply IHn.
  - apply IHa; [|exact Hc]. intros c' Hc'. apply Hk. exact Hc'.
  - destruct (pos c =? 0); [now apply Hk | reflexivity].
  - destruct (at_end (rest c)); [now apply Hk | reflexivity].
Qed.

Lemma fails_on_chr (P : char -> Prop) (p : char -> bool) :
  (forall x, P x -> p x = false) -> fails_on P (Chr p).
Proof.
  intros Hp A k c Hc. cbn [go].
  destruct (rest c) as [|x xs]; [reflexivity|].
  rewrite Hp; [reflexivity | now inversion Hc].
Qed.

Lemma fails_on_seq_l (P : char -> Prop) (a b : regex) :
  fails_on P a -> fails_on P (Seq a b).
Proof. intros Ha A k c Hc. cbn [go]. now apply Ha. Qed.

Lemma fails_on_seq_r (P : char -> Prop) (a b : regex) :
  fails_on P b -> fails_on P (Seq a b).
Proof.
  intros Hb A k c Hc. cbn [go].
  apply (go_fails (P := P)); [|exact Hc].
  intros c' Hc'. now apply Hb.
Qed.

Lemma fails_on_alt (P : char -> Prop) (a b : regex) :
  fails_on P a -> fails_on P b -> fails_on P (Alt a b).
Proof. intros Ha Hb A k c Hc. cbn [go]. now rewrite Ha, Hb. Qed.

Lemma fails_on_group (P : char -> Prop) (n : nat) (a : regex) :
  fails_on P a -> fails_on P (Group n a).
Proof. intros Ha A k c Hc. cbn [go]. now apply Ha. Qed.

Lemma fails_on_matches (P : char -> Prop) (r : regex) (s : str) :
  fails_on P r -> Forall P s -> matches r s = false.
Proof.
  intros Hr Hs. unfold matches, re_match. now rewrite Hr.
Qed.

Lemma fails_on_search (P : char -> Prop) (r : regex) (s : str) :
  fails_on P r -> Forall P s -> re_search r s = false.
Proof.
  intros Hr Hs. unfold re_search. generalize 0.
  induction Hs as [|x s Hx Hs IH]; intros i; cbn [search_from].
  - now rewrite Hr.
  - rewrite Hr by (now constructor). apply IH.
Qed.

Lemma fails_on_sub (P : char -> Prop) (r : regex) (tpl : list piece) (s : str) :
  fails_on P r -> Forall P s -> re_sub r tpl s = s.
Proof.
  intros Hr Hs. unfold re_sub, start. generalize (S (length s)) 0.
  intros fuel. revert s Hs.
  induction fuel as [|fuel IH]; intros s Hs i; [reflexivity|].
  cbn [sub_from pos rest]. rewrite Hr by exact Hs.
  destruct s as [|x s]; [reflexivity|].
  rewrite IH; [reflexivity | now inversion Hs].
Qed.

(** A pattern cannot get past a subject on which what follows it fails,
    when consuming its characters keeps the subject that way. *)
Lemma go_stuck (Q : char -> Prop) (I : str -> Prop) (r : regex) :
  consumes Q r ->
  (forall x xs, Q x -> I (x :: xs) -> I xs) ->
  forall (A : Type) (k : cursor -> option A) (c : cursor),
    (forall c', I (rest c') -> k c' = None) ->
    I (rest c) -> go r c k = None.
Proof.
  intros Hr Hkeep.
  induction r as [|p|a IHa b IHb|a IHa b IHb|g a IHa|n a IHa| |];
    intros A k c Hk Hc; cbn [go]; cbn [consumes] in Hr.
  - now apply Hk.
  - destruct c as [i [|x xs] cs]; cbn [rest pos caps] in *; [reflexivity|].
    destruct (p x) eqn:Hp; [|reflexivity].
    apply Hk. cbn [rest]. apply (Hkeep x); [now apply Hr | exact Hc].
  - destruct Hr as [Ha Hb].
    apply IHa; [exact Ha | | exact Hc]. intros c' Hc'. now apply IHb.
  - destruct Hr as [Ha Hb]. rewrite IHa, IHb by assumption. reflexivity.
  - generalize (length (rest c)). intros n. revert c Hc.
    induction n as [|n IHn]; intros c Hc.
    + rewrite (Hk c Hc). now destruct g.
    + rewrite (Hk c Hc).
      rewrite IHa; [now destruct g | exact Hr | | exact Hc].
      intros c' Hc'. destruct (length (rest c') <? length (rest c)); [|reflexivity].
      now apply IHn.
  - apply IHa; [exact Hr | | exact Hc]. intros c' Hc'. apply Hk. exact Hc'.
  - destruct (pos c =? 0); [now apply Hk | reflexivity].
  - destruct (at_end (rest c)); [now apply Hk | reflexivity].
Qed.

(** Nothing is replaced where the pattern matches at no offset. *)
Lemma sub_from_no_match (r : regex) (tpl : list piece) (fuel : nat) :
  forall (s : str) (i : nat) (cs : list (nat * str)),
    (forall n, go r (Cursor (i + n) (skipn n s) []) Some = None) ->
    sub_from fuel r tpl (Cursor i s cs) = s.
Proof.
  induction fuel as [|fuel IH]; intros s i cs Hnone; [reflexivity|].
  cbn [sub_from pos rest].
  pose proof (Hnone 0) as H0. rewrite Nat.add_0_r in H0. cbn [skipn] in H0.
  rewrite H0. destruct s as [|x s]; [reflexivity|].
  rewrite IH; [reflexivity|].
  intros n. specialize (Hnone (S n)).
  now rewrite Nat.add_succ_r in Hnone.
Qed.

Lemma re_sub_no_match (r : regex) (tpl : list piece) (s : str) :
  (forall n, go r (Cursor n (skipn n s) []) Some = None) ->
  re_sub r tpl s = s.
Proof. intros H. unfold re_sub, start. now apply sub_from_no_match. Qed.

Lemma matches_false (r : regex) (s : str) :
  matches r s = false -> go r (Cursor 0 s []) Some = None.
Proof.
  unfold matches, re_match, start.
  destruct (go r (Cursor 0 s []) Some); [discriminate | reflexivity].
Qed.

(** A greedy repetition of a character class, one character at a time. *)
Lemma go_star_chr_nil (p : char -> bool) (i : nat) (cs : list (nat * str))
    (A : Type) (k : cursor -> option A) :
  go (Star true (Chr p)) (Cursor i [] cs) k = k (Cursor i [] cs).
Proof. reflexivity. Qed.

Lemma go_star_chr_cons (p : char -> bool) (i : nat) (x : char) (xs : str)
    (cs : list (nat * str)) (A : Type) (k : cursor -> option A) :
  go (Star true (Chr p)) (Cursor i (x :: xs) cs) k =
    if p x
    then orelse (go (Star true (Chr p)) (Cursor (S i) xs cs) k)
                (k (Cursor i (x :: xs) cs))
    else k (Cursor i (x :: xs) cs).
Proof.
  cbn [go rest pos caps length].
  destruct (p x); [|reflexivity].
  replace (length xs <? S (length xs)) with true
    by (symmetry; apply Nat.ltb_lt; lia).
  reflexivity.
Qed.

(** With nothing to match after it, it takes the whole run. *)
Lemma go_star_chr_run (p : char -> bool) (s : str) (i : nat) (cs : list (nat * str)) :
  exists j, i <= j /\
    go (Star true (Chr p)) (Cursor i s cs) Some = Some (Cursor j (lstrip_by p s) cs).
Proof.
  revert i. induction s as [|x s IH]; intros i.
  - exists i. split; [lia | reflexivity].
  - rewrite go_star_chr_cons. cbn [lstrip_by].
    destruct (p x).
    + destruct (IH (S i)) as (j & Hj & ->). exists j. split; [lia | reflexivity].
    + exists i. split; [lia | reflexivity].
Qed.

(** ** The pass after the loop never raises *)

Lemma lstrip_by_length {A} (p : A -> bool) (s : list A) :
  length (lstrip_by p s) <= length s.
Proof.
  induction s as [|x s IH]; simpl; [lia|]. destruct (p x); simpl; lia.
Qed.

Lemma drop_leading_blank_ok (fuel : nat) (result : list str) :
  length result < fuel ->
  drop_leading_blank fuel result = Ok (lstrip_by blank result).
Proof.
  revert result. induction fuel as [|fuel IH]; intros result Hlen; [lia|].
  destruct result as [|first result]; [reflexivity|].
  cbn [drop_leading_blank length Nat.eqb negb getitem nth_error bind lstrip_by pop_first].
  destruct (blank first); [|reflexivity].
  apply IH. simpl in Hlen. lia.
Qed.

Lemma getlast_snoc {A} (l : list A) (x : A) : getlast (l ++ [x]) = Ok x.
Proof. unfold getlast. rewrite rev_app_distr. reflexivity. Qed.

Lemma pop_last_snoc {A} (l : list A) (x : A) : pop_last (l ++ [x]) = Ok l.
Proof.
  unfold pop_last. destruct (l ++ [x]) eqn:E.
  - now destruct l.
  - rewrite <- E. now rewrite removelast_last.
Qed.

Lemma rstrip_by_snoc {A} (p : A -> bool) (l : list A) (x : A) :
  rstrip_by p (l ++ [x]) = if p x then rstrip_by p l else l ++ [x].
Proof.
  unfold rstrip_by. rewrite rev_app_distr. simpl.
  destruct (p x); [reflexivity|].
  simpl. now rewrite rev_involutive.
Qed.

Lemma drop_trailing_blank_ok (fuel : nat) (result : list str) :
  length result < fuel ->
  drop_trailing_blank fuel result = Ok (rstrip_by blank result).
Proof.
  revert result. induction fuel as [|fuel IH]; intros result Hlen; [lia|].
  destruct result as [|x l] using rev_ind; [reflexivity|].
  cbn [drop_trailing_blank].
  rewrite length_app in *. simpl in *.
  replace (length l + 1 =? 0) with false by (symmetry; apply Nat.eqb_neq; lia).
  cbn [negb]. rewrite getlast_snoc. cbn [bind].
  rewrite rstrip_by_snoc.
  destruct (blank x); [|reflexivity].
  rewrite pop_last_snoc. cbn [bind]. apply IH. lia.
Qed.

Lemma getitem_in {A} (l : list A) (i : nat) :
  i < length l -> exists x, getitem l i = Ok x /\ In x l.
Proof.
  intros Hi. unfold getitem.
  destruct (nth_error l i) as [x|] eqn:E.
  - exists x. split; [reflexivity|]. now apply nth_error_In in E.
  - apply nth_error_None in E. lia.
Qed.

Lemma cut_footer_ok (result : list str) (indices : list nat) :
  exists final_result, cut_footer result indices = Ok final_result.
Proof.
  induction indices as [|i indices IH]; [now exists result|].
  cbn [cut_footer].
  destruct (i <? length result) eqn:Hi; [|exact IH].
  apply Nat.ltb_lt in Hi.
  destruct (getitem_in result Hi) as (line & -> & _). cbn [bind].
  destruct (re_search re_footer line); [|exact IH].
  destruct (firstn i result) as [|x l] using rev_ind; [now exists []|].
  rewrite length_app. simpl.
  replace (length l + 1 =? 0) with false by (symmetry; apply Nat.eqb_neq; lia).
  cbn [negb]. rewrite getlast_snoc. cbn [bind].
  destruct (str_eqb (strip x) yaml_delimiter).
  - rewrite pop_last_snoc. now exists l.
  - now exists (l ++ [x]).
Qed.

Lemma cut_footer_none (result : list str) (indices : list nat) :
  (forall line, In line result -> re_search re_footer line = false) ->
  cut_footer result indices = Ok result.
Proof.
  intros Hnone. induction indices as [|i indices IH]; [reflexivity|].
  cbn [cut_footer].
  destruct (i <? length result) eqn:Hi; [|exact IH].
  apply Nat.ltb_lt in Hi.
  destruct (getitem_in result Hi) as (line & -> & Hin). cbn [bind].
  now rewrite (Hnone line Hin).
Qed.

(** The trimming loops are [strip_by blank]. *)
Lemma finish_trimmed (output : list str) :
  finish output =
    (let result := strip_by blank (collapse_blank_lines 0 output) in
     do final_result <- cut_footer result (footer_window result) ;;
     Ok (join [NL] final_result)).
Proof.
  unfold finish.
  rewrite drop_leading_blank_ok by lia. cbn [bind].
  rewrite drop_trailing_blank_ok by lia. cbn [bind].
  reflexivity.
Qed.

Lemma finish_ok (output : list str) : exists out, finish output = Ok out.
Proof.
  rewrite finish_trimmed. cbv zeta.
  destruct (cut_footer_ok (strip_by blank (collapse_blank_lines 0 output))
              (footer_window (strip_by blank (collapse_blank_lines 0 output))))
    as [final_result ->].
  cbn [bind]. eauto.
Qed.

Lemma collapse_blank_lines_incl (n : nat) (output : list str) (line : str) :
  In line (collapse_blank_lines n output) -> In line output.
Proof.
  revert n. induction output as [|l output IH]; intros n; cbn [collapse_blank_lines]; [tauto|].
  destruct (blank l).
  - destruct (S n <=? 2).
    + intros [->|H]; [now left | right; eauto].
    + intros H. right. eauto.
  - intros [->|H]; [now left | right; eauto].
Qed.

Lemma finish_no_footer (output : list str) :
  (forall line, In line output -> re_search re_footer line = false) ->
  finish output = Ok (join [NL] (strip_by blank (collapse_blank_lines 0 output))).
Proof.
  intros Hnone. rewrite finish_trimmed. cbv zeta.
  rewrite cut_footer_none; [reflexivity|].
  intros line Hin. apply Hnone.
  apply strip_by_incl in Hin.
  now apply collapse_blank_lines_incl in Hin.
Qed.

(** ** The line loop *)

Lemma run_app (i : nat) (a b : list str) (st : State) :
  run i (a ++ b) st = run (i + length a) b (run i a st).
Proof.
  revert i st. induction a as [|l a IH]; intros i st; simpl.
  - now rewrite Nat.add_0_r.
  - rewrite IH. now rewrite Nat.add_succ_r.
Qed.

Lemma table_or_text_in_code (line : str) (st : State) :
  in_code_block (table_or_text line st) = in_code_block st.
Proof.
  unfold table_or_text.
  destruct (contains (u "|") line && negb (in_code_block st)
            && negb (contains (u "`") line)); [|reflexivity].
  destruct (matches re_table_separator line); [reflexivity|].
  destruct (matches re_table_row line); [|reflexivity].
  destruct (table_cells line); reflexivity.
Qed.

(** While the front matter is skipped, lines other than the delimiter
    change nothing. *)
Lemma run_skip_yaml (i : nat) (lines : list str) (st : State) :
  skip_yaml st = true ->
  Forall (fun l => str_eqb (strip l) yaml_delimiter = false) lines ->
  run i lines st = st.
Proof.
  intros Hskip Hnone. revert i.
  induction Hnone as [|l lines Hl _ IH]; intros i; [reflexivity|].
  cbn [run]. unfold step.
  rewrite Hl, andb_false_r, Hskip. apply IH.
Qed.

(** C5: [---], [Title: X], [---], [Body] is rewritten to [Body]; and a
    document whose first line is a bare delimiter that no later line
    repeats is rewritten to the empty string. *)
Theorem front_matter_is_removed :
  process_markdown_content (doc ["---"; "Title: X"; "---"; "Body"]%string)
    = Ok (u "Body")
  /\ forall (content first : str) (others : list str),
       split NL content = first :: others ->
       str_eqb (strip first) yaml_delimiter = true ->
       Forall (fun l => str_eqb (strip l) yaml_delimiter = false) others ->
       process_markdown_content content = Ok [].
Proof.
  split; [vm_compute; reflexivity|].
  intros content first others Hsplit Hfirst Hothers.
  unfold process_markdown_content, rewrite_lines.
  rewrite Hsplit. cbn [run].
  unfold step at 1. cbn [Nat.eqb andb]. rewrite Hfirst.
  rewrite run_skip_yaml by (reflexivity || exact Hothers).
  vm_compute. reflexivity.
Qed.

Lemma rewrite_empty : process_markdown_content [] = Ok [].
Proof. vm_compute. reflexivity. Qed.

(** C8: the rewriting raises on no input and its loops finish, and the
    empty string is rewritten to the empty string. *)
Theorem rewrite_is_total :
  (forall content : str, exists out, process_markdown_content content = Ok out)
  /\ process_markdown_content [] = Ok [].
Proof.
  split; [|apply rewrite_empty].
  intros content. apply finish_ok.
Qed.

(** ** Lines without inline markup pass the inline rules unchanged *)

Lemma inline_free_parts (line : str) :
  inline_free line = true ->
  Forall unmarked line
  /\ contains (u "<!--") line = false /\ contains (u "-->") line = false.
Proof.
  unfold inline_free. intros H.
  apply andb_true_iff in H as [H Hclose]. apply andb_true_iff in H as [H Hopen].
  apply negb_true_iff in Hclose, Hopen. repeat split; try assumption.
  rewrite forallb_forall in H. apply Forall_forall.
  intros c Hc. specialize (H c Hc). unfold unmarked. now destruct (inline_char c).
Qed.

Lemma unmarked_not (m x : char) :
  inline_char m = true -> unmarked x -> char_eqb m x = false.
Proof.
  intros Hm Hx. destruct (char_eqb m x) eqn:E; [|reflexivity].
  apply char_eqb_eq in E. subst. unfold unmarked in Hx. congruence.
Qed.

Lemma fails_on_lit (m : char) : inline_char m = true -> fails_on unmarked (lit m).
Proof.
  intros Hm. apply fails_on_chr. intros x Hx. now apply unmarked_not.
Qed.

Lemma fails_on_range (lo hi : char) :
  (forall x, (lo <=? x)%N && (x <=? hi)%N = true -> inline_char x = true) ->
  fails_on unmarked (range lo hi).
Proof.
  intros Hin. apply fails_on_chr. intros x Hx.
  destruct ((lo <=? x)%N && (x <=? hi)%N) eqn:E; [|reflexivity].
  apply Hin in E. unfold unmarked in Hx. congruence.
Qed.

Lemma fails_on_other (P : char -> Prop) (m : char) :
  (forall x, P x -> x <> m) -> fails_on P (lit m).
Proof.
  intros HP. apply fails_on_chr. intros x Hx.
  destruct (char_eqb m x) eqn:E; [|reflexivity].
  apply char_eqb_eq in E. subst. now elim (HP x Hx).
Qed.

Lemma toc_start_needs_hash : fails_on not_hash re_toc_start.
Proof.
  unfold re_toc_start. cbn [Cat].
  apply fails_on_seq_r, fails_on_seq_l, fails_on_other. now intros x Hx.
Qed.

Lemma lits_image_open : lits (u "![") = Seq (lit 33) (lit 91).
Proof. reflexivity. Qed.

Lemma badge_unmarked : fails_on unmarked re_badge.
Proof.
  unfold re_badge. cbn [Cat]. rewrite lits_image_open.
  apply fails_on_seq_r, fails_on_seq_r, fails_on_seq_l, fails_on_seq_r.
  now apply fails_on_lit.
Qed.

Lemma image_unmarked : fails_on unmarked re_image.
Proof.
  unfold re_image. cbn [Cat]. rewrite lits_image_open.
  apply fails_on_seq_l, fails_on_seq_r. now apply fails_on_lit.
Qed.

Lemma link_unmarked : fails_on unmarked re_link.
Proof.
  unfold re_link. cbn [Cat]. apply fails_on_seq_l. now apply fails_on_lit.
Qed.

Lemma emphasis_unmarked (m : char) (n : nat) :
  inline_char m = true -> fails_on unmarked (re_emphasis m (S n)).
Proof.
  intros Hm. unfold re_emphasis. cbn [Cat Times].
  apply fails_on_seq_l, fails_on_seq_l. now apply fails_on_lit.
Qed.

Lemma symbols_unmarked :
  fails_on unmarked re_emoji /\ fails_on unmarked re_misc_symbols
  /\ fails_on unmarked re_dingbats.
Proof.
  repeat split; apply fails_on_range; intros x Hx; unfold inline_char;
    rewrite Hx; repeat rewrite orb_true_r; reflexivity.
Qed.

Lemma inline_markup_unmarked (line : str) :
  Forall unmarked line -> inline_markup line = line.
Proof.
  intros H. unfold inline_markup.
  destruct symbols_unmarked as (He & Hm & Hd).
  rewrite (fails_on_sub _ image_unmarked H).
  rewrite (fails_on_sub _ link_unmarked H).
  rewrite (fails_on_sub _ He H), (fails_on_sub _ Hm H), (fails_on_sub _ Hd H).
  rewrite !(fails_on_sub _ (@emphasis_unmarked 42 _ eq_refl) H).
  rewrite !(fails_on_sub _ (@emphasis_unmarked 95 _ eq_refl) H).
  reflexivity.
Qed.

Lemma unmarked_absent (m : char) (line : str) :
  inline_char m = true -> Forall unmarked line -> ~ In m line.
Proof.
  intros Hm H Hin. rewrite Forall_forall in H.
  specialize (H m Hin). unfold unmarked in H. congruence.
Qed.

(** Outside a code block such a line goes to the heading rule as it is. *)
Lemma handle_line_inline_free (line : str) (st : State) :
  inline_free line = true -> startswith fence (strip line) = false ->
  in_code_block st = false ->
  handle_line line st = table_or_text (clamp_heading line) st.
Proof.
  intros Hfree Hfence Hcode.
  destruct (inline_free_parts _ Hfree) as (H & Hopen & Hclose).
  unfold handle_line, html_comments.
  rewrite Hopen, Hclose. cbn [andb].
  rewrite Hfence, Hcode.
  rewrite (fails_on_matches badge_unmarked H).
  now rewrite inline_markup_unmarked.
Qed.

Lemma plain_parts (line : str) :
  plain line = true ->
  inline_free line = true /\ ~ In 35%N line /\ ~ In 96%N line.
Proof.
  unfold plain. intros H. apply andb_true_iff in H as [H Htick].
  apply andb_true_iff in H as [H Hhash].
  split; [exact H|]. apply negb_true_iff in Hhash, Htick.
  split; intros Hin.
  - apply (proj2 (contains_single 35%N line)) in Hin.
    pose proof (eq_trans (eq_sym Hin) Hhash). discriminate.
  - apply (proj2 (contains_single 96%N line)) in Hin.
    pose proof (eq_trans (eq_sym Hin) Htick). discriminate.
Qed.

Lemma fence_no_backtick (line : str) :
  ~ In 96%N line -> startswith fence (strip line) = false.
Proof.
  intros H. destruct (startswith fence (strip line)) eqn:E; [|reflexivity].
  exfalso. apply H.
  apply startswith_head in E as [s' E].
  apply (strip_by_incl isspace). unfold strip in E. rewrite E. now left.
Qed.

Lemma absent_forall (m : char) (line : str) :
  ~ In m line -> Forall (fun c => c <> m) line.
Proof.
  intros H. apply Forall_forall. intros x Hx ->. now apply H.
Qed.

Lemma clamp_heading_no_hash (line : str) :
  ~ In 35%N line -> clamp_heading line = line.
Proof.
  intros H. unfold clamp_heading.
  destruct (startswith (u "#") (lstrip line)) eqn:E; [|reflexivity].
  exfalso. apply H.
  apply startswith_head in E as [s' E].
  apply (lstrip_by_incl isspace). unfold lstrip in E. rewrite E. now left.
Qed.

Lemma step_plain (i : nat) (line : str) (st : State) :
  (i =? 0) && str_eqb (strip line) yaml_delimiter = false ->
  skip_yaml st = false -> skip_toc st = false -> in_code_block st = false ->
  plain line = true ->
  step i line st = table_or_text line st.
Proof.
  intros Hfirst Hyaml Htoc Hcode Hplain.
  destruct (plain_parts _ Hplain) as (Hfree & Hhash & Htick).
  unfold step. rewrite Hfirst, Hyaml, Htoc.
  rewrite (fails_on_matches toc_start_needs_hash (@absent_forall 35%N line Hhash)).
  cbn [andb]. rewrite Htoc.
  rewrite handle_line_inline_free by (assumption || now apply fence_no_backtick).
  now rewrite clamp_heading_no_hash.
Qed.

(** ** Sequences and anchored patterns *)

Lemma go_seq (a b : regex) (A : Type) (c : cursor) (k : cursor -> option A) :
  go (Seq a b) c k = go a c (fun c' => go b c' k).
Proof. reflexivity. Qed.

Lemma heading_deep_fixed (line : str) :
  matches re_heading_deep line = false ->
  re_sub re_heading_deep tpl_heading_deep line = line.
Proof.
  intros H. apply re_sub_no_match. intros [|n].
  - now apply matches_false.
  - reflexivity.
Qed.

(** ** Collapsing blanks *)

Lemma squeeze_cons (x : char) (s : str) :
  squeeze (x :: s) =
    if is_blank x then
      match s with
      | [] => [32%N]
      | y :: _ => if is_blank y then squeeze s else 32%N :: squeeze s
      end
    else x :: squeeze s.
Proof. reflexivity. Qed.

Lemma squeeze_cons_keep (x : char) (s : str) :
  is_blank x = false -> squeeze (x :: s) = x :: squeeze s.
Proof. intros Hx. now rewrite squeeze_cons, Hx. Qed.

Lemma squeeze_blank_blank (x y : char) (s : str) :
  is_blank x = true -> is_blank y = true -> squeeze (x :: y :: s) = squeeze (y :: s).
Proof. intros Hx Hy. now rewrite squeeze_cons, Hx, Hy. Qed.

Lemma squeeze_blank_keep (x y : char) (s : str) :
  is_blank x = true -> is_blank y = false ->
  squeeze (x :: y :: s) = 32%N :: squeeze (y :: s).
Proof. intros Hx Hy. now rewrite squeeze_cons, Hx, Hy. Qed.

Lemma squeeze_blank_nil (x : char) : is_blank x = true -> squeeze [x] = [32%N].
Proof. intros Hx. now rewrite squeeze_cons, Hx. Qed.

Lemma squeeze_blank_head (x : char) (s : str) :
  is_blank x = true -> squeeze (x :: s) = 32%N :: squeeze (lstrip_by is_blank s).
Proof.
  revert x. induction s as [|y s IH]; intros x Hx.
  - now rewrite squeeze_blank_nil.
  - cbn [lstrip_by]. destruct (is_blank y) eqn:Hy.
    + rewrite squeeze_blank_blank by assumption. now apply IH.
    + now rewrite squeeze_blank_keep.
Qed.

Lemma squeeze_idem (s : str) : squeeze (squeeze s) = squeeze s.
Proof.
  induction s as [|x s IH]; [reflexivity|].
  destruct (is_blank x) eqn:Hx.
  - destruct s as [|y s]; [now rewrite squeeze_blank_nil|].
    destruct (is_blank y) eqn:Hy.
    + now rewrite squeeze_blank_blank.
    + rewrite squeeze_blank_keep by assumption.
      rewrite (@squeeze_cons_keep y s Hy) in IH. rewrite (@squeeze_cons_keep y s Hy).
      rewrite squeeze_blank_keep by (reflexivity || exact Hy).
      now rewrite IH.
  - rewrite squeeze_cons_keep by exact Hx.
    rewrite squeeze_cons_keep by exact Hx. now rewrite IH.
Qed.

Lemma squeeze_in (c : char) (s : str) :
  In c (squeeze s) -> c = 32%N \/ In c s.
Proof.
  induction s as [|x s IH]; [intros []|].
  destruct (is_blank x) eqn:Hx.
  - destruct s as [|y s].
    + rewrite squeeze_blank_nil by exact Hx. intros [<-|[]]. now left.
    + destruct (is_blank y) eqn:Hy.
      * rewrite squeeze_blank_blank by assumption.
        intros H. destruct (IH H) as [->|H']; [now left | right; now right].
      * rewrite squeeze_blank_keep by assumption.
        intros [<-|H]; [now left|].
        destruct (IH H) as [->|H']; [now left | right; now right].
  - rewrite squeeze_cons_keep by exact Hx.
    intros [<-|H]; [right; now left|].
    destruct (IH H) as [->|H']; [now left | right; now right].
Qed.

Lemma is_blank_space (x : char) : is_blank x = true -> isspace x = true.
Proof.
  unfold is_blank. cbn [existsb]. rewrite orb_false_r.
  intros H. apply orb_true_iff in H as [H|H];
    apply char_eqb_eq in H; subst; reflexivity.
Qed.

Lemma squeeze_no_space (s : str) :
  filter (fun c => negb (isspace c)) (squeeze s)
  = filter (fun c => negb (isspace c)) s.
Proof.
  induction s as [|x s IH]; [reflexivity|].
  destruct (is_blank x) eqn:Hx.
  - cbn [filter]. rewrite (is_blank_space _ Hx). cbn [negb].
    destruct s as [|y s]; [now rewrite squeeze_blank_nil|].
    destruct (is_blank y) eqn:Hy.
    + now rewrite squeeze_blank_blank.
    + rewrite squeeze_blank_keep by assumption. exact IH.
  - rewrite squeeze_cons_keep by exact Hx. cbn [filter]. now rewrite IH.
Qed.

(** A text without blanks found after the collapsing was there before. *)
Lemma squeeze_head_blank (x : char) (s : str) :
  is_blank x = true -> exists t, squeeze (x :: s) = 32%N :: t.
Proof. intros Hx. rewrite squeeze_blank_head by exact Hx. eauto. Qed.

Lemma startswith_squeeze (p s : str) :
  forallb (fun c => negb (is_blank c)) p = true ->
  startswith p (squeeze s) = true -> startswith p s = true.
Proof.
  revert s. induction p as [|a p IH]; intros s Hp H; [reflexivity|].
  cbn [forallb] in Hp. apply andb_true_iff in Hp as [Ha Hp].
  apply negb_true_iff in Ha.
  destruct s as [|x s]; [discriminate H|].
  destruct (is_blank x) eqn:Hx.
  - destruct (@squeeze_head_blank x s Hx) as [t E]. rewrite E in H.
    cbn [startswith] in H. apply andb_true_iff in H as [H _].
    apply char_eqb_eq in H. subst a. discriminate Ha.
  - rewrite squeeze_cons_keep in H by exact Hx.
    cbn [startswith] in *. apply andb_true_iff in H as [H1 H2].
    rewrite H1. cbn [andb]. now apply IH.
Qed.

Lemma contains_squeeze (p s : str) :
  p <> [] -> forallb (fun c => negb (is_blank c)) p = true ->
  contains p (squeeze s) = true -> contains p s = true.
Proof.
  intros Hne Hp.
  destruct p as [|a p]; [contradiction|].
  pose proof Hp as Hp'. cbn [forallb] in Hp'.
  apply andb_true_iff in Hp' as [Ha _]. apply negb_true_iff in Ha.
  assert (Hnot : forall t, startswith (a :: p) (32%N :: t) = false).
  { intros t. cbn [startswith]. destruct (char_eqb a 32) eqn:E; [|reflexivity].
    apply char_eqb_eq in E. subst a. discriminate Ha. }
  induction s as [|x s IH]; [intros H; exact H|].
  intros H. cbn [contains]. apply orb_true_iff.
  destruct (is_blank x) eqn:Hx.
  - right. apply IH.
    destruct s as [|y s].
    + rewrite squeeze_blank_nil in H by exact Hx.
      cbn [contains] in H. rewrite Hnot in H. exact H.
    + destruct (is_blank y) eqn:Hy.
      * now rewrite squeeze_blank_blank in H.
      * rewrite squeeze_blank_keep in H by assumption.
        cbn [contains] in H. now rewrite Hnot in H.
  - rewrite squeeze_cons_keep in H by exact Hx.
    cbn [contains] in H. apply orb_true_iff in H as [H|H].
    + left. apply startswith_squeeze; [exact Hp|].
      now rewrite squeeze_cons_keep by exact Hx.
    + right. now apply IH.
Qed.

Lemma go_plus_chr (p : char -> bool) (i : nat) (s : str) (cs : list (nat * str)) :
  go (Seq (Chr p) (Star true (Chr p))) (Cursor i s cs) Some =
    match s with
    | [] => None
    | x :: xs =>
        if p x then go (Star true (Chr p)) (Cursor (S i) xs cs) Some else None
    end.
Proof. destruct s; reflexivity. Qed.

Lemma re_blanks_eq : re_blanks = Seq (Chr is_blank) (Star true (Chr is_blank)).
Proof. reflexivity. Qed.

Lemma sub_from_blanks (fuel : nat) (s : str) (i : nat) (cs : list (nat * str)) :
  length s < fuel ->
  sub_from fuel re_blanks [Text (u " ")] (Cursor i s cs) = squeeze s.
Proof.
  revert s i cs. induction fuel as [|fuel IH]; intros s i cs Hlen; [lia|].
  cbn [sub_from pos rest]. rewrite re_blanks_eq, go_plus_chr.
  destruct s as [|x xs]; [reflexivity|].
  cbn [length] in Hlen.
  destruct (is_blank x) eqn:Hx.
  - destruct (go_star_chr_run is_blank xs (S i) []) as (j & Hj & ->).
    cbn [pos caps].
    replace (i <? j) with true by (symmetry; apply Nat.ltb_lt; lia).
    rewrite <- re_blanks_eq, IH
      by (pose proof (lstrip_by_length is_blank xs); lia).
    now rewrite squeeze_blank_head by exact Hx.
  - rewrite <- re_blanks_eq, IH by lia.
    now rewrite squeeze_cons_keep by exact Hx.
Qed.

(** Line 124 is [squeeze]. *)
Lemma re_sub_blanks (s : str) : re_sub re_blanks [Text (u " ")] s = squeeze s.
Proof. unfold re_sub, start. apply sub_from_blanks. lia. Qed.

(** ** Splitting and joining *)

Lemma split_none (c : char) (l : str) : ~ In c l -> split c l = [l].
Proof.
  induction l as [|x l IH]; intros Hc; [reflexivity|].
  cbn [split]. destruct (char_eqb x c) eqn:E.
  - apply char_eqb_eq in E. subst. exfalso. apply Hc. now left.
  - rewrite IH; [reflexivity|]. intros H. apply Hc. now right.
Qed.

Lemma split_app (c : char) (l t : str) :
  ~ In c l -> split c (l ++ c :: t) = l :: split c t.
Proof.
  induction l as [|x l IH]; intros Hc.
  - cbn [app split]. unfold char_eqb. now rewrite N.eqb_refl.
  - cbn [app split]. destruct (char_eqb x c) eqn:E.
    + apply char_eqb_eq in E. subst. exfalso. apply Hc. now left.
    + rewrite IH; [reflexivity|]. intros H. apply Hc. now right.
Qed.

Lemma split_join (c : char) (ls : list str) :
  ls <> [] -> (forall l, In l ls -> ~ In c l) -> split c (join [c] ls) = ls.
Proof.
  induction ls as [|l ls IH]; intros Hne Hc; [contradiction|].
  destruct ls as [|l2 ls].
  - cbn [join]. apply split_none. apply Hc. now left.
  - change (join [c] (l :: l2 :: ls)) with (l ++ c :: join [c] (l2 :: ls)).
    rewrite split_app by (apply Hc; now left).
    f_equal. apply IH; [discriminate|].
    intros l' Hl'. apply Hc. now right.
Qed.

Lemma split_no_sep (c : char) (s l : str) : In l (split c s) -> ~ In c l.
Proof.
  revert l. induction s as [|x s IH]; intros l.
  - intros [<-|[]]. intros [].
  - cbn [split]. destruct (char_eqb x c) eqn:E.
    + intros [<-|H]; [intros [] | now apply IH].
    + assert (Hx : x <> c).
      { intros ->. unfold char_eqb in E. now rewrite N.eqb_refl in E. }
      destruct (split c s) as [|w ws].
      * intros [<-|[]]. intros [H|[]]. now apply Hx.
      * intros [<-|H].
        -- intros [H|H]; [now apply Hx|]. apply (IH w); [now left | exact H].
        -- apply IH. now right.
Qed.

(** ** Runs of blank lines *)

Lemma collapse_runs_ok (n : nat) (lines : list str) :
  runs_ok n (collapse_blank_lines n lines) = true.
Proof.
  revert n. induction lines as [|l lines IH]; intros n; [reflexivity|].
  cbn [collapse_blank_lines]. destruct (blank l) eqn:Hl.
  - destruct (S n <=? 2) eqn:Hn.
    + cbn [runs_ok]. now rewrite Hl, Hn, IH.
    + clear Hl. apply Nat.leb_gt in Hn.
      assert (H : forall m k ls, 2 <= m -> 2 <= k ->
                collapse_blank_lines m ls = collapse_blank_lines k ls).
      { intros m k ls. revert m k.
        induction ls as [|l' ls IHls]; intros m k Hm Hk; [reflexivity|].
        cbn [collapse_blank_lines]. destruct (blank l'); [|reflexivity].
        replace (S m <=? 2) with false by (symmetry; apply Nat.leb_gt; lia).
        replace (S k <=? 2) with false by (symmetry; apply Nat.leb_gt; lia).
        apply IHls; lia. }
      rewrite (H (S n) n) by lia. apply IH.
  - cbn [runs_ok]. now rewrite Hl, IH.
Qed.

Lemma runs_ok_fixed (n : nat) (lines : list str) :
  runs_ok n lines = true -> collapse_blank_lines n lines = lines.
Proof.
  revert n. induction lines as [|l lines IH]; intros n; [reflexivity|].
  cbn [runs_ok collapse_blank_lines]. destruct (blank l).
  - intros H. apply andb_true_iff in H as [Hn H]. rewrite Hn. now rewrite IH.
  - intros H. now rewrite IH.
Qed.

Lemma runs_ok_fewer (n m : nat) (lines : list str) :
  m <= n -> runs_ok n lines = true -> runs_ok m lines = true.
Proof.
  revert n m. induction lines as [|l lines IH]; intros n m Hm; [reflexivity|].
  cbn [runs_ok]. destruct (blank l); [|tauto].
  intros H. apply andb_true_iff in H as [Hn H].
  apply Nat.leb_le in Hn. apply andb_true_iff. split.
  - apply Nat.leb_le. lia.
  - apply (IH (S n)); [lia | exact H].
Qed.

Lemma runs_ok_lstrip (n : nat) (lines : list str) :
  runs_ok n lines = true -> runs_ok 0 (lstrip_by blank lines) = true.
Proof.
  revert n. induction lines as [|l lines IH]; intros n; [reflexivity|].
  cbn [runs_ok lstrip_by]. destruct (blank l) eqn:Hl.
  - intros H. apply andb_true_iff in H as [_ H]. now apply (IH (S n)).
  - intros H. cbn [runs_ok]. now rewrite Hl.
Qed.

Lemma runs_ok_prefix (n : nat) (a b : list str) :
  runs_ok n (a ++ b) = true -> runs_ok n a = true.
Proof.
  revert n. induction a as [|l a IH]; intros n; [reflexivity|].
  cbn [app runs_ok]. destruct (blank l).
  - intros H. apply andb_true_iff in H as [Hn H]. rewrite Hn. now apply IH.
  - apply IH.
Qed.

Lemma lstrip_by_suffix {A} (p : A -> bool) (s : list A) :
  exists a, s = a ++ lstrip_by p s.
Proof.
  induction s as [|x s [a IH]]; [now exists []|].
  cbn [lstrip_by]. destruct (p x).
  - exists (x :: a). cbn [app]. now f_equal.
  - now exists [].
Qed.

Lemma rstrip_by_prefix {A} (p : A -> bool) (s : list A) :
  exists b, s = rstrip_by p s ++ b.
Proof.
  unfold rstrip_by. destruct (lstrip_by_suffix p (rev s)) as [a E].
  exists (rev a).
  rewrite <- rev_app_distr, <- E. now rewrite rev_involutive.
Qed.

Lemma runs_ok_strip (lines : list str) :
  runs_ok 0 lines = true -> runs_ok 0 (strip_by blank lines) = true.
Proof.
  intros H. unfold strip_by.
  apply runs_ok_lstrip in H.
  destruct (rstrip_by_prefix blank (lstrip_by blank lines)) as [b E].
  rewrite E in H. now apply runs_ok_prefix in H.
Qed.

(** ** Tables *)

Lemma fails_on_bar : fails_on not_bar (lit 124).
Proof.
  apply fails_on_chr. intros x Hx.
  destruct (char_eqb 124 x) eqn:E; [|reflexivity].
  apply char_eqb_eq in E. now subst.
Qed.

Lemma table_row_needs_bar : fails_on not_bar re_table_row.
Proof.
  unfold re_table_row. cbn [Cat].
  apply fails_on_seq_r, fails_on_seq_r, fails_on_seq_l, fails_on_bar.
Qed.

Lemma table_separator_needs_bar : fails_on not_bar re_table_separator.
Proof.
  unfold re_table_separator. cbn [Cat].
  do 6 apply fails_on_seq_r. apply fails_on_seq_l.
  unfold Plus. apply fails_on_seq_l, fails_on_group, fails_on_seq_l, fails_on_bar.
Qed.

Lemma matches_has_bar (r : regex) (line : str) :
  fails_on not_bar r -> matches r line = true -> In 124%N line.
Proof.
  intros Hr Hm. destruct (contains [124%N] line) eqn:E.
  - now apply contains_single.
  - exfalso. rewrite (fails_on_matches Hr) in Hm; [discriminate|].
    apply Forall_forall. intros x Hx Hbar. unfold not_bar in *. subst.
    apply contains_single in Hx.
    pose proof (eq_trans (eq_sym Hx) E). discriminate.
Qed.

Lemma bar_not_yaml (line : str) :
  In 124%N line -> str_eqb (strip line) yaml_delimiter = false.
Proof.
  intros Hin. destruct (str_eqb (strip line) yaml_delimiter) eqn:E; [|reflexivity].
  apply str_eqb_eq in E.
  apply (strip_by_keeps isspace) in Hin; [|reflexivity].
  unfold strip in E. rewrite E, yaml_delimiter_eq in Hin.
  cbn [In] in Hin. repeat (destruct Hin as [Hin|Hin]; [discriminate|]). contradiction.
Qed.

Lemma contains_bar (line : str) : In 124%N line -> contains (u "|") line = true.
Proof. exact (proj2 (contains_single 124%N line)). Qed.

Lemma contains_backtick (line : str) :
  contains (u "`") line = true -> In 96%N line.
Proof. exact (proj1 (contains_single 96%N line)). Qed.

Lemma table_rule_applies (line : str) (st : State) :
  In 124%N line -> plain line = true -> in_code_block st = false ->
  contains (u "|") line && negb (in_code_block st) && negb (contains (u "`") line)
  = true.
Proof.
  intros Hbar Hplain Hcode. rewrite Hcode, (contains_bar _ Hbar).
  destruct (contains (u "`") line) eqn:E; [|reflexivity].
  exfalso. apply contains_backtick in E.
  now destruct (plain_parts _ Hplain) as (_ & _ & Htick).
Qed.

(** ** The table of contents *)

Lemma toc_start_head (line : str) :
  matches re_toc_start line = true -> exists line', line = 35%N :: line'.
Proof.
  destruct line as [|c line']; [vm_compute; discriminate|].
  destruct (char_eqb 35 c) eqn:E.
  - apply char_eqb_eq in E. subst. eauto.
  - unfold matches, re_match, re_toc_start.
    cbn [Cat go start pos rest Nat.eqb lit]. rewrite E. discriminate.
Qed.

(** A heading is not a front matter delimiter. *)
Lemma toc_start_not_yaml (line : str) :
  matches re_toc_start line = true -> str_eqb (strip line) yaml_delimiter = false.
Proof.
  intros H. apply toc_start_head in H as [line' ->].
  unfold strip. rewrite strip_by_cons_keep by reflexivity.
  rewrite yaml_delimiter_eq. reflexivity.
Qed.

Lemma step_toc_start (i : nat) (line : str) (st : State) :
  skip_yaml st = false ->
  matches re_toc_start line = true ->
  step i line st = set_skip_toc true st.
Proof.
  intros Hyaml Htoc. unfold step.
  rewrite (toc_start_not_yaml _ Htoc), andb_false_r, Hyaml, Htoc. reflexivity.
Qed.

Lemma set_skip_toc_same (st : State) :
  set_skip_toc (skip_toc st) st = st.
Proof. now destruct st. Qed.

Lemma step_in_toc (i : nat) (line : str) (st : State) :
  skip_yaml st = false -> skip_toc st = true -> 0 < i ->
  matches re_toc_end line = false ->
  step i line st = st.
Proof.
  intros Hyaml Htoc Hi Hend. unfold step.
  replace (i =? 0) with false by (symmetry; apply Nat.eqb_neq; lia).
  cbn [andb]. rewrite Hyaml, Hend, andb_false_r, Htoc.
  destruct (matches re_toc_start line); [|reflexivity].
  rewrite <- Htoc. apply set_skip_toc_same.
Qed.

Lemma step_leaves_toc (i : nat) (line : str) (st : State) :
  skip_yaml st = false -> 0 < i ->
  matches re_toc_end line = true ->
  matches re_toc_start line = false ->
  step i line (set_skip_toc true st) = step i line (set_skip_toc false st).
Proof.
  intros Hyaml Hi Hend Hstart. unfold step.
  replace (i =? 0) with false by (symmetry; apply Nat.eqb_neq; lia).
  cbn [andb skip_yaml skip_toc set_skip_toc].
  rewrite Hyaml, Hstart, Hend. reflexivity.
Qed.

Lemma run_in_toc (i : nat) (lines : list str) (st : State) :
  skip_yaml st = false -> skip_toc st = true -> 0 < i ->
  Forall (fun l => matches re_toc_end l = false
                   \/ matches re_toc_start l = true) lines ->
  run i lines st = st.
Proof.
  intros Hyaml Htoc Hi Hlines. revert i Hi.
  induction Hlines as [|l lines Hl _ IH]; intros i Hi; [reflexivity|].
  cbn [run].
  assert (Hstep : step i l st = st).
  { destruct (matches re_toc_start l) eqn:Hstart.
    - rewrite step_toc_start by assumption.
      rewrite <- Htoc. apply set_skip_toc_same.
    - destruct Hl as [Hl|Hl]; [|discriminate Hl].
      now apply step_in_toc. }
  rewrite Hstep. apply IH. lia.
Qed.

(** C3, as the code has it: once a line matching the heading of a table
    of contents is met, the lines that follow are dropped as long as they
    do not begin with exactly two [#], white space and a word character,
    or are the heading of a table of contents themselves (a first-level
    heading is dropped like any other line); the first line that begins
    so, and is not the heading of a table of contents again, is handled
    as if the lines from the table's heading on had not been there. *)
Theorem toc_suppression_ends_at_second_level_heading
    (i : nat) (st : State) (toc : str) (skipped : list str)
    (heading : str) (rest : list str) :
  skip_yaml st = false ->
  matches re_toc_start toc = true ->
  Forall (fun l => matches re_toc_end l = false
                   \/ matches re_toc_start l = true) skipped ->
  matches re_toc_end heading = true ->
  matches re_toc_start heading = false ->
  run i (toc :: skipped ++ heading :: rest) st
  = run (S i + length skipped) (heading :: rest) (set_skip_toc false st).
Proof.
  intros Hyaml Htoc Hskipped Hend Hstart.
  cbn [run]. rewrite step_toc_start by assumption.
  rewrite run_app.
  rewrite (@run_in_toc (S i) skipped (set_skip_toc true st));
    [| exact Hyaml | reflexivity | lia | exact Hskipped].
  cbn [run]. rewrite step_leaves_toc by (assumption || lia).
  reflexivity.
Qed.

(** ** What the code does keep *)

Lemma snoc_cases {A} (l : list A) : l = [] \/ exists l' x, l = l' ++ [x].
Proof.
  destruct l as [|x l] using rev_ind; [now left | right; eauto].
Qed.

Lemma cut_footer_prefix (result : list str) (indices : list nat) :
  exists final_result cut,
    cut_footer result indices = Ok final_result /\ result = final_result ++ cut.
Proof.
  induction indices as [|i indices IH].
  - exists result, []. now rewrite app_nil_r.
  - cbn [cut_footer].
    destruct (i <? length result) eqn:Hi; [|exact IH].
    apply Nat.ltb_lt in Hi.
    destruct (getitem_in result Hi) as (line & -> & _). cbn [bind].
    destruct (re_search re_footer line); [|exact IH].
    pose proof (firstn_skipn i result) as Hsplit.
    destruct (snoc_cases (firstn i result)) as [E|(l & x & E)]; rewrite E in *.
    + exists [], result. now split.
    + rewrite length_app. cbn [length].
      replace (length l + 1 =? 0) with false by (symmetry; apply Nat.eqb_neq; lia).
      cbn [negb]. rewrite getlast_snoc. cbn [bind].
      rewrite <- app_assoc in Hsplit.
      destruct (str_eqb (strip x) yaml_delimiter).
      * rewrite pop_last_snoc. exists l, (x :: skipn i result).
        split; [reflexivity | now symmetry].
      * exists (l ++ [x]), (skipn i result).
        split; [reflexivity | now rewrite <- app_assoc].
Qed.

Lemma lstrip_by_fixed_prefix {A} (p : A -> bool) (a b : list A) :
  lstrip_by p (a ++ b) = a ++ b -> lstrip_by p a = a.
Proof.
  destruct a as [|x a]; [reflexivity|]. cbn [app lstrip_by].
  destruct (p x); [|reflexivity].
  intros H. pose proof (lstrip_by_length p (a ++ b)) as Hlen.
  rewrite H in Hlen. cbn [length] in Hlen. lia.
Qed.

Lemma fence_not_yaml (line : str) :
  startswith fence (strip line) = true ->
  str_eqb (strip line) yaml_delimiter = false.
Proof.
  intros H. apply startswith_head in H as [s' E]. rewrite E.
  rewrite yaml_delimiter_eq. reflexivity.
Qed.

Lemma step_in_block (i : nat) (line : str) (st : State) :
  skip_yaml st = false -> skip_toc st = false ->
  (i =? 0) && str_eqb (strip line) yaml_delimiter = false ->
  reaches_fence_rule line ->
  step i line st =
    if startswith fence (strip line) then toggle_fence line st
    else if in_code_block st then buffer_code line st
    else if matches re_badge line then st
    else table_or_text (clamp_heading (inline_markup line)) st.
Proof.
  intros Hyaml Htoc Hfirst (Hopen & Hclose & Hstart). unfold step.
  rewrite Hfirst, Hyaml, Hstart, Htoc. cbn [andb]. rewrite Htoc.
  unfold handle_line, html_comments. now rewrite Hopen, Hclose.
Qed.

Lemma run_interior (i : nat) (interior : list str) (out buffer : list str) (lang : str) :
  0 < i ->
  Forall reaches_fence_rule interior ->
  Forall (fun line => startswith fence (strip line) = false) interior ->
  run i interior (mkState out true buffer lang false false)
  = mkState out true (buffer ++ interior) lang false false.
Proof.
  intros Hi Hreach. revert i Hi buffer.
  induction Hreach as [|l interior Hl _ IH]; intros i Hi buffer Hnot.
  - cbn [run]. now rewrite app_nil_r.
  - inversion Hnot as [|? ? Hl' Hnot']; subst. cbn [run].
    rewrite step_in_block; try reflexivity; try assumption.
    + rewrite Hl'. cbn [in_code_block]. unfold buffer_code.
      cbn [output in_code_block code_buffer code_lang skip_yaml skip_toc].
      rewrite IH by (lia || assumption). now rewrite <- app_assoc.
    + replace (i =? 0) with false by (symmetry; apply Nat.eqb_neq; lia).
      reflexivity.
Qed.

(** Outside the skipped regions, a balanced fenced block none of whose
    lines holds a comment delimiter or reads as the heading of a table of
    contents is appended to the output as it is, fence lines included, in
    one piece. *)
Theorem fenced_block_is_flushed
    (i : nat) (st : State) (opening closing : str) (interior : list str) :
  skip_yaml st = false -> skip_toc st = false -> in_code_block st = false ->
  startswith fence (strip opening) = true ->
  startswith fence (strip closing) = true ->
  Forall (fun line => startswith fence (strip line) = false) interior ->
  Forall reaches_fence_rule (opening :: interior ++ [closing]) ->
  run i (opening :: interior ++ [closing]) st
  = mkState (output st ++ opening :: interior ++ [closing]) false [] [] false false.
Proof.
  intros Hyaml Htoc Hcode Hopening Hclosing Hinterior Hreach.
  inversion Hreach as [|? ? Hreach1 Hreach2]; subst.
  apply Forall_app in Hreach2 as [Hreach2 Hreach3].
  inversion Hreach3 as [|? ? Hreach3' _]; subst.
  cbn [run].
  rewrite step_in_block; try assumption;
    [|now rewrite fence_not_yaml, andb_false_r].
  rewrite Hopening. unfold toggle_fence at 1. rewrite Hcode, Hyaml, Htoc.
  cbn [negb]. rewrite run_app.
  rewrite run_interior by (lia || assumption).
  cbn [run]. rewrite step_in_block by (reflexivity || assumption).
  rewrite Hclosing. unfold toggle_fence.
  cbn [output in_code_block code_buffer code_lang skip_yaml skip_toc negb app].
  reflexivity.
Qed.

(** The other examples of the specification: a link, an image, a badge
    line, a deep heading, and four blank lines. *)
Theorem inline_examples :
  process_markdown_content (doc ["[click here](https://x.io)"]%string)
    = Ok (u "click here")
  /\ process_markdown_content (doc ["![a diagram](img.png)"]%string)
     = Ok (u "[Image: a diagram]")
  /\ process_markdown_content
       (doc ["text"; "![build](https://img.shields.io/b.svg)"; "more"]%string)
     = Ok (doc ["text"; "more"]%string)
  /\ process_markdown_content (doc ["##### Deep Heading"]%string)
     = Ok (u "### Deep Heading")
  /\ process_markdown_content (doc ["a"; ""; ""; ""; ""; "b"]%string)
     = Ok (doc ["a"; ""; ""; "b"]%string).
Proof. repeat split; vm_compute; reflexivity. Qed.

(** ** What a substitution is made of *)

(** The matcher hands on parts of its subject only. *)
Lemma go_keeps (P : char -> Prop) (r : regex) :
  forall (A : Type) (k : cursor -> option A) (c : cursor) (v : A),
    cursor_in P c -> go r c k = Some v ->
    exists c', cursor_in P c' /\ k c' = Some v.
Proof.
  induction r as [|p|a IHa b IHb|a IHa b IHb|g a IHa|n a IHa| |];
    intros A k c v Hc H; cbn [go] in H.
  - eauto.
  - destruct c as [i [|x xs] cs]; cbn [rest pos caps] in *; [discriminate|].
    destruct (p x); [|discriminate].
    eexists. split; [|exact H].
    destruct Hc as [Hr Hcs]. split; cbn [rest caps] in *; [now inversion Hr | exact Hcs].
  - apply IHa in H as (c1 & Hc1 & H1); [|exact Hc]. now apply IHb in H1.
  - unfold orelse in H. destruct (go a c k) as [w|] eqn:Ea.
    + injection H as <-. now apply IHa in Ea.
    + now apply IHb in H.
  - revert v H. generalize (length (rest c)). intros n. revert c Hc.
    destruct g; induction n as [|n IHn]; intros c Hc v H; unfold orelse in H.
    + eauto.
    + match type of H with
      | match ?e with _ => _ end = _ => destruct e as [w|] eqn:Ea
      end; [|eauto].
      injection H as <-. apply IHa in Ea as (c1 & Hc1 & H1); [|exact Hc].
      destruct (length (rest c1) <? length (rest c)); [|discriminate].
      exact (IHn c1 Hc1 _ H1).
    + destruct (k c) as [w|] eqn:Ek; [|discriminate]. injection H as <-. eauto.
    + destruct (k c) as [w|] eqn:Ek; [injection H as <-; eauto|].
      apply IHa in H as (c1 & Hc1 & H1); [|exact Hc].
      destruct (length (rest c1) <? length (rest c)); [|discriminate].
      exact (IHn c1 Hc1 _ H1).
  - apply IHa in H as (c1 & Hc1 & H1); [|exact Hc].
    eexists. split; [|exact H1].
    destruct Hc as [Hr Hcs], Hc1 as [Hr1 Hcs1].
    split; cbn [rest caps]; [exact Hr1|].
    constructor; [|exact Hcs1]. cbn [snd].
    rewrite <- (firstn_skipn (pos c1 - pos c) (rest c)) in Hr.
    now apply Forall_app in Hr.
  - destruct (pos c =? 0); [eauto | discriminate].
  - destruct (at_end (rest c)); [eauto | discriminate].
Qed.

Lemma group_keeps (P : char -> Prop) (n : nat) (gs : list (nat * str)) :
  Forall (fun g => Forall P (snd g)) gs -> Forall P (group n gs).
Proof.
  induction 1 as [|[m s] gs Hs _ IH]; cbn [group]; [constructor|].
  destruct (n =? m); [exact Hs | exact IH].
Qed.

Lemma expand_keeps (P : char -> Prop) (tpl : list piece) (gs : list (nat * str)) :
  template_in P tpl -> Forall (fun g => Forall P (snd g)) gs ->
  Forall P (expand tpl gs).
Proof.
  intros Htpl Hgs. unfold expand.
  induction Htpl as [|p tpl Hp _ IH]; cbn [flat_map]; [constructor|].
  apply Forall_app. split; [|exact IH].
  destruct p; [exact Hp | now apply group_keeps].
Qed.

Lemma sub_from_keeps (P : char -> Prop) (r : regex) (tpl : list piece) (fuel : nat) :
  template_in P tpl ->
  forall c : cursor, Forall P (rest c) -> Forall P (sub_from fuel r tpl c).
Proof.
  intros Htpl. induction fuel as [|fuel IH]; intros c Hc; [exact Hc|].
  cbn [sub_from].
  assert (Hskip : Forall P match rest c with
                           | [] => []
                           | x :: xs => x :: sub_from fuel r tpl (Cursor (S (pos c)) xs [])
                           end).
  { destruct (rest c) as [|x xs]; [constructor|].
    inversion Hc; subst. constructor; [assumption|]. now apply IH. }
  destruct (go r (Cursor (pos c) (rest c) []) Some) as [c'|] eqn:E; [|exact Hskip].
  apply (go_keeps (P := P)) in E as (c1 & [Hr1 Hcs1] & E1);
    [|split; [exact Hc | constructor]].
  injection E1 as ->.
  destruct (pos c <? pos c'); apply Forall_app; split;
    try (now apply expand_keeps); [now apply IH | exact Hskip].
Qed.

(** What [re.sub] returns is made of the subject and of the text of the
    replacement template. *)
Lemma re_sub_keeps (P : char -> Prop) (r : regex) (tpl : list piece) (s : str) :
  template_in P tpl -> Forall P s -> Forall P (re_sub r tpl s).
Proof. intros Htpl Hs. now apply sub_from_keeps. Qed.

(** Replacing a character class by nothing filters the subject. *)
Lemma sub_from_chr_delete (p : char -> bool) (fuel : nat) :
  forall (s : str) (i : nat) (cs : list (nat * str)),
    length s < fuel ->
    sub_from fuel (Chr p) [] (Cursor i s cs) = filter (fun c => negb (p c)) s.
Proof.
  induction fuel as [|fuel IH]; intros s i cs Hlen; [lia|].
  cbn [sub_from go rest pos caps].
  destruct s as [|x s]; [reflexivity|]. cbn [length] in Hlen. cbn [filter].
  destruct (p x); cbn [negb pos caps expand flat_map app].
  - replace (i <? S i) with true by (symmetry; apply Nat.ltb_lt; lia).
    apply IH. lia.
  - f_equal. apply IH. lia.
Qed.

Lemma re_sub_chr_delete (p : char -> bool) (s : str) :
  re_sub (Chr p) [] s = filter (fun c => negb (p c)) s.
Proof. unfold re_sub, start. apply sub_from_chr_delete. lia. Qed.

Lemma split_incl (c : char) (s l : str) (x : char) :
  In l (split c s) -> In x l -> In x s.
Proof.
  revert l. induction s as [|y s IH]; intros l Hl Hx; cbn [split] in Hl.
  - destruct Hl as [<-|[]]. exact Hx.
  - destruct (char_eqb y c).
    + destruct Hl as [<-|Hl]; [destruct Hx | right; now apply (IH l)].
    + destruct (split c s) as [|w ws] eqn:E.
      * destruct Hl as [<-|[]]. destruct Hx as [<-|[]]. now left.
      * destruct Hl as [<-|Hl].
        -- destruct Hx as [<-|Hx]; [now left | right].
           apply (IH w); [now left | exact Hx].
        -- right. apply (IH l); [now right | exact Hx].
Qed.

(** ** The characters and the lines of the result *)

Ltac member :=
  let c := fresh "c" in
  let H := fresh "H" in
  intros c H; vm_compute in H; vm_compute;
  repeat (destruct H as [<-|H]; [repeat ((left; reflexivity) || right)|]);
  contradiction.

Section Keeps.

Variable P : char -> Prop.
Hypothesis own : forall c, In c own_text -> P c.

Lemma own_incl (s : str) : incl s own_text -> Forall P s.
Proof. intros Hs. apply Forall_forall. intros c Hc. now apply own, Hs. Qed.

Lemma html_comments_keeps (line line' : str) :
  html_comments line = Some line' -> Forall P line -> Forall P line'.
Proof.
  unfold html_comments. intros H Hline.
  destruct (contains (u "<!--") line && contains (u "-->") line).
  - injection H as <-. apply re_sub_keeps; [apply Forall_nil | exact Hline].
  - destruct (contains (u "<!--") line); [discriminate|].
    destruct (contains (u "-->") line); [discriminate|].
    now injection H as <-.
Qed.

Lemma ref_keeps (n : nat) : template_in P [Ref n].
Proof. repeat constructor. Qed.

Lemma inline_markup_keeps (line : str) :
  Forall P line -> Forall P (inline_markup line).
Proof.
  intros Hline. unfold inline_markup.
  do 6 (apply re_sub_keeps; [apply ref_keeps|]).
  do 3 (apply re_sub_keeps; [apply Forall_nil|]).
  apply re_sub_keeps; [apply ref_keeps|].
  apply re_sub_keeps; [|exact Hline].
  apply Forall_cons; [apply own_incl; member|].
  apply Forall_cons; [exact I|].
  apply Forall_cons; [apply own_incl; member | apply Forall_nil].
Qed.

Lemma clamp_heading_keeps (line : str) :
  Forall P line -> Forall P (clamp_heading line).
Proof.
  intros Hline. unfold clamp_heading.
  destruct (startswith (u "#") (lstrip line)); [|exact Hline].
  apply re_sub_keeps; [|apply re_sub_keeps; [apply Forall_nil | exact Hline]].
  apply Forall_cons; [exact I|].
  apply Forall_cons; [apply own_incl; member|].
  apply Forall_cons; [exact I | apply Forall_nil].
Qed.


Lemma squeeze_keeps (s : str) : Forall P s -> Forall P (squeeze s).
Proof.
  intros Hs. apply Forall_forall. intros c Hc.
  apply squeeze_in in Hc as [->|Hc].
  - apply own. vm_compute. tauto.
  - revert c Hc. now apply Forall_forall.
Qed.

Lemma table_cells_keeps (line : str) :
  Forall P line -> Forall (Forall P) (table_cells line).
Proof.
  intros Hline. unfold table_cells.
  apply Forall_forall. intros cell Hcell.
  apply filter_In in Hcell as [Hcell _].
  apply in_map_iff in Hcell as (part & <- & Hpart).
  apply Forall_forall. intros c Hc.
  apply strip_by_incl in Hc.
  pose proof (@split_incl 124 _ part c Hpart Hc) as Hc'.
  apply strip_by_incl, strip_by_incl in Hc'.
  revert c Hc Hc'. intros c _. revert c. now apply Forall_forall.
Qed.

Lemma join_keeps (sep : str) (parts : list str) :
  Forall P sep -> Forall (Forall P) parts -> Forall P (join sep parts).
Proof.
  intros Hsep. induction 1 as [|p parts Hp Hparts IH]; [constructor|].
  cbn [join]. destruct parts as [|q parts]; [exact Hp|].
  apply Forall_app. split; [exact Hp|]. apply Forall_app. now split.
Qed.

Lemma bullet_line_keeps (cells : list str) :
  Forall (Forall P) cells -> Forall P (bullet_line cells).
Proof.
  intros Hcells. unfold bullet_line. apply Forall_app. split.
  - apply own_incl. member.
  - apply join_keeps; [apply own_incl; member | exact Hcells].
Qed.

Lemma emit_keeps (line : str) (st : State) :
  Forall P line -> lines_in P st -> lines_in P (emit line st).
Proof.
  intros Hline [Hout Hbuf]. split; cbn [emit output code_buffer]; [|exact Hbuf].
  apply Forall_app. split; [exact Hout | now constructor].
Qed.

Lemma table_or_text_keeps (line : str) (st : State) :
  Forall P line -> lines_in P st -> lines_in P (table_or_text line st).
Proof.
  intros Hline Hst. unfold table_or_text.
  assert (Htext : lines_in P (emit (re_sub re_blanks [Text (u " ")] line) st)).
  { apply emit_keeps; [|exact Hst]. rewrite re_sub_blanks. now apply squeeze_keeps. }
  destruct (contains (u "|") line && negb (in_code_block st)
            && negb (contains (u "`") line)); [|exact Htext].
  destruct (matches re_table_separator line); [exact Hst|].
  destruct (matches re_table_row line); [|exact Htext].
  pose proof (table_cells_keeps Hline) as Hcells.
  destruct (table_cells line) as [|cell cells]; [exact Hst|].
  apply emit_keeps; [|exact Hst]. now apply bullet_line_keeps.
Qed.

Lemma handle_line_keeps (line : str) (st : State) :
  Forall P line -> lines_in P st -> lines_in P (handle_line line st).
Proof.
  intros Hline Hst. unfold handle_line.
  destruct (html_comments line) as [line'|] eqn:E; [|exact Hst].
  apply html_comments_keeps in E; [|exact Hline].
  destruct (startswith fence (strip line')).
  - destruct Hst as [Hout Hbuf]. unfold toggle_fence.
    destruct (in_code_block st); cbn [negb]; split; cbn [output code_buffer];
      try assumption; try (now repeat constructor).
    apply Forall_app. split; [exact Hout|].
    apply Forall_app. split; [exact Hbuf | now constructor].
  - destruct (in_code_block st).
    + destruct Hst as [Hout Hbuf]. split; cbn [buffer_code output code_buffer];
        [exact Hout|]. apply Forall_app. split; [exact Hbuf | now constructor].
    + destruct (matches re_badge line'); [exact Hst|].
      apply table_or_text_keeps; [|exact Hst].
      now apply clamp_heading_keeps, inline_markup_keeps.
Qed.

Lemma step_keeps (i : nat) (line : str) (st : State) :
  Forall P line -> lines_in P st -> lines_in P (step i line st).
Proof.
  intros Hline Hst. unfold step.
  destruct ((i =? 0) && str_eqb (strip line) yaml_delimiter); [exact Hst|].
  destruct (skip_yaml st).
  { destruct (str_eqb (strip line) yaml_delimiter); exact Hst. }
  destruct (matches re_toc_start line); [exact Hst|].
  destruct (skip_toc st && matches re_toc_end line).
  - cbn [set_skip_toc skip_toc]. now apply (@handle_line_keeps line (set_skip_toc false st)).
  - destruct (skip_toc st); [exact Hst | now apply handle_line_keeps].
Qed.

Lemma run_keeps (i : nat) (lines : list str) (st : State) :
  Forall (Forall P) lines -> lines_in P st -> lines_in P (run i lines st).
Proof.
  intros Hlines. revert i st.
  induction Hlines as [|line lines Hline _ IH]; intros i st Hst; [exact Hst|].
  cbn [run]. now apply IH, step_keeps.
Qed.

End Keeps.
Lemma table_or_text_length (line : str) (st : State) :
  length (output (table_or_text line st)) <= S (length (output st))
  /\ code_buffer (table_or_text line st) = code_buffer st.
Proof.
  unfold table_or_text.
  assert (Hemit : forall l,
            length (output (emit l st)) <= S (length (output st))
            /\ code_buffer (emit l st) = code_buffer st).
  { intros l. cbn [emit output code_buffer]. rewrite length_app. cbn [length].
    split; [lia | reflexivity]. }
  destruct (contains (u "|") line && negb (in_code_block st)
            && negb (contains (u "`") line)); [|apply Hemit].
  destruct (matches re_table_separator line); [split; [lia | reflexivity]|].
  destruct (matches re_table_row line); [|apply Hemit].
  destruct (table_cells line); [split; [lia | reflexivity] | apply Hemit].
Qed.

Lemma handle_line_length (line : str) (st : State) :
  length (output (handle_line line st)) + length (code_buffer (handle_line line st))
  <= S (length (output st) + length (code_buffer st)).
Proof.
  unfold handle_line.
  destruct (html_comments line) as [line'|]; [|lia].
  destruct (startswith fence (strip line')).
  - unfold toggle_fence.
    destruct (in_code_block st); cbn [negb output code_buffer];
      rewrite ?length_app; cbn [length]; lia.
  - destruct (in_code_block st).
    + cbn [buffer_code output code_buffer]. rewrite length_app. cbn [length]. lia.
    + destruct (matches re_badge line'); [lia|].
      destruct (table_or_text_length (clamp_heading (inline_markup line')) st)
        as [Hout ->]. lia.
Qed.

Lemma step_length (i : nat) (line : str) (st : State) :
  length (output (step i line st)) + length (code_buffer (step i line st))
  <= S (length (output st) + length (code_buffer st)).
Proof.
  unfold step.
  destruct ((i =? 0) && str_eqb (strip line) yaml_delimiter);
    [cbn [set_skip_yaml output code_buffer]; lia|].
  destruct (skip_yaml st).
  { destruct (str_eqb (strip line) yaml_delimiter);
      cbn [set_skip_yaml output code_buffer]; lia. }
  destruct (matches re_toc_start line); [cbn [set_skip_toc output code_buffer]; lia|].
  destruct (skip_toc st && matches re_toc_end line).
  - cbn [set_skip_toc skip_toc].
    apply (@handle_line_length line (set_skip_toc false st)).
  - destruct (skip_toc st); [lia | apply handle_line_length].
Qed.

Lemma run_length (i : nat) (lines : list str) (st : State) :
  length (output (run i lines st)) + length (code_buffer (run i lines st))
  <= length lines + (length (output st) + length (code_buffer st)).
Proof.
  revert i st. induction lines as [|line lines IH]; intros i st; cbn [run length]; [lia|].
  specialize (IH (S i) (step i line st)).
  pose proof (step_length i line st). lia.
Qed.

Lemma collapse_blank_lines_length (n : nat) (output : list str) :
  length (collapse_blank_lines n output) <= length output.
Proof.
  revert n. induction output as [|line output IH]; intros n; cbn [collapse_blank_lines];
    [lia|].
  pose proof (IH (S n)). pose proof (IH 0).
  destruct (blank line); [destruct (S n <=? 2)|]; cbn [length]; lia.
Qed.

Lemma strip_by_length {A} (p : A -> bool) (s : list A) :
  length (strip_by p s) <= length s.
Proof.
  unfold strip_by, rstrip_by. rewrite length_rev.
  pose proof (lstrip_by_length p (rev (lstrip_by p s))) as H.
  rewrite length_rev in H. pose proof (lstrip_by_length p s). lia.
Qed.

(** The result is a prefix of the lines put out, once their blank runs
    are cut and the blank lines at both ends removed. *)
Lemma finish_prefix (output : list str) :
  exists final_result cut,
    finish output = Ok (join [NL] final_result)
    /\ strip_by blank (collapse_blank_lines 0 output) = final_result ++ cut.
Proof.
  rewrite finish_trimmed. cbv zeta.
  set (result := strip_by blank (collapse_blank_lines 0 output)).
  destruct (cut_footer_prefix result (footer_window result))
    as (final_result & cut & -> & Hcut).
  now exists final_result, cut.
Qed.

Lemma rewrite_lines_shape (lines : list str) :
  exists final_result,
    rewrite_lines lines = Ok (join [NL] final_result)
    /\ length final_result <= length lines
    /\ forall P : char -> Prop,
         (forall c, In c own_text -> P c) ->
         Forall (Forall P) lines -> Forall (Forall P) final_result.
Proof.
  unfold rewrite_lines.
  destruct (finish_prefix (output (run 0 lines initial)))
    as (final_result & cut & -> & Hcut).
  exists final_result. split; [reflexivity|]. split.
  - pose proof (strip_by_length blank
                  (collapse_blank_lines 0 (output (run 0 lines initial)))) as H1.
    pose proof (collapse_blank_lines_length 0 (output (run 0 lines initial))) as H2.
    pose proof (run_length 0 lines initial) as H3.
    rewrite Hcut, length_app in H1. cbn [initial output code_buffer length] in H3. lia.
  - intros P own Hlines.
    assert (Hrun : lines_in P (run 0 lines initial)).
    { apply run_keeps; [exact own | exact Hlines | split; constructor]. }
    destruct Hrun as [Hout _].
    apply Forall_forall. intros l Hl.
    assert (Hl' : In l (final_result ++ cut)) by (apply in_or_app; now left).
    rewrite <- Hcut in Hl'.
    apply strip_by_incl, collapse_blank_lines_incl in Hl'.
    revert l Hl Hl'. intros l _. revert l. now apply Forall_forall.
Qed.

Lemma split_length (c : char) (s : str) : 1 <= length (split c s).
Proof.
  induction s as [|x s IH]; cbn [split length]; [lia|].
  destruct (char_eqb x c); [cbn [length]; lia|].
  destruct (split c s); cbn [length] in *; lia.
Qed.

Lemma split_two (c : char) (s : str) : 2 <= length (split c s) -> In c s.
Proof.
  intros H. destruct (in_dec N.eq_dec c s) as [Hin|Hout]; [exact Hin|].
  rewrite split_none in H by exact Hout. cbn [length] in H. lia.
Qed.

Lemma join_in (sep : str) (parts : list str) (c : char) :
  In c (join sep parts) ->
  (exists p, In p parts /\ In c p) \/ (In c sep /\ 2 <= length parts).
Proof.
  induction parts as [|p parts IH]; cbn [join]; [intros []|].
  destruct parts as [|q parts].
  - intros H. left. exists p. split; [now left | exact H].
  - intros H. apply in_app_or in H as [H|H]; [left; exists p; split; [now left | exact H]|].
    apply in_app_or in H as [H|H]; [right; split; [exact H | cbn [length]; lia]|].
    apply IH in H as [(p' & Hp' & Hc)|[Hc _]].
    + left. exists p'. split; [now right | exact Hc].
    + right. split; [exact Hc | cbn [length]; lia].
Qed.

(** The output has no more lines than the input. *)
Theorem rewriting_adds_no_line (content : str) :
  exists out,
    process_markdown_content content = Ok out
    /\ length (split NL out) <= length (split NL content).
Proof.
  unfold process_markdown_content.
  destruct (rewrite_lines_shape (split NL content)) as (final & -> & Hlen & Hkeep).
  eexists. split; [reflexivity|].
  destruct final as [|l final]; [apply split_length|].
  rewrite split_join; [exact Hlen | discriminate|].
  assert (H : Forall (Forall (fun c => c <> NL)) (l :: final)).
  { apply Hkeep.
    - intros c Hc ->. vm_compute in Hc.
      repeat (destruct Hc as [Hc|Hc]; [discriminate|]). exact Hc.
    - apply Forall_forall. intros line Hline. apply Forall_forall.
      intros c Hc ->. now apply (split_no_sep _ _ _ Hline). }
  intros line Hline Hin.
  apply (proj1 (Forall_forall _ _) H) in Hline.
  now apply (proj1 (Forall_forall _ _) Hline) in Hin.
Qed.

(** Every character of the output is one of the input or one of those
    the rewriting writes by itself. *)
Theorem rewriting_writes_own_text_only (content : str) :
  exists out,
    process_markdown_content content = Ok out
    /\ forall c, In c out -> In c content \/ In c own_text.
Proof.
  unfold process_markdown_content.
  destruct (rewrite_lines_shape (split NL content)) as (final & -> & Hlen & Hkeep).
  eexists. split; [reflexivity|].
  intros c Hc. apply join_in in Hc as [(l & Hl & Hc)|[Hc Htwo]].
  - assert (H : Forall (Forall (fun c => In c content \/ In c own_text)) final).
    { apply Hkeep; [now right|].
      apply Forall_forall. intros line Hline. apply Forall_forall.
      intros x Hx. left. exact (split_incl _ _ _ _ Hline Hx). }
    apply (proj1 (Forall_forall _ _) H) in Hl.
    now apply (proj1 (Forall_forall _ _) Hl) in Hc.
  - destruct Hc as [<-|[]]. left. apply split_two. lia.
Qed.

(** ** Blank lines of the result *)

Lemma runs_ok_no_three (n : nat) (before after : list str) (x y z : str) :
  runs_ok n (before ++ x :: y :: z :: after) = true ->
  blank x = true -> blank y = true -> blank z = false.
Proof.
  revert n. induction before as [|l before IH]; intros n H Hx Hy.
  - cbn [app runs_ok] in H. rewrite Hx, Hy in H.
    destruct (blank z); [|reflexivity].
    apply andb_true_iff in H as [_ H]. apply andb_true_iff in H as [_ H].
    apply andb_true_iff in H as [H _]. discriminate H.
  - cbn [app runs_ok] in H. destruct (blank l).
    + apply andb_true_iff in H as [_ H]. now apply (IH (S n)).
    + now apply (IH 0).
Qed.

(** The lines of the result, as the pass after the loop leaves them:
    they are the lines that [split] finds in the result. *)
Lemma rewrite_lines_final (content : str) :
  exists final_result cut,
    process_markdown_content content = Ok (join [NL] final_result)
    /\ strip_by blank
         (collapse_blank_lines 0 (output (run 0 (split NL content) initial)))
       = final_result ++ cut
    /\ (final_result = [] \/ split NL (join [NL] final_result) = final_result).
Proof.
  unfold process_markdown_content, rewrite_lines.
  destruct (finish_prefix (output (run 0 (split NL content) initial)))
    as (final_result & cut & -> & Hcut).
  exists final_result, cut. split; [reflexivity|]. split; [exact Hcut|].
  destruct final_result as [|l final]; [now left | right].
  apply split_join; [discriminate|].
  assert (Hrun : lines_in (fun c => c <> NL) (run 0 (split NL content) initial)).
  { apply run_keeps.
    - intros c Hc ->. vm_compute in Hc.
      repeat (destruct Hc as [Hc|Hc]; [discriminate|]). exact Hc.
    - apply Forall_forall. intros line Hline. apply Forall_forall.
      intros c Hc ->. now apply (split_no_sep _ _ _ Hline).
    - split; constructor. }
  destruct Hrun as [Hout _].
  intros line Hline Hin.
  assert (Hl : In line ((l :: final) ++ cut)) by (apply in_or_app; now left).
  rewrite <- Hcut in Hl.
  apply strip_by_incl, collapse_blank_lines_incl in Hl.
  apply (proj1 (Forall_forall _ _) Hout) in Hl.
  now apply (proj1 (Forall_forall _ _) Hl) in Hin.
Qed.

(** The result holds no run of three blank lines, and unless it is empty
    its first line is not blank (lines 129-142). *)
Theorem blank_lines_are_bounded (content : str) :
  exists out,
    process_markdown_content content = Ok out
    /\ (forall (before : list str) (x y z : str) (after : list str),
          split NL out = before ++ x :: y :: z :: after ->
          blank x = true -> blank y = true -> blank z = false)
    /\ (out = []
        \/ exists first others,
             split NL out = first :: others /\ blank first = false).
Proof.
  destruct (rewrite_lines_final content) as (final & cut & -> & Hcut & Hsplit).
  eexists. split; [reflexivity|].
  set (result := strip_by blank
         (collapse_blank_lines 0 (output (run 0 (split NL content) initial)))) in *.
  assert (Hruns : runs_ok 0 result = true)
    by apply runs_ok_strip, collapse_runs_ok.
  assert (Hlead : lstrip_by blank result = result).
  { unfold result, strip_by. apply lstrip_by_rstrip_by, lstrip_by_idem. }
  rewrite Hcut in Hruns, Hlead.
  apply runs_ok_prefix in Hruns. apply lstrip_by_fixed_prefix in Hlead.
  destruct Hsplit as [->|Hsplit].
  - split; [|now left].
    intros before x y z after H. exfalso.
    apply (f_equal (@length str)) in H. rewrite length_app in H.
    cbn [join split length] in H. lia.
  - rewrite Hsplit. split.
    + intros before x y z after E. rewrite E in Hruns.
      now apply runs_ok_no_three with (n := 0) (before := before) (after := after).
    + destruct final as [|first others]; [now left | right].
      exists first, others. split; [reflexivity|].
      cbn [lstrip_by] in Hlead. destruct (blank first) eqn:E; [|reflexivity].
      exfalso. pose proof (lstrip_by_length blank others) as Hlen.
      rewrite Hlead in Hlen. cbn [length] in Hlen. lia.
Qed.

(** ** Front matter that is closed *)

(** The loop looks at the index of a line only to tell the first line. *)
Lemma run_index (i j : nat) (lines : list str) (st : State) :
  run (S i) lines st = run (S j) lines st.
Proof.
  revert i j st. induction lines as [|line lines IH]; intros i j st; [reflexivity|].
  cbn [run]. rewrite (IH (S i) (S j)). reflexivity.
Qed.

Lemma run_from_text (i : nat) (lines : list str) (st : State) :
  str_eqb (strip (hd [] lines)) yaml_delimiter = false ->
  run 0 lines st = run (S i) lines st.
Proof.
  destruct lines as [|line lines]; [reflexivity|]. cbn [hd run]. intros Hline.
  rewrite (run_index 0 (S i)). f_equal. unfold step. now rewrite Hline, andb_false_r.
Qed.

Lemma run_front_matter
    (opening closing : str) (block rest : list str) (st : State) :
  skip_yaml st = false ->
  str_eqb (strip opening) yaml_delimiter = true ->
  Forall (fun l => str_eqb (strip l) yaml_delimiter = false) block ->
  str_eqb (strip closing) yaml_delimiter = true ->
  run 0 (opening :: block ++ closing :: rest) st = run (2 + length block) rest st.
Proof.
  intros Hst Hopening Hblock Hclosing. cbn [run].
  assert (E : step 0 opening st = set_skip_yaml true st).
  { unfold step. now rewrite Hopening. }
  rewrite E, run_app.
  rewrite (@run_skip_yaml 1 block (set_skip_yaml true st)) by (reflexivity || assumption).
  cbn [run]. f_equal. unfold step.
  replace (1 + length block =? 0) with false by reflexivity.
  cbn [andb set_skip_yaml skip_yaml]. rewrite Hclosing.
  destruct st; cbn [skip_yaml] in Hst; subst; reflexivity.
Qed.

(** A block of front matter that opens on the first line and is closed is
    left out, and what follows it is rewritten as a document of its own,
    unless that begins with three hyphens (it would be front matter there,
    and is text here). *)
Theorem closed_front_matter_is_skipped
    (content opening closing : str) (block rest : list str) :
  split NL content = opening :: block ++ closing :: rest ->
  str_eqb (strip opening) yaml_delimiter = true ->
  Forall (fun l => str_eqb (strip l) yaml_delimiter = false) block ->
  str_eqb (strip closing) yaml_delimiter = true ->
  str_eqb (strip (hd [] rest)) yaml_delimiter = false ->
  process_markdown_content content = process_markdown_content (join [NL] rest).
Proof.
  intros Hsplit Hopening Hblock Hclosing Hrest.
  unfold process_markdown_content. rewrite Hsplit.
  assert (E : rewrite_lines (opening :: block ++ closing :: rest) = rewrite_lines rest).
  { unfold rewrite_lines.
    rewrite run_front_matter by (reflexivity || assumption).
    now rewrite <- (run_from_text (1 + length block)). }
  rewrite E. destruct rest as [|line rest]; [reflexivity|].
  rewrite split_join; [reflexivity | discriminate|].
  intros l Hl. apply (@split_no_sep NL content).
  rewrite Hsplit. right. apply in_or_app. right. now right.
Qed.

(** ** Where a footer is looked for *)

Lemma footer_window_eq (result : list str) :
  footer_window result
  = seq (length result - 15) (length result - (length result - 15)).
Proof. reflexivity. Qed.

Lemma getitem_nth {A} (l : list A) (i : nat) (x : A) :
  nth_error l i = Some x -> getitem l i = Ok x.
Proof. unfold getitem. now intros ->. Qed.

Lemma cut_footer_seq_none (result : list str) (n : nat) :
  forall lo,
    (forall i line, lo <= i < lo + n -> nth_error result i = Some line ->
                    re_search re_footer line = false) ->
    cut_footer result (seq lo n) = Ok result.
Proof.
  induction n as [|n IH]; intros lo Hnone; [reflexivity|].
  cbn [seq cut_footer].
  assert (Hnext : cut_footer result (seq (S lo) n) = Ok result).
  { apply IH. intros i line Hi. apply Hnone. lia. }
  destruct (lo <? length result) eqn:Hlo; [|exact Hnext].
  apply Nat.ltb_lt in Hlo.
  destruct (nth_error result lo) as [line|] eqn:E;
    [|apply nth_error_None in E; lia].
  rewrite (getitem_nth _ _ E). cbn [bind].
  rewrite (Hnone lo line) by (lia || assumption). exact Hnext.
Qed.

(** Lines 154-157: the lines before the footer, less a rule that ends them. *)
Lemma cut_here (kept : list str) :
  (if negb (length kept =? 0) then
     do last <- getlast kept ;;
     if str_eqb (strip last) yaml_delimiter then pop_last kept else Ok kept
   else Ok kept)
  = Ok (if str_eqb (strip (last kept [])) yaml_delimiter
        then removelast kept else kept).
Proof.
  destruct (snoc_cases kept) as [->|(l & x & ->)]; [reflexivity|].
  rewrite length_app. cbn [length].
  replace (length l + 1 =? 0) with false by (symmetry; apply Nat.eqb_neq; lia).
  cbn [negb]. rewrite getlast_snoc, last_last, removelast_last. cbn [bind].
  destruct (str_eqb (strip x) yaml_delimiter); [apply pop_last_snoc | reflexivity].
Qed.

Lemma cut_footer_seq_first (result : list str) (i : nat) (line : str) (n : nat) :
  nth_error result i = Some line ->
  re_search re_footer line = true ->
  forall lo,
    lo <= i < lo + n ->
    (forall j l, lo <= j < i -> nth_error result j = Some l ->
                 re_search re_footer l = false) ->
    cut_footer result (seq lo n)
    = Ok (if str_eqb (strip (last (firstn i result) [])) yaml_delimiter
          then removelast (firstn i result) else firstn i result).
Proof.
  intros Hline Hfooter.
  assert (Hi : i < length result) by (apply nth_error_Some; congruence).
  induction n as [|n IH]; intros lo Hlo Hbefore; [lia|].
  cbn [seq cut_footer].
  replace (lo <? length result) with true by (symmetry; apply Nat.ltb_lt; lia).
  destruct (Nat.eq_dec lo i) as [->|Hne].
  - rewrite (getitem_nth _ _ Hline). cbn [bind]. rewrite Hfooter. apply cut_here.
  - destruct (nth_error result lo) as [l|] eqn:E;
      [|apply nth_error_None in E; lia].
    rewrite (getitem_nth _ _ E). cbn [bind].
    rewrite (Hbefore lo l) by (lia || assumption).
    apply IH; [lia|]. intros j l' Hj. apply Hbefore. lia.
Qed.

(** A footer is looked for in the last fifteen lines only: when none of
    them reads as one, nothing is cut, whatever the lines before. *)
Theorem footer_is_sought_in_the_last_fifteen_lines (result : list str) :
  (forall i line, length result - 15 <= i -> nth_error result i = Some line ->
                  re_search re_footer line = false) ->
  cut_footer result (footer_window result) = Ok result.
Proof.
  intros Hnone. rewrite footer_window_eq. apply cut_footer_seq_none.
  intros i line Hi. apply Hnone. lia.
Qed.

(** The cut is made at the first of the last fifteen lines that reads as
    a footer: the lines before it are kept, less the last of them when it
    is three hyphens. *)
Theorem footer_is_cut_at_the_first_match (result : list str) (i : nat) (line : str) :
  length result - 15 <= i ->
  nth_error result i = Some line ->
  re_search re_footer line = true ->
  (forall j l, length result - 15 <= j < i -> nth_error result j = Some l ->
               re_search re_footer l = false) ->
  cut_footer result (footer_window result)
  = Ok (if str_eqb (strip (last (firstn i result) [])) yaml_delimiter
        then removelast (firstn i result) else firstn i result).
Proof.
  intros Hi Hline Hfooter Hbefore. rewrite footer_window_eq.
  assert (Hlen : i < length result) by (apply nth_error_Some; congruence).
  apply (@cut_footer_seq_first result i line _ Hline Hfooter); [lia | exact Hbefore].
Qed.

(** ** Documents without fenced code *)

Unset Implicit Arguments.

Section Outside.

(** Lines 85-108: what the inline rules and the heading rule make of a line. *)
Abbreviation markup line := (clamp_heading (inline_markup line)).

(** [Q] holds of what a line that is [ok] is rewritten to, as text and as
    a table row. *)
Variable ok : str -> Prop.
Variable Q : str -> Prop.
Hypothesis text : forall line line',
  ok line -> html_comments line = Some line' -> Q (squeeze (markup line')).
Hypothesis row : forall line line',
  ok line -> html_comments line = Some line' ->
  contains (u "|") (markup line') = true ->
  Q (bullet_line (table_cells (markup line'))).

Lemma table_or_text_outside (line line' : str) (st : State) :
  ok line -> html_comments line = Some line' ->
  Forall Q (output st) -> Forall Q (output (table_or_text (markup line') st)).
Proof.
  intros Hok Hline Hst. unfold table_or_text.
  assert (Htext : Forall Q (output (emit (re_sub re_blanks [Text (u " ")]
                                            (markup line')) st))).
  { cbn [emit output]. apply Forall_app. split; [exact Hst|].
    rewrite re_sub_blanks. apply Forall_cons; [|apply Forall_nil].
    exact (text _ _ Hok Hline). }
  destruct (contains (u "|") (markup line') && negb (in_code_block st)
            && negb (contains (u "`") (markup line'))) eqn:Hrule; [|exact Htext].
  apply andb_true_iff in Hrule as [Hrule _].
  apply andb_true_iff in Hrule as [Hbar _].
  destruct (matches re_table_separator (markup line')); [exact Hst|].
  destruct (matches re_table_row (markup line')); [|exact Htext].
  pose proof (row _ _ Hok Hline Hbar) as Hrow.
  destruct (table_cells (markup line')) as [|cell cells]; [exact Hst|].
  cbn [emit output]. apply Forall_app. split; [exact Hst|].
  apply Forall_cons; [exact Hrow | apply Forall_nil].
Qed.

Lemma handle_line_outside (line : str) (st : State) :
  ok line -> fence_line line = false -> in_code_block st = false ->
  Forall Q (output st) ->
  in_code_block (handle_line line st) = false
  /\ Forall Q (output (handle_line line st)).
Proof.
  intros Hok Hfence Hcode Hst. unfold handle_line. unfold fence_line in Hfence.
  destruct (html_comments line) as [line'|] eqn:Hline; [|split; assumption].
  rewrite Hfence, Hcode.
  destruct (matches re_badge line'); [split; assumption|].
  split; [rewrite table_or_text_in_code; exact Hcode|].
  exact (table_or_text_outside _ _ st Hok Hline Hst).
Qed.

Lemma step_outside (i : nat) (line : str) (st : State) :
  ok line -> fence_line line = false -> in_code_block st = false ->
  Forall Q (output st) ->
  in_code_block (step i line st) = false /\ Forall Q (output (step i line st)).
Proof.
  intros Hok Hfence Hcode Hst. unfold step.
  destruct ((i =? 0) && str_eqb (strip line) yaml_delimiter); [split; assumption|].
  destruct (skip_yaml st).
  { destruct (str_eqb (strip line) yaml_delimiter); split; assumption. }
  destruct (matches re_toc_start line); [split; assumption|].
  destruct (skip_toc st && matches re_toc_end line).
  - cbn [set_skip_toc skip_toc].
    exact (handle_line_outside line (set_skip_toc false st) Hok Hfence Hcode Hst).
  - destruct (skip_toc st); [split; assumption|].
    exact (handle_line_outside _ _ Hok Hfence Hcode Hst).
Qed.

Lemma run_outside (i : nat) (lines : list str) (st : State) :
  Forall (fun line => fence_line line = false /\ ok line) lines ->
  in_code_block st = false -> Forall Q (output st) ->
  Forall Q (output (run i lines st)).
Proof.
  intros Hlines. revert i st.
  induction Hlines as [|line lines [Hfence Hok] _ IH]; intros i st Hcode Hst;
    [exact Hst|].
  cbn [run]. destruct (step_outside i _ _ Hok Hfence Hcode Hst) as [Hcode' Hst'].
  exact (IH _ _ Hcode' Hst').
Qed.

Lemma rewrite_lines_outside (lines : list str) :
  Forall (fun line => fence_line line = false /\ ok line) lines ->
  exists final_result,
    rewrite_lines lines = Ok (join [NL] final_result) /\ Forall Q final_result.
Proof.
  intros Hlines. unfold rewrite_lines.
  destruct (finish_prefix (output (run 0 lines initial)))
    as (final_result & cut & -> & Hcut).
  exists final_result. split; [reflexivity|].
  pose proof (run_outside 0 lines initial Hlines eq_refl (Forall_nil Q)) as Hout.
  apply Forall_forall. intros l Hl.
  assert (Hl' : In l (final_result ++ cut)) by (apply in_or_app; now left).
  rewrite <- Hcut in Hl'.
  apply strip_by_incl, collapse_blank_lines_incl in Hl'.
  revert l Hl Hl'. intros l _. revert l. now apply Forall_forall.
Qed.

(** The same of the lines that [split] finds in the result. *)
Lemma process_outside (content : str) :
  Forall (fun line => fence_line line = false /\ ok line) (split NL content) ->
  Q [] ->
  exists out,
    process_markdown_content content = Ok out /\ Forall Q (split NL out).
Proof.
  intros Hlines Hnone.
  destruct (rewrite_lines_final content) as (final & cut & -> & Hcut & Hsplit).
  eexists. split; [reflexivity|].
  destruct Hsplit as [-> | ->]; [cbn [join split]; now repeat constructor|].
  pose proof (run_outside 0 (split NL content) initial Hlines eq_refl
                (Forall_nil Q)) as Hout.
  apply Forall_forall. intros l Hl.
  assert (Hl' : In l (final ++ cut)) by (apply in_or_app; now left).
  rewrite <- Hcut in Hl'.
  apply strip_by_incl, collapse_blank_lines_incl in Hl'.
  revert l Hl Hl'. intros l _. revert l. now apply Forall_forall.
Qed.

End Outside.

Lemma own_text_no_symbol (c : char) : In c own_text -> symbol c = false.
Proof.
  intros H. vm_compute in H.
  repeat (destruct H as [<-|H]; [reflexivity|]). contradiction.
Qed.

Lemma inline_markup_no_symbol (line : str) :
  Forall (fun c => symbol c = false) (inline_markup line).
Proof.
  unfold inline_markup.
  do 6 (apply re_sub_keeps; [apply ref_keeps|]).
  unfold re_dingbats, re_misc_symbols, re_emoji, range.
  rewrite !re_sub_chr_delete.
  apply Forall_forall. intros c Hc.
  apply filter_In in Hc as [Hc H3]. apply filter_In in Hc as [Hc H2].
  apply filter_In in Hc as [_ H1].
  apply negb_true_iff in H1, H2, H3. unfold symbol. now rewrite H1, H2, H3.
Qed.

Lemma markup_no_symbol (line : str) :
  Forall (fun c => symbol c = false) (clamp_heading (inline_markup line)).
Proof.
  apply clamp_heading_keeps; [exact own_text_no_symbol | apply inline_markup_no_symbol].
Qed.

(** In a document without fenced code, none of the symbols of lines 91-93
    is left. *)
Theorem symbols_are_removed (content : str) :
  Forall (fun line => fence_line line = false) (split NL content) ->
  exists out,
    process_markdown_content content = Ok out
    /\ Forall (fun c => symbol c = false) out.
Proof.
  intros Hfree. unfold process_markdown_content.
  destruct (rewrite_lines_outside (fun _ => True)
              (Forall (fun c => symbol c = false))) with (lines := split NL content)
    as (final & -> & Hfinal).
  - intros line line' _ _. apply squeeze_keeps;
      [exact own_text_no_symbol | apply markup_no_symbol].
  - intros line line' _ _ _. apply bullet_line_keeps; [exact own_text_no_symbol|].
    apply table_cells_keeps, markup_no_symbol.
  - apply Forall_forall. intros line Hline.
    split; [|exact I]. revert line Hline. now apply Forall_forall.
  - eexists. split; [reflexivity|].
    apply join_keeps; [now repeat constructor | exact Hfinal].
Qed.

Set Implicit Arguments.

(** ** Blanks in documents without fenced code and without tables *)

Lemma squeeze_blank_is_space (c : char) (s : str) :
  In c (squeeze s) -> is_blank c = true -> c = 32%N.
Proof.
  induction s as [|x s IH]; [intros []|].
  rewrite squeeze_cons. destruct (is_blank x) eqn:Hx.
  - destruct s as [|y s]; [intros [<-|[]]; reflexivity|].
    destruct (is_blank y); [exact IH|].
    intros [<-|H]; [reflexivity | now apply IH].
  - intros [<-|H] Hc; [congruence | now apply IH].
Qed.

Lemma not_blank_not_space (x : char) : is_blank x = false -> char_eqb 32 x = false.
Proof.
  intros Hx. destruct (char_eqb 32 x) eqn:E; [|reflexivity].
  apply char_eqb_eq in E. subst. discriminate.
Qed.

Lemma squeeze_no_double_space (s : str) :
  contains [32; 32]%N (squeeze s) = false.
Proof.
  induction s as [|x s IH]; [reflexivity|].
  rewrite squeeze_cons. destruct (is_blank x) eqn:Hx.
  - destruct s as [|y s]; [reflexivity|].
    destruct (is_blank y) eqn:Hy; [exact IH|].
    rewrite squeeze_cons_keep in * by exact Hy.
    cbn [contains startswith] in *. rewrite (not_blank_not_space _ Hy) in *.
    cbn [andb orb] in *. rewrite andb_false_r. exact IH.
  - cbn [contains startswith]. rewrite (not_blank_not_space _ Hx). exact IH.
Qed.

Lemma own_text_no_bar (c : char) : In c own_text -> not_bar c.
Proof.
  intros H ->. vm_compute in H.
  repeat (destruct H as [H|H]; [discriminate|]). exact H.
Qed.

Unset Implicit Arguments.

(** In a document without fenced code and without vertical bars, no line
    of the result holds a tab or two spaces in a row. *)
Theorem blanks_are_collapsed (content : str) :
  Forall (fun line => fence_line line = false) (split NL content) ->
  ~ In 124%N content ->
  exists final_result,
    process_markdown_content content = Ok (join [NL] final_result)
    /\ Forall (fun line => ~ In 9%N line /\ contains (u "  ") line = false)
              final_result.
Proof.
  intros Hfree Hbar. unfold process_markdown_content.
  apply (rewrite_lines_outside (fun line => Forall not_bar line)).
  - intros line line' _ _. split; [|apply squeeze_no_double_space].
    intros H. apply squeeze_blank_is_space in H; [discriminate | reflexivity].
  - intros line line' Hline Hline' Hrow. exfalso.
    apply html_comments_keeps with (P := not_bar) in Hline'; [|exact Hline].
    apply (inline_markup_keeps own_text_no_bar) in Hline'.
    apply (clamp_heading_keeps own_text_no_bar) in Hline'.
    apply contains_single in Hrow.
    exact (proj1 (Forall_forall _ _) Hline' _ Hrow eq_refl).
  - apply Forall_forall. intros line Hline. split.
    + revert line Hline. now apply Forall_forall.
    + apply Forall_forall. intros c Hc ->. apply Hbar.
      exact (split_incl _ _ _ _ Hline Hc).
Qed.

Set Implicit Arguments.

(** ** Headings deeper than three levels *)

Lemma span_by_app {A} (p : A -> bool) (s : list A) :
  span_by p s ++ lstrip_by p s = s.
Proof.
  induction s as [|x s IH]; [reflexivity|]. cbn [span_by lstrip_by].
  destruct (p x); [cbn [app]; now rewrite IH | reflexivity].
Qed.

Lemma span_by_all {A} (p : A -> bool) (s : list A) :
  Forall (fun x => p x = true) (span_by p s).
Proof.
  induction s as [|x s IH]; [constructor|]. cbn [span_by].
  destruct (p x) eqn:Hx; [now constructor | constructor].
Qed.

Lemma firstn_span_by {A} (p : A -> bool) (s : list A) :
  firstn (length (span_by p s)) s = span_by p s.
Proof.
  induction s as [|x s IH]; [reflexivity|]. cbn [span_by].
  destruct (p x); [cbn [length firstn]; now rewrite IH | reflexivity].
Qed.

Lemma orelse_none_r {A} (x : option A) : orelse x None = x.
Proof. now destruct x. Qed.

(** A pattern that begins with a character of [q] fails where the subject
    does not. *)
Lemma go_first (q : char -> bool) (r : regex) :
  starts_with q r ->
  forall (A : Type) (k : cursor -> option A) (i : nat) (s : str) (cs : list (nat * str)),
    match s with x :: _ => q x = false | [] => True end ->
    go r (Cursor i s cs) k = None.
Proof.
  induction r as [|p|a IHa b IHb|a IHa b IHb|g a IHa|n a IHa| |];
    cbn [starts_with]; intros Hr A k i s cs Hs; try contradiction; cbn [go].
  - cbn [rest]. destruct s as [|x xs]; [reflexivity|].
    destruct (p x) eqn:Hp; [|reflexivity]. apply Hr in Hp. congruence.
  - now apply IHa.
  - destruct Hr as [Ha Hb]. rewrite IHa, IHb by assumption. reflexivity.
  - now apply IHa.
Qed.

(** A greedy repetition of a class takes the whole run when what follows
    cannot begin with a character of the class. *)
Lemma go_star_chr_greedy (p : char -> bool) (A : Type) (k : cursor -> option A) :
  (forall i x xs cs, p x = true -> k (Cursor i (x :: xs) cs) = None) ->
  forall (s : str) (i : nat) (cs : list (nat * str)),
    go (Star true (Chr p)) (Cursor i s cs) k
    = k (Cursor (i + length (span_by p s)) (lstrip_by p s) cs).
Proof.
  intros Hk. induction s as [|x s IH]; intros i cs.
  - rewrite go_star_chr_nil. cbn [span_by lstrip_by length]. now rewrite Nat.add_0_r.
  - rewrite go_star_chr_cons. cbn [span_by lstrip_by].
    destruct (p x) eqn:Hx.
    + rewrite IH, (Hk i x s cs Hx), orelse_none_r. cbn [length].
      now rewrite Nat.add_succ_r.
    + cbn [length]. now rewrite Nat.add_0_r.
Qed.

(** It takes the whole run too when what follows matches after it. *)
Lemma go_star_chr_longest (p : char -> bool) (A : Type) (k : cursor -> option A)
    (v : A) :
  forall (s : str) (i : nat) (cs : list (nat * str)),
    k (Cursor (i + length (span_by p s)) (lstrip_by p s) cs) = Some v ->
    go (Star true (Chr p)) (Cursor i s cs) k = Some v.
Proof.
  induction s as [|x s IH]; intros i cs.
  - rewrite go_star_chr_nil. cbn [span_by lstrip_by length]. now rewrite Nat.add_0_r.
  - rewrite go_star_chr_cons. cbn [span_by lstrip_by].
    destruct (p x) eqn:Hx.
    + cbn [length]. rewrite Nat.add_succ_r. intros H.
      now rewrite (IH (S i) cs H).
    + cbn [length]. now rewrite Nat.add_0_r.
Qed.

Lemma go_chr (p : char -> bool) (i : nat) (s : str) (cs : list (nat * str))
    (A : Type) (k : cursor -> option A) :
  go (Chr p) (Cursor i s cs) k =
    match s with
    | x :: xs => if p x then k (Cursor (S i) xs cs) else None
    | [] => None
    end.
Proof. reflexivity. Qed.

Lemma go_group (n : nat) (a : regex) (c : cursor) (A : Type) (k : cursor -> option A) :
  go (Group n a) c k =
    go a c (fun c' =>
      k (Cursor (pos c') (rest c')
           ((n, firstn (pos c' - pos c) (rest c)) :: caps c'))).
Proof. reflexivity. Qed.

Lemma go_times_chr (p : char -> bool) (n : nat) (A : Type) (k : cursor -> option A) :
  forall (s : str) (i : nat) (cs : list (nat * str)),
    go (Times n (Chr p)) (Cursor i s cs) k =
      if forallb p (firstn n s) && (n <=? length s)
      then k (Cursor (i + n) (skipn n s) cs) else None.
Proof.
  induction n as [|n IH]; intros s i cs.
  - cbn [Times go firstn forallb skipn andb Nat.leb]. now rewrite Nat.add_0_r.
  - cbn [Times]. rewrite go_seq, go_chr.
    destruct s as [|x xs]; [reflexivity|].
    cbn [firstn forallb skipn length]. destruct (p x); [|reflexivity].
    rewrite IH. cbn [andb Nat.leb]. now rewrite Nat.add_succ_r.
Qed.

Lemma re_heading_deep_eq :
  re_heading_deep =
    Seq Bol
      (Seq (Group 1 (Star true (Chr isspace)))
         (Seq (Seq (Times 4 (Chr (char_eqb 35))) (Star true (Chr (char_eqb 35))))
            (Group 2 (Seq (Chr isspace) (Star true (Chr isspace)))))).
Proof. reflexivity. Qed.

Lemma space_not_hash (x : char) : isspace x = true -> char_eqb 35 x = false.
Proof.
  intros Hx. destruct (char_eqb 35 x) eqn:E; [|reflexivity].
  apply char_eqb_eq in E. subst. discriminate.
Qed.

Lemma hash_not_space (x : char) : char_eqb 35 x = true -> isspace x = false.
Proof. intros E. apply char_eqb_eq in E. now subst. Qed.

Lemma go_bol (c : cursor) (A : Type) (k : cursor -> option A) :
  go Bol c k = if pos c =? 0 then k c else None.
Proof. reflexivity. Qed.

Lemma heading_deep_eval (line : str) :
  go re_heading_deep (Cursor 0 line []) Some = deep_heading line.
Proof.
  rewrite re_heading_deep_eq, go_seq, go_bol. cbn [pos Nat.eqb].
  rewrite go_seq, go_group.
  rewrite go_star_chr_greedy.
  2:{ intros i x xs cs Hx. cbn [pos rest caps].
      rewrite !go_seq, go_times_chr. cbn [firstn forallb].
      now rewrite (space_not_hash _ Hx). }
  cbn [pos rest caps]. rewrite !go_seq, go_times_chr.
  unfold deep_heading. cbv zeta. fold (lstrip line).
  destruct (forallb (char_eqb 35) (firstn 4 (lstrip line)) && (4 <=? length (lstrip line)));
    [|reflexivity].
  rewrite go_star_chr_greedy.
  2:{ intros i x xs cs Hx. rewrite go_group, go_seq, go_chr.
      now rewrite (hash_not_space _ Hx). }
  rewrite go_group, go_seq, go_chr.
  destruct (lstrip_by (char_eqb 35) (skipn 4 (lstrip line))) as [|x xs]; [reflexivity|].
  destruct (isspace x); [|reflexivity].
  apply go_star_chr_longest. cbn [pos rest caps]. unfold lstrip.
  rewrite Nat.add_0_l, Nat.sub_0_r, firstn_span_by.
  set (n := length (span_by isspace line) + 4
            + length (span_by (char_eqb 35) (skipn 4 (lstrip_by isspace line)))).
  replace (S n + length (span_by isspace xs) - n)
    with (S (length (span_by isspace xs))) by lia.
  cbn [firstn]. now rewrite firstn_span_by.
Qed.

(** [re.match] with that pattern, and its substitution (line 108). *)
Lemma matches_heading_deep (line : str) :
  matches re_heading_deep line =
    match deep_heading line with Some _ => true | None => false end.
Proof. unfold matches, re_match, start. now rewrite heading_deep_eval. Qed.

Lemma go_anchored (r : regex) (i : nat) (s : str) (cs : list (nat * str))
    (A : Type) (k : cursor -> option A) :
  go (Seq Bol r) (Cursor (S i) s cs) k = None.
Proof. reflexivity. Qed.

Lemma sub_from_anchored (r : regex) (tpl : list piece) (fuel : nat) (i : nat)
    (s : str) (cs : list (nat * str)) :
  sub_from fuel (Seq Bol r) tpl (Cursor (S i) s cs) = s.
Proof.
  apply sub_from_no_match. intros n. cbn [Nat.add]. apply go_anchored.
Qed.

Lemma heading_deep_sub (line : str) :
  re_sub re_heading_deep tpl_heading_deep line =
    match deep_heading line with
    | Some c => group 1 (caps c) ++ u "###" ++ group 2 (caps c) ++ rest c
    | None => line
    end.
Proof.
  destruct (deep_heading line) as [c|] eqn:E.
  - unfold re_sub, start. cbn [sub_from pos rest]. rewrite heading_deep_eval, E.
    assert (Hpos : exists j, pos c = S j).
    { unfold deep_heading in E. cbv zeta in E.
      destruct (forallb _ _ && _); [|discriminate].
      destruct (lstrip_by (char_eqb 35) _) as [|x xs]; [discriminate|].
      destruct (isspace x); [|discriminate]. injection E as <-.
      cbn [pos Nat.add]. eauto. }
    destruct Hpos as [j Hj]. rewrite Hj. cbn [Nat.ltb Nat.leb].
    destruct c as [p r cs]. cbn [pos] in Hj. subst p.
    rewrite re_heading_deep_eq, sub_from_anchored.
    unfold tpl_heading_deep, expand. cbn [flat_map caps rest].
    now rewrite app_nil_r, <- !app_assoc.
  - apply heading_deep_fixed. now rewrite matches_heading_deep, E.
Qed.

Lemma lstrip_by_run {A} (p : A -> bool) (a b : list A) :
  Forall (fun x => p x = true) a -> lstrip_by p (a ++ b) = lstrip_by p b.
Proof.
  induction 1 as [|x a Hx _ IH]; [reflexivity|].
  cbn [app lstrip_by]. now rewrite Hx.
Qed.

Lemma four_hashes (s : str) :
  forallb (char_eqb 35) (firstn 4 s) && (4 <=? length s) = true
  <-> exists t, s = 35%N :: 35%N :: 35%N :: 35%N :: t.
Proof.
  split.
  - intros H. apply andb_true_iff in H as [Hall Hlen].
    destruct s as [|a [|b [|c [|d t]]]]; try discriminate.
    cbn [firstn forallb] in Hall.
    repeat (apply andb_true_iff in Hall as [?%char_eqb_eq Hall]).
    subst. now exists t.
  - intros [t ->]. reflexivity.
Qed.

(** What the heading rule leaves is no heading of four levels or more. *)
Lemma deep_heading_clamped (indent : str) (x : char) (t : str) :
  Forall (fun c => isspace c = true) indent -> isspace x = true ->
  deep_heading (indent ++ u "###" ++ x :: t) = None.
Proof.
  intros Hindent Hx. unfold deep_heading. cbv zeta. unfold lstrip.
  rewrite (lstrip_by_run _ _ Hindent).
  change (u "###" ++ x :: t) with (35%N :: 35%N :: 35%N :: x :: t).
  cbn [lstrip_by]. change (isspace 35) with false. cbn [firstn forallb].
  rewrite (space_not_hash _ Hx). reflexivity.
Qed.

Lemma deep_heading_needs_hash (line : str) :
  startswith (u "#") (lstrip line) = false -> deep_heading line = None.
Proof.
  intros H. unfold deep_heading. cbv zeta.
  destruct (forallb (char_eqb 35) (firstn 4 (lstrip line))
            && (4 <=? length (lstrip line))) eqn:E; [|reflexivity].
  apply four_hashes in E as [t E]. rewrite E in H. discriminate.
Qed.

Lemma clamp_heading_not_deep (line : str) :
  deep_heading (clamp_heading line) = None.
Proof.
  unfold clamp_heading.
  destruct (startswith (u "#") (lstrip line)) eqn:Hhash;
    [|now apply deep_heading_needs_hash].
  rewrite heading_deep_sub.
  set (line1 := re_sub re_heading_tail [] line).
  destruct (deep_heading line1) as [c|] eqn:E; [|exact E].
  unfold deep_heading in E. cbv zeta in E.
  destruct (forallb _ _ && _); [|discriminate].
  destruct (lstrip_by (char_eqb 35) _) as [|x xs]; [discriminate|].
  destruct (isspace x) eqn:Hx; [|discriminate]. injection E as <-.
  cbn [caps rest group Nat.eqb app].
  apply deep_heading_clamped; [apply span_by_all | exact Hx].
Qed.

Lemma not_space_not_blank (x : char) : isspace x = false -> is_blank x = false.
Proof.
  intros Hx. destruct (is_blank x) eqn:E; [|reflexivity].
  apply is_blank_space in E. congruence.
Qed.

Lemma lstrip_squeeze (s : str) : lstrip (squeeze s) = squeeze (lstrip s).
Proof.
  unfold lstrip. induction s as [|x s IH]; [reflexivity|].
  cbn [lstrip_by]. destruct (isspace x) eqn:Hx.
  - rewrite squeeze_cons. destruct (is_blank x).
    + destruct s as [|y s]; [reflexivity|].
      destruct (is_blank y); [exact IH|].
      cbn [lstrip_by]. change (isspace 32) with true. exact IH.
    + cbn [lstrip_by]. rewrite Hx. exact IH.
  - rewrite !squeeze_cons_keep by now apply not_space_not_blank.
    cbn [lstrip_by]. now rewrite Hx.
Qed.

Lemma squeeze_hash (s : str) : squeeze (35%N :: s) = 35%N :: squeeze s.
Proof. now apply squeeze_cons_keep. Qed.

Lemma lstrip_hashes_squeeze (s : str) :
  lstrip_by (char_eqb 35) (squeeze s) = squeeze (lstrip_by (char_eqb 35) s).
Proof.
  induction s as [|x s IH]; [reflexivity|].
  cbn [lstrip_by]. destruct (char_eqb 35 x) eqn:Hx.
  - apply char_eqb_eq in Hx. subst x. rewrite squeeze_hash. cbn [lstrip_by].
    exact IH.
  - destruct (is_blank x) eqn:Hb.
    + destruct (@squeeze_head_blank x s Hb) as [t E]. rewrite E. cbn [lstrip_by]. reflexivity.
    + rewrite squeeze_cons_keep by exact Hb. cbn [lstrip_by]. now rewrite Hx.
Qed.

Lemma startswith_prefix (p s : str) :
  startswith p s = true -> exists t, s = p ++ t.
Proof.
  revert s. induction p as [|x p IH]; intros s H; [now exists s|].
  destruct s as [|y s]; [discriminate|]. cbn [startswith] in H.
  apply andb_true_iff in H as [Hx H]. apply char_eqb_eq in Hx. subst y.
  destruct (IH s H) as [t ->]. now exists t.
Qed.

Lemma deep_heading_squeeze (line : str) :
  deep_heading line = None -> deep_heading (squeeze line) = None.
Proof.
  unfold deep_heading. cbv zeta. rewrite lstrip_squeeze.
  set (line1 := lstrip line).
  destruct (forallb (char_eqb 35) (firstn 4 line1) && (4 <=? length line1)) eqn:E.
  - apply four_hashes in E as [t E]. rewrite E, !squeeze_hash.
    cbn [firstn forallb skipn length Nat.leb andb].
    change (char_eqb 35 35) with true. cbn [andb].
    rewrite lstrip_hashes_squeeze.
    destruct (lstrip_by (char_eqb 35) t) as [|x xs]; [reflexivity|].
    destruct (isspace x) eqn:Hx; [discriminate|]. intros _.
    rewrite squeeze_cons_keep by now apply not_space_not_blank.
    now rewrite Hx.
  - intros _.
    destruct (forallb (char_eqb 35) (firstn 4 (squeeze line1))
              && (4 <=? length (squeeze line1))) eqn:E'; [|reflexivity].
    apply four_hashes in E' as [t E'].
    assert (H : startswith [35; 35; 35; 35]%N line1 = true).
    { apply startswith_squeeze; [reflexivity|]. now rewrite E'. }
    apply startswith_prefix in H. apply four_hashes in H. congruence.
Qed.

Lemma deep_heading_bullet (cells : list str) :
  deep_heading (bullet_line cells) = None.
Proof.
  unfold bullet_line.
  change (u "• ") with [8226%N; 32%N]. cbn [app].
  apply deep_heading_needs_hash. reflexivity.
Qed.

Unset Implicit Arguments.

(** White space, four heading markers or more, white space: what line
    108 looks for. *)
Lemma deep_heading_shape (indent : str) (n : nat) (sp : char) (more : str) :
  forallb isspace indent = true -> 4 <= n -> isspace sp = true ->
  matches re_heading_deep (indent ++ repeat 35%N n ++ sp :: more) = true.
Proof.
  intros Hindent Hn Hsp. rewrite matches_heading_deep. unfold deep_heading.
  destruct n as [|[|[|[|n]]]]; try lia. clear Hn.
  assert (Hstrip : lstrip (indent ++ repeat 35%N (S (S (S (S n)))) ++ sp :: more)
                   = repeat 35%N (S (S (S (S n)))) ++ sp :: more).
  { unfold lstrip. clear Hsp. induction indent as [|x indent IH]; [reflexivity|].
    cbn [forallb] in Hindent. apply andb_true_iff in Hindent as [Hx Hindent].
    cbn [app lstrip_by]. rewrite Hx. now apply IH. }
  rewrite Hstrip. cbn [repeat app firstn forallb length Nat.leb skipn].
  change (char_eqb 35 35) with true. cbn [andb].
  assert (Hrest : lstrip_by (char_eqb 35) (repeat 35%N n ++ sp :: more) = sp :: more).
  { clear Hstrip. induction n as [|n IH].
    - cbn [repeat app lstrip_by].
      destruct (char_eqb 35 sp) eqn:E; [|reflexivity].
      apply char_eqb_eq in E. subst sp. discriminate Hsp.
    - cbn [repeat app lstrip_by]. change (char_eqb 35 35) with true. exact IH. }
  rewrite Hrest, Hsp. reflexivity.
Qed.

(** In a document without fenced code, no line of the result reads as a
    heading of four levels or more: none is white space, four heading
    markers or more and white space, whatever follows. *)
Theorem headings_are_clamped (content : str) :
  Forall (fun line => fence_line line = false) (split NL content) ->
  exists out,
    process_markdown_content content = Ok out
    /\ Forall (fun line => matches re_heading_deep line = false) (split NL out)
    /\ forall (indent : str) (n : nat) (sp : char) (more : str),
         forallb isspace indent = true -> 4 <= n -> isspace sp = true ->
         ~ In (indent ++ repeat 35%N n ++ sp :: more) (split NL out).
Proof.
  intros Hfree.
  destruct (process_outside (fun _ => True)
              (fun line => matches re_heading_deep line = false))
    with (content := content) as (out & Hout & Hlines).
  - intros line line' _ _. rewrite matches_heading_deep.
    now rewrite deep_heading_squeeze by apply clamp_heading_not_deep.
  - intros line line' _ _ _. rewrite matches_heading_deep.
    now rewrite deep_heading_bullet.
  - apply Forall_forall. intros line Hline.
    split; [|exact I]. revert line Hline. now apply Forall_forall.
  - reflexivity.
  - exists out. split; [exact Hout|]. split; [exact Hlines|].
    intros indent n sp more Hindent Hn Hsp Hin.
    apply (proj1 (Forall_forall _ _) Hlines) in Hin.
    rewrite (deep_heading_shape indent n sp more Hindent Hn Hsp) in Hin.
    discriminate Hin.
Qed.

Set Implicit Arguments.

(** ** Links, images and emphasis that are well formed *)

Unset Implicit Arguments.

(** The scan of [re.sub], step by step. *)
Lemma sub_from_caps (fuel : nat) (r : regex) (tpl : list piece) (i : nat) (s : str)
    (cs : list (nat * str)) :
  sub_from fuel r tpl (Cursor i s cs) = sub_from fuel r tpl (Cursor i s []).
Proof. destruct fuel; reflexivity. Qed.

Lemma sub_from_skip (r : regex) (tpl : list piece) (fuel i : nat) (x : char) (s : str)
    (cs : list (nat * str)) :
  go r (Cursor i (x :: s) []) Some = None ->
  sub_from (S fuel) r tpl (Cursor i (x :: s) cs)
  = x :: sub_from fuel r tpl (Cursor (S i) s []).
Proof. intros H. cbn [sub_from pos rest]. now rewrite H. Qed.

Lemma sub_from_skip_first (q : char -> bool) (r : regex) (tpl : list piece) (a : str) :
  starts_with q r -> Forall (fun x => q x = false) a ->
  forall (fuel i : nat) (s : str) (cs : list (nat * str)),
    sub_from (length a + fuel) r tpl (Cursor i (a ++ s) cs)
    = a ++ sub_from fuel r tpl (Cursor (i + length a) s []).
Proof.
  intros Hr. induction 1 as [|x a Hx _ IH]; intros fuel i s cs.
  - cbn [length app Nat.add]. rewrite Nat.add_0_r. apply sub_from_caps.
  - cbn [length app Nat.add].
    rewrite sub_from_skip by (apply (@go_first q r Hr); exact Hx).
    rewrite IH. now rewrite Nat.add_succ_r.
Qed.

Lemma sub_from_match (r : regex) (tpl : list piece) (fuel i : nat) (s : str)
    (cs : list (nat * str)) (c' : cursor) :
  go r (Cursor i s []) Some = Some c' -> i < pos c' ->
  sub_from (S fuel) r tpl (Cursor i s cs)
  = expand tpl (caps c') ++ sub_from fuel r tpl c'.
Proof.
  intros H Hpos. cbn [sub_from pos rest]. rewrite H.
  now replace (i <? pos c') with true by (symmetry; now apply Nat.ltb_lt).
Qed.

Lemma sub_from_fails_on (P : char -> Prop) (r : regex) (tpl : list piece) (fuel : nat) :
  fails_on P r ->
  forall c : cursor, Forall P (rest c) -> sub_from fuel r tpl c = rest c.
Proof.
  intros Hr. induction fuel as [|fuel IH]; intros c Hc; [reflexivity|].
  cbn [sub_from]. rewrite Hr by exact Hc.
  destruct (rest c) as [|x s] eqn:E; [reflexivity|].
  rewrite IH; [reflexivity|]. cbn [rest]. now inversion Hc.
Qed.

Lemma fuel_split {A} (a b : list A) : S (length (a ++ b)) = length a + S (length b).
Proof. rewrite length_app. lia. Qed.

(** A run of a class that is followed by a character outside it. *)
Lemma span_by_stop {A} (p : A -> bool) (a : list A) (x : A) (b : list A) :
  Forall (fun y => p y = true) a -> p x = false ->
  span_by p (a ++ x :: b) = a /\ lstrip_by p (a ++ x :: b) = x :: b.
Proof.
  intros Ha Hx. induction Ha as [|y a Hy _ [IH1 IH2]]; cbn [app span_by lstrip_by].
  - now rewrite Hx.
  - rewrite Hy. now rewrite IH1, IH2.
Qed.

Lemma firstn_exact {A} (a b : list A) : firstn (length a) (a ++ b) = a.
Proof.
  rewrite firstn_app, Nat.sub_diag, firstn_all. cbn [firstn]. apply app_nil_r.
Qed.

Lemma none_of_one (m x : char) :
  negb (existsb (char_eqb x) [m]) = true <-> x <> m.
Proof.
  cbn [existsb]. rewrite orb_false_r, negb_true_iff. split.
  - intros H ->. unfold char_eqb in H. now rewrite N.eqb_refl in H.
  - intros H. destruct (char_eqb x m) eqn:E; [|reflexivity].
    now apply char_eqb_eq in E.
Qed.

Lemma none_of_all (m : char) (s : str) :
  ~ In m s -> Forall (fun x => negb (existsb (char_eqb x) [m]) = true) s.
Proof.
  intros H. apply Forall_forall. intros x Hx. apply none_of_one. now intros ->.
Qed.

(** One or more characters of a class, before a character outside it,
    when what follows cannot begin with a character of the class: alone,
    and as a group. *)
Lemma go_plus_chr_exact (p : char -> bool) (A : Type) (k : cursor -> option A)
    (i : nat) (x : char) (a : str) (y : char) (b : str) (cs : list (nat * str)) :
  p x = true -> Forall (fun z => p z = true) a -> p y = false ->
  (forall j z zs cs', p z = true -> k (Cursor j (z :: zs) cs') = None) ->
  go (Seq (Chr p) (Star true (Chr p))) (Cursor i (x :: a ++ y :: b) cs) k
  = k (Cursor (S i + length a) (y :: b) cs).
Proof.
  intros Hx Ha Hy Hk. rewrite go_seq, go_chr, Hx.
  rewrite (@go_star_chr_greedy p A k Hk).
  destruct (span_by_stop p a y b Ha Hy) as [-> ->]. reflexivity.
Qed.

Lemma go_plus_chr_group (p : char -> bool) (n : nat) (A : Type)
    (k : cursor -> option A)
    (i : nat) (x : char) (a : str) (y : char) (b : str) (cs : list (nat * str)) :
  p x = true -> Forall (fun z => p z = true) a -> p y = false ->
  (forall j z zs cs', p z = true -> k (Cursor j (z :: zs) cs') = None) ->
  go (Group n (Seq (Chr p) (Star true (Chr p)))) (Cursor i (x :: a ++ y :: b) cs) k
  = k (Cursor (S i + length a) (y :: b) ((n, x :: a) :: cs)).
Proof.
  intros Hx Ha Hy Hk. rewrite go_group, go_plus_chr_exact; try assumption.
  - cbn [pos rest caps].
    replace (S i + length a - i) with (S (length a)) by lia.
    cbn [firstn]. now rewrite firstn_exact.
  - intros j z zs cs' Hz. cbn [pos rest caps]. now apply Hk.
Qed.

Lemma re_link_eq :
  re_link =
    Seq (Chr (char_eqb 91))
      (Seq (Group 1 (Seq (Chr (fun c => negb (existsb (char_eqb c) [93%N])))
                         (Star true (Chr (fun c => negb (existsb (char_eqb c) [93%N]))))))
         (Seq (Seq (Chr (char_eqb 93)) (Chr (char_eqb 40)))
            (Seq (Seq (Chr (fun c => negb (existsb (char_eqb c) [41%N])))
                      (Star true (Chr (fun c => negb (existsb (char_eqb c) [41%N])))))
               (Chr (char_eqb 41))))).
Proof. reflexivity. Qed.

Lemma none_of_stop (m x : char) :
  negb (existsb (char_eqb x) [m]) = true -> char_eqb m x = false.
Proof.
  intros H. apply none_of_one in H. destruct (char_eqb m x) eqn:E; [|reflexivity].
  apply char_eqb_eq in E. congruence.
Qed.

Lemma link_match (i : nat) (text target after : str) :
  text <> [] -> target <> [] -> ~ In 93%N text -> ~ In 41%N target ->
  exists j, i < j /\
    go re_link (Cursor i (91%N :: text ++ 93%N :: 40%N :: target ++ 41%N :: after) [])
       Some
    = Some (Cursor j after [(1, text)]).
Proof.
  intros Htext Htarget Hclose Hparen.
  destruct text as [|t0 text]; [contradiction|].
  destruct target as [|g0 target]; [contradiction|].
  apply none_of_all in Hclose, Hparen.
  inversion Hclose as [|? ? Ht0 Ht]; subst.
  inversion Hparen as [|? ? Hg0 Hg]; subst.
  rewrite re_link_eq.
  rewrite go_seq, go_chr. change (char_eqb 91 91) with true. cbv iota.
  cbn [app]. rewrite go_seq, go_plus_chr_group; try assumption; try reflexivity.
  2:{ intros j z zs cs' Hz. rewrite !go_seq, go_chr.
      now rewrite (none_of_stop _ _ Hz). }
  rewrite go_seq, go_seq, go_chr. change (char_eqb 93 93) with true. cbv iota.
  rewrite go_chr. change (char_eqb 40 40) with true. cbv iota.
  rewrite go_seq, go_plus_chr_exact; try assumption; try reflexivity.
  2:{ intros j z zs cs' Hz. rewrite go_chr. now rewrite (none_of_stop _ _ Hz). }
  rewrite go_chr. change (char_eqb 41 41) with true. cbv iota.
  eexists. split; [|reflexivity]. lia.
Qed.

Lemma inline_markup_stages (line : str) :
  inline_markup line
  = emphasis_rules
      (symbol_rules (re_sub re_link [Ref 1] (re_sub re_image tpl_image line))).
Proof. unfold inline_markup, emphasis_rules, symbol_rules. reflexivity. Qed.

Lemma unmarked_unstyled (c : char) : unmarked c -> unstyled c.
Proof.
  unfold unmarked, unstyled, inline_char, symbol. intros H.
  apply orb_false_iff in H as [H H3]. apply orb_false_iff in H as [H H2].
  apply orb_false_iff in H as [H H1]. rewrite H1, H2, H3.
  split; [reflexivity|]. split; intros ->; discriminate.
Qed.

Lemma unmarked_no_bracket (c : char) : unmarked c -> c <> 91%N.
Proof. intros H ->. discriminate. Qed.

Lemma symbols_need_symbol :
  fails_on (fun c => symbol c = false) re_emoji
  /\ fails_on (fun c => symbol c = false) re_misc_symbols
  /\ fails_on (fun c => symbol c = false) re_dingbats.
Proof.
  repeat split; apply fails_on_chr; intros x Hx; unfold symbol in Hx;
    apply orb_false_iff in Hx as [Hx H3]; apply orb_false_iff in Hx as [H1 H2];
    assumption.
Qed.

Lemma symbol_rules_fixed (line : str) :
  Forall (fun c => symbol c = false) line -> symbol_rules line = line.
Proof.
  intros H. unfold symbol_rules.
  destruct symbols_need_symbol as (He & Hm & Hd).
  now rewrite (fails_on_sub _ He H), (fails_on_sub _ Hm H), (fails_on_sub _ Hd H).
Qed.

Lemma emphasis_needs_marker (m : char) (n : nat) :
  fails_on (fun c => c <> m) (re_emphasis m (S n)).
Proof.
  unfold re_emphasis. cbn [Cat Times].
  apply fails_on_seq_l, fails_on_seq_l. now apply fails_on_other.
Qed.

Lemma emphasis_rules_fixed (line : str) :
  Forall (fun c => c <> 42%N) line -> Forall (fun c => c <> 95%N) line ->
  emphasis_rules line = line.
Proof.
  intros Hstar Hunder. unfold emphasis_rules. cbv zeta.
  rewrite !(fails_on_sub _ (emphasis_needs_marker 42 _) Hstar).
  now rewrite !(fails_on_sub _ (emphasis_needs_marker 95 _) Hunder).
Qed.

Lemma styling_fixed (line : str) :
  Forall unstyled line -> emphasis_rules (symbol_rules line) = line.
Proof.
  intros H. rewrite symbol_rules_fixed.
  - apply emphasis_rules_fixed; (eapply Forall_impl; [|exact H]); cbv beta;
      unfold unstyled; tauto.
  - eapply Forall_impl; [|exact H]. cbv beta. unfold unstyled. tauto.
Qed.

Lemma re_image_eq :
  re_image =
    Seq (Seq (Chr (char_eqb 33)) (Chr (char_eqb 91)))
      (Seq (Group 1 (Star true (Chr (fun c => negb (existsb (char_eqb c) [93%N])))))
         (Seq (Seq (Chr (char_eqb 93)) (Chr (char_eqb 40)))
            (Seq (Seq (Chr (fun c => negb (existsb (char_eqb c) [41%N])))
                      (Star true (Chr (fun c => negb (existsb (char_eqb c) [41%N])))))
               (Chr (char_eqb 41))))).
Proof. reflexivity. Qed.

Lemma image_needs_bracket : fails_on (fun c => c <> 91%N) re_image.
Proof.
  rewrite re_image_eq. apply fails_on_seq_l, fails_on_seq_r.
  now apply fails_on_other.
Qed.

Lemma link_needs_bracket : fails_on (fun c => c <> 91%N) re_link.
Proof. rewrite re_link_eq. apply fails_on_seq_l. now apply fails_on_other. Qed.

Lemma not_eqb (m x : char) : x <> m -> char_eqb m x = false.
Proof.
  intros H. destruct (char_eqb m x) eqn:E; [|reflexivity].
  apply char_eqb_eq in E. congruence.
Qed.

(** The image rule finds nothing on a line whose one opening bracket does
    not come after an exclamation mark. *)
Lemma image_scan (before others : str) :
  Forall (fun c => c <> 91%N) before -> last before 0%N <> 33%N ->
  Forall (fun c => c <> 91%N) others ->
  forall (fuel i : nat) (cs : list (nat * str)),
    sub_from (length before + S fuel) re_image tpl_image
      (Cursor i (before ++ 91%N :: others) cs)
    = before ++ 91%N :: others.
Proof.
  intros Hbefore Hlast Hothers.
  induction Hbefore as [|x b Hx Hb IH]; intros fuel i cs.
  - cbn [length app Nat.add]. rewrite sub_from_skip.
    + f_equal. now apply (sub_from_fails_on _ _ _ _ image_needs_bracket).
    + rewrite re_image_eq, go_seq, go_seq, go_chr. reflexivity.
  - cbn [length app Nat.add]. rewrite sub_from_skip.
    + f_equal. apply IH. destruct b; [discriminate | exact Hlast].
    + rewrite re_image_eq, go_seq, go_seq, go_chr.
      destruct (char_eqb 33 x) eqn:E; [|reflexivity].
      apply char_eqb_eq in E. subst x. rewrite go_chr.
      destruct b as [|y b]; [now contradiction Hlast|].
      cbn [app]. inversion Hb; subst. now rewrite not_eqb.
Qed.

(** A link is replaced by its text (line 88). *)
Theorem link_is_replaced_by_its_text (before text target after : str) :
  Forall unmarked before -> Forall unmarked text -> Forall unmarked after ->
  last before 0%N <> 33%N ->
  text <> [] -> ~ In 93%N text ->
  target <> [] -> ~ In 41%N target -> ~ In 91%N target ->
  inline_markup (before ++ u "[" ++ text ++ u "](" ++ target ++ u ")" ++ after)
  = before ++ text ++ after.
Proof.
  intros Hbefore Htext Hafter Hlast Hsome Hclose Hsome' Hparen Hopen.
  change (before ++ u "[" ++ text ++ u "](" ++ target ++ u ")" ++ after)
    with (before ++ 91%N :: text ++ 93%N :: 40%N :: target ++ 41%N :: after).
  set (others := text ++ 93%N :: 40%N :: target ++ 41%N :: after).
  assert (Hb : Forall (fun c => c <> 91%N) before)
    by (eapply Forall_impl; [|exact Hbefore]; exact unmarked_no_bracket).
  assert (Ho : Forall (fun c => c <> 91%N) others).
  { unfold others. apply Forall_app. split;
      [eapply Forall_impl; [|exact Htext]; exact unmarked_no_bracket|].
    do 2 (constructor; [discriminate|]). apply Forall_app. split.
    - now apply absent_forall.
    - constructor; [discriminate|].
      eapply Forall_impl; [|exact Hafter]. exact unmarked_no_bracket. }
  rewrite inline_markup_stages.
  assert (E1 : re_sub re_image tpl_image (before ++ 91%N :: others)
               = before ++ 91%N :: others).
  { unfold re_sub, start.
    rewrite fuel_split.
    now apply image_scan. }
  rewrite E1.
  assert (E2 : re_sub re_link [Ref 1] (before ++ 91%N :: others)
               = before ++ text ++ after).
  { unfold re_sub, start.
    rewrite fuel_split.
    rewrite (sub_from_skip_first (char_eqb 91) re_link [Ref 1] before);
      [|rewrite re_link_eq; cbn [starts_with]; intros x Hx; exact Hx
       |eapply Forall_impl; [|exact Hb]; exact (not_eqb 91)].
    f_equal. unfold others.
    destruct (link_match (0 + length before) text target after
                Hsome Hsome' Hclose Hparen) as (j & Hj & E).
    rewrite (sub_from_match _ _ _ _ _ _ _ E Hj).
    rewrite (sub_from_fails_on _ _ _ _ link_unmarked) by exact Hafter.
    cbn [expand flat_map caps rest group Nat.eqb]. now rewrite !app_nil_r. }
  rewrite E2. apply styling_fixed.
  apply Forall_app. split;
    [eapply Forall_impl; [|exact Hbefore]; exact unmarked_unstyled|].
  apply Forall_app. split;
    (eapply Forall_impl; [|first [exact Htext | exact Hafter]]);
    exact unmarked_unstyled.
Qed.

Lemma go_star_chr_group (p : char -> bool) (n : nat) (A : Type)
    (k : cursor -> option A)
    (i : nat) (a : str) (y : char) (b : str) (cs : list (nat * str)) :
  Forall (fun z => p z = true) a -> p y = false ->
  (forall j z zs cs', p z = true -> k (Cursor j (z :: zs) cs') = None) ->
  go (Group n (Star true (Chr p))) (Cursor i (a ++ y :: b) cs) k
  = k (Cursor (i + length a) (y :: b) ((n, a) :: cs)).
Proof.
  intros Ha Hy Hk. rewrite go_group, go_star_chr_greedy.
  - destruct (span_by_stop p a y b Ha Hy) as [-> ->]. cbn [pos rest caps].
    replace (i + length a - i) with (length a) by lia.
    now rewrite firstn_exact.
  - intros j z zs cs' Hz. cbn [pos rest caps]. now apply Hk.
Qed.

Lemma image_match (i : nat) (alt target after : str) :
  ~ In 93%N alt -> target <> [] -> ~ In 41%N target ->
  exists j, i < j /\
    go re_image
       (Cursor i (33%N :: 91%N :: alt ++ 93%N :: 40%N :: target ++ 41%N :: after) [])
       Some
    = Some (Cursor j after [(1, alt)]).
Proof.
  intros Hclose Htarget Hparen.
  destruct target as [|g0 target]; [contradiction|].
  apply none_of_all in Hclose, Hparen.
  inversion Hparen as [|? ? Hg0 Hg]; subst.
  rewrite re_image_eq.
  rewrite go_seq, go_seq, go_chr. change (char_eqb 33 33) with true. cbv iota.
  rewrite go_chr. change (char_eqb 91 91) with true. cbv iota.
  rewrite go_seq, go_star_chr_group; try assumption; try reflexivity.
  2:{ intros j z zs cs' Hz. rewrite !go_seq, go_chr.
      now rewrite (none_of_stop _ _ Hz). }
  rewrite go_seq, go_seq, go_chr. change (char_eqb 93 93) with true. cbv iota.
  rewrite go_chr. change (char_eqb 40 40) with true. cbv iota.
  cbn [app]. rewrite go_seq, go_plus_chr_exact; try assumption; try reflexivity.
  2:{ intros j z zs cs' Hz. rewrite go_chr. now rewrite (none_of_stop _ _ Hz). }
  rewrite go_chr. change (char_eqb 41 41) with true. cbv iota.
  eexists. split; [|reflexivity]. lia.
Qed.

Lemma image_scan_before (before s : str) :
  Forall (fun c => c <> 91%N) before ->
  forall (fuel i : nat) (cs : list (nat * str)),
    sub_from (length before + fuel) re_image tpl_image
      (Cursor i (before ++ 33%N :: s) cs)
    = before ++ sub_from fuel re_image tpl_image
                  (Cursor (i + length before) (33%N :: s) []).
Proof.
  induction 1 as [|x b Hx Hb IH]; intros fuel i cs.
  - cbn [length app Nat.add]. rewrite Nat.add_0_r. apply sub_from_caps.
  - cbn [length app Nat.add]. rewrite sub_from_skip.
    + rewrite IH. now rewrite Nat.add_succ_r.
    + rewrite re_image_eq, go_seq, go_seq, go_chr.
      destruct (char_eqb 33 x); [|reflexivity]. rewrite go_chr.
      destruct b as [|y b]; [reflexivity|].
      cbn [app]. inversion Hb; subst. now rewrite not_eqb.
Qed.

(** The link rule finds nothing in the caption that the image rule
    writes, unless a parenthesis follows it. *)
Lemma link_caption (i : nat) (alt after : str) :
  ~ In 93%N alt -> startswith (u "(") after = false ->
  go re_link (Cursor i (u "[Image: " ++ alt ++ 93%N :: after) []) Some = None.
Proof.
  intros Hclose Hafter.
  change (u "[Image: " ++ alt ++ 93%N :: after)
    with (91%N :: 73%N :: (u "mage: " ++ alt) ++ 93%N :: after).
  rewrite re_link_eq.
  rewrite go_seq, go_chr. change (char_eqb 91 91) with true. cbv iota.
  rewrite go_seq, go_plus_chr_group; try reflexivity.
  - rewrite go_seq, go_seq, go_chr. change (char_eqb 93 93) with true. cbv iota.
    rewrite go_chr. destruct after as [|z after]; [reflexivity|].
    cbn [startswith] in Hafter. change (u "(") with [40%N] in Hafter.
    cbn [startswith] in Hafter. rewrite andb_true_r in Hafter.
    now rewrite Hafter.
  - apply Forall_app. split; [|now apply none_of_all].
    change (u "mage: ") with [109; 97; 103; 101; 58; 32]%N.
    repeat (constructor; [reflexivity|]). constructor.
  - intros j z zs cs' Hz. rewrite !go_seq, go_chr.
    now rewrite (none_of_stop _ _ Hz).
Qed.

(** An image is replaced by its caption (line 85). *)
Theorem image_is_replaced_by_its_caption (before alt target after : str) :
  Forall unmarked before -> Forall unmarked alt -> Forall unmarked after ->
  ~ In 93%N alt -> target <> [] -> ~ In 41%N target ->
  startswith (u "(") after = false ->
  inline_markup (before ++ u "![" ++ alt ++ u "](" ++ target ++ u ")" ++ after)
  = before ++ u "[Image: " ++ alt ++ u "]" ++ after.
Proof.
  intros Hbefore Halt Hafter Hclose Hsome Hparen Hnext.
  change (before ++ u "![" ++ alt ++ u "](" ++ target ++ u ")" ++ after)
    with (before ++ 33%N :: 91%N :: alt ++ 93%N :: 40%N :: target ++ 41%N :: after).
  change (before ++ u "[Image: " ++ alt ++ u "]" ++ after)
    with (before ++ u "[Image: " ++ alt ++ 93%N :: after).
  remember (91%N :: alt ++ 93%N :: 40%N :: target ++ 41%N :: after) as others eqn:Eo.
  assert (Hb : Forall (fun c => c <> 91%N) before)
    by (eapply Forall_impl; [|exact Hbefore]; exact unmarked_no_bracket).
  rewrite inline_markup_stages.
  assert (E1 : re_sub re_image tpl_image (before ++ 33%N :: others)
               = before ++ u "[Image: " ++ alt ++ 93%N :: after).
  { unfold re_sub, start.
    rewrite fuel_split.
    rewrite image_scan_before by exact Hb. f_equal. subst others.
    destruct (image_match (0 + length before) alt target after
                Hclose Hsome Hparen) as (j & Hj & E).
    rewrite (sub_from_match _ _ _ _ _ _ _ E Hj).
    rewrite (sub_from_fails_on _ _ _ _ image_unmarked) by exact Hafter.
    cbn [tpl_image expand flat_map caps rest group Nat.eqb].
    rewrite app_nil_r, <- !app_assoc. reflexivity. }
  rewrite E1.
  assert (Hcaption : Forall (fun c => c <> 91%N) (u "Image: " ++ alt ++ 93%N :: after)).
  { change (u "Image: ") with [73; 109; 97; 103; 101; 58; 32]%N.
    cbn [app]. repeat (constructor; [discriminate|]).
    apply Forall_app. split;
      [eapply Forall_impl; [|exact Halt]; exact unmarked_no_bracket|].
    constructor; [discriminate|].
    eapply Forall_impl; [|exact Hafter]. exact unmarked_no_bracket. }
  assert (E2 : re_sub re_link [Ref 1] (before ++ u "[Image: " ++ alt ++ 93%N :: after)
               = before ++ u "[Image: " ++ alt ++ 93%N :: after).
  { unfold re_sub, start.
    remember (u "[Image: " ++ alt ++ 93%N :: after) as caption eqn:Ec.
    rewrite fuel_split.
    rewrite (sub_from_skip_first (char_eqb 91) re_link [Ref 1] before);
      [|rewrite re_link_eq; cbn [starts_with]; intros x Hx; exact Hx
       |eapply Forall_impl; [|exact Hb]; exact (not_eqb 91)].
    f_equal.
    pose proof (link_caption (0 + length before) alt after Hclose Hnext) as Hnone.
    rewrite <- Ec in Hnone.
    assert (Ec' : caption = 91%N :: u "Image: " ++ alt ++ 93%N :: after)
      by (rewrite Ec; reflexivity).
    rewrite Ec' in *. rewrite (sub_from_skip _ _ _ _ _ _ _ Hnone). f_equal.
    now apply (sub_from_fails_on _ _ _ _ link_needs_bracket). }
  rewrite E2. apply styling_fixed.
  apply Forall_app. split;
    [eapply Forall_impl; [|exact Hbefore]; exact unmarked_unstyled|].
  change (u "[Image: ") with [91; 73; 109; 97; 103; 101; 58; 32]%N.
  cbn [app].
  repeat (constructor; [repeat split; (reflexivity || discriminate)|]).
  apply Forall_app. split;
    [eapply Forall_impl; [|exact Halt]; exact unmarked_unstyled|].
  constructor; [repeat split; (reflexivity || discriminate)|].
  eapply Forall_impl; [|exact Hafter]. exact unmarked_unstyled.
Qed.

Set Implicit Arguments.

Unset Implicit Arguments.

Lemma re_emphasis_eq (m : char) (n : nat) :
  re_emphasis m n =
    Seq (Times n (Chr (char_eqb m)))
      (Seq (Group 1 (Seq (Chr (fun c => negb (existsb (char_eqb c) [m])))
                         (Star true (Chr (fun c => negb (existsb (char_eqb c) [m]))))))
         (Times n (Chr (char_eqb m)))).
Proof. reflexivity. Qed.

Lemma char_eqb_refl (m : char) : char_eqb m m = true.
Proof. now apply char_eqb_eq. Qed.

(** A run of markers is what [m{n}] takes, and too short for [m{k}] when
    [k] is more. *)
Lemma times_run (m : char) (n : nat) (s : str) :
  forallb (char_eqb m) (firstn n (repeat m n ++ s))
  && (n <=? length (repeat m n ++ s)) = true
  /\ skipn n (repeat m n ++ s) = s.
Proof.
  induction n as [|n [IH1 IH2]]; [split; reflexivity|].
  cbn [repeat app firstn forallb skipn length Nat.leb].
  rewrite char_eqb_refl. cbn [andb]. now split.
Qed.

Lemma times_run_short (m : char) (s : str) :
  match s with x :: _ => x <> m | [] => True end ->
  forall j k, j < k ->
    forallb (char_eqb m) (firstn k (repeat m j ++ s))
    && (k <=? length (repeat m j ++ s)) = false.
Proof.
  intros Hs. induction j as [|j IH]; intros k Hk.
  - destruct k as [|k]; [lia|]. cbn [repeat app].
    destruct s as [|x s]; [reflexivity|].
    cbn [firstn forallb]. now rewrite (not_eqb m x Hs).
  - destruct k as [|k]; [lia|].
    cbn [repeat app firstn forallb length Nat.leb].
    rewrite char_eqb_refl. cbn [andb]. apply IH. lia.
Qed.

Lemma emphasis_starts (m : char) (n : nat) :
  starts_with (char_eqb m) (re_emphasis m (S n)).
Proof. rewrite re_emphasis_eq. cbn [Times starts_with]. intros x Hx. exact Hx. Qed.

Lemma emphasis_match (m : char) (n i : nat) (text after : str) :
  text <> [] -> ~ In m text ->
  exists j, i < j /\
    go (re_emphasis m (S n))
       (Cursor i (repeat m (S n) ++ text ++ repeat m (S n) ++ after) []) Some
    = Some (Cursor j after [(1, text)]).
Proof.
  intros Hsome Hm. destruct text as [|t0 text]; [contradiction|].
  apply none_of_all in Hm. inversion Hm as [|? ? Ht0 Ht]; subst.
  rewrite re_emphasis_eq, go_seq, go_times_chr.
  destruct (times_run m (S n) ((t0 :: text) ++ repeat m (S n) ++ after)) as [-> ->].
  change (repeat m (S n) ++ after) with (m :: repeat m n ++ after).
  cbn [app]. rewrite go_seq, go_plus_chr_group; try assumption.
  - change (m :: repeat m n ++ after) with (repeat m (S n) ++ after).
    rewrite go_times_chr.
    destruct (times_run m (S n) after) as [-> ->].
    eexists. split; [|reflexivity]. lia.
  - cbv beta. cbn [existsb]. now rewrite char_eqb_refl.
  - intros j z zs cs' Hz. rewrite go_times_chr. cbn [firstn forallb].
    now rewrite (none_of_stop _ _ Hz).
Qed.

Lemma sub_from_skip_short_run (m : char) (k : nat) (tpl : list piece) (s : str) :
  match s with x :: _ => x <> m | [] => True end ->
  forall (j : nat), j < k ->
  forall (fuel i : nat) (cs : list (nat * str)),
    sub_from (j + fuel) (re_emphasis m k) tpl (Cursor i (repeat m j ++ s) cs)
    = repeat m j ++ sub_from fuel (re_emphasis m k) tpl (Cursor (i + j) s []).
Proof.
  intros Hs. induction j as [|j IH]; intros Hj fuel i cs.
  - cbn [repeat app Nat.add]. rewrite Nat.add_0_r. apply sub_from_caps.
  - cbn [repeat app Nat.add]. rewrite sub_from_skip.
    + rewrite IH by lia. now rewrite Nat.add_succ_r.
    + rewrite re_emphasis_eq, go_seq, go_times_chr.
      change (m :: repeat m j ++ s) with (repeat m (S j) ++ s).
      now rewrite (times_run_short m s Hs (S j) k Hj).
Qed.

Section Emphasis.

Variables (m : char) (n : nat) (before text after : str).
Hypothesis marker : inline_char m = true.
Hypothesis Hbefore : Forall unmarked before.
Hypothesis Htext : Forall unmarked text.
Hypothesis Hafter : Forall unmarked after.
Hypothesis Hsome : text <> [].

Lemma unmarked_no_marker (s : str) : Forall unmarked s -> Forall (fun c => c <> m) s.
Proof.
  intros H. eapply Forall_impl; [|exact H]. cbv beta. intros c Hc ->.
  unfold unmarked in Hc. congruence.
Qed.

Lemma head_no_marker (s : str) :
  Forall (fun c => c <> m) s -> match s with x :: _ => x <> m | [] => True end.
Proof. intros H. destruct s; [exact I | now inversion H]. Qed.

Lemma no_marker_eqb (s : str) :
  Forall (fun c => c <> m) s -> Forall (fun x => char_eqb m x = false) s.
Proof. intros H. eapply Forall_impl; [|exact H]. exact (not_eqb m). Qed.

(** A rule that asks for more markers than there are finds nothing. *)
Lemma emphasis_rule_short (k : nat) :
  n < k ->
  re_sub (re_emphasis m k) [Ref 1]
    (before ++ repeat m n ++ text ++ repeat m n ++ after)
  = before ++ repeat m n ++ text ++ repeat m n ++ after.
Proof.
  intros Hk. destruct k as [|k]; [lia|].
  pose proof (unmarked_no_marker before Hbefore) as Hb.
  pose proof (unmarked_no_marker text Htext) as Ht.
  pose proof (unmarked_no_marker after Hafter) as Ha.
  unfold re_sub, start. rewrite fuel_split.
  rewrite (sub_from_skip_first (char_eqb m) _ _ before (emphasis_starts m k)
             (no_marker_eqb before Hb)).
  f_equal. rewrite fuel_split, repeat_length.
  rewrite sub_from_skip_short_run; [|destruct text as [|t0 t]; [contradiction|];
                                     now inversion Ht | exact Hk].
  f_equal. rewrite fuel_split.
  rewrite (sub_from_skip_first (char_eqb m) _ _ text (emphasis_starts m k)
             (no_marker_eqb text Ht)).
  f_equal. rewrite fuel_split, repeat_length.
  rewrite sub_from_skip_short_run; [|now apply head_no_marker | exact Hk].
  f_equal.
  now apply (sub_from_fails_on _ _ _ _ (emphasis_needs_marker m k)).
Qed.

(** The rule with as many markers as there are takes them away. *)
Lemma emphasis_rule_exact (n' : nat) :
  n = S n' ->
  re_sub (re_emphasis m n) [Ref 1]
    (before ++ repeat m n ++ text ++ repeat m n ++ after)
  = before ++ text ++ after.
Proof.
  intros ->.
  pose proof (unmarked_no_marker before Hbefore) as Hb.
  pose proof (unmarked_no_marker text Htext) as Ht.
  pose proof (unmarked_no_marker after Hafter) as Ha.
  unfold re_sub, start. rewrite fuel_split.
  rewrite (sub_from_skip_first (char_eqb m) _ _ before (emphasis_starts m n')
             (no_marker_eqb before Hb)).
  f_equal.
  assert (Hm : ~ In m text).
  { intros Hin. exact (proj1 (Forall_forall _ _) Ht m Hin eq_refl). }
  destruct (emphasis_match m n' (0 + length before) text after Hsome Hm)
    as (j & Hj & E).
  rewrite (sub_from_match _ _ _ _ _ _ _ E Hj).
  rewrite (sub_from_fails_on _ _ _ _ (emphasis_needs_marker m n')) by exact Ha.
  cbn [expand flat_map caps rest group Nat.eqb]. now rewrite !app_nil_r.
Qed.

(** The rules that come after find nothing left. *)
Lemma emphasis_rule_after (m' : char) (k : nat) :
  inline_char m' = true ->
  re_sub (re_emphasis m' (S k)) [Ref 1] (before ++ text ++ after)
  = before ++ text ++ after.
Proof.
  intros Hm'. apply (fails_on_sub _ (@emphasis_unmarked m' k Hm')).
  apply Forall_app. split; [exact Hbefore|]. apply Forall_app. now split.
Qed.

Lemma marked_line (P : char -> Prop) :
  P m -> (forall c, unmarked c -> P c) ->
  Forall P (before ++ repeat m n ++ text ++ repeat m n ++ after).
Proof.
  intros Hm HP.
  assert (Hrun : Forall P (repeat m n)).
  { apply Forall_forall. intros x Hx. apply repeat_spec in Hx. now subst. }
  repeat (apply Forall_app; split); try exact Hrun;
    (eapply Forall_impl; [exact HP|]); assumption.
Qed.

End Emphasis.

(** Emphasis markers are taken away, one pair to three pairs of
    asterisks or underscores (lines 96-101). *)
Theorem emphasis_is_removed (m : char) (n : nat) (before text after : str) :
  m = 42%N \/ m = 95%N -> 1 <= n <= 3 ->
  Forall unmarked before -> Forall unmarked text -> Forall unmarked after ->
  text <> [] ->
  inline_markup (before ++ repeat m n ++ text ++ repeat m n ++ after)
  = before ++ text ++ after.
Proof.
  intros Hm Hn Hbefore Htext Hafter Hsome.
  assert (Hmark : inline_char m = true) by (destruct Hm as [-> | ->]; reflexivity).
  assert (Hbracket : m <> 91%N) by (destruct Hm as [-> | ->]; discriminate).
  assert (Hsymbol : symbol m = false) by (destruct Hm as [-> | ->]; reflexivity).
  rewrite inline_markup_stages.
  rewrite (fails_on_sub _ image_needs_bracket
             (marked_line m n before text after Hbefore Htext Hafter
                (fun c => c <> 91%N) Hbracket unmarked_no_bracket)).
  rewrite (fails_on_sub _ link_needs_bracket
             (marked_line m n before text after Hbefore Htext Hafter
                (fun c => c <> 91%N) Hbracket unmarked_no_bracket)).
  rewrite (symbol_rules_fixed _
             (marked_line m n before text after Hbefore Htext Hafter
                (fun c => symbol c = false) Hsymbol
                (fun c Hc => proj1 (unmarked_unstyled c Hc)))).
  unfold emphasis_rules. cbv zeta.
  assert (Hshort : forall k, n < k ->
            re_sub (re_emphasis m k) [Ref 1]
              (before ++ repeat m n ++ text ++ repeat m n ++ after)
            = before ++ repeat m n ++ text ++ repeat m n ++ after)
    by (intros k Hk; now apply emphasis_rule_short).
  assert (Hexact : re_sub (re_emphasis m n) [Ref 1]
                     (before ++ repeat m n ++ text ++ repeat m n ++ after)
                   = before ++ text ++ after)
    by (apply (emphasis_rule_exact m n before text after Hmark Hbefore Htext
                 Hafter Hsome (n - 1)); lia).
  assert (Hlater : forall m' k, inline_char m' = true ->
            re_sub (re_emphasis m' (S k)) [Ref 1] (before ++ text ++ after)
            = before ++ text ++ after)
    by (intros m' k Hm'; now apply emphasis_rule_after).
  assert (Hother : m = 95%N -> forall k,
            re_sub (re_emphasis 42 (S k)) [Ref 1]
              (before ++ repeat m n ++ text ++ repeat m n ++ after)
            = before ++ repeat m n ++ text ++ repeat m n ++ after).
  { intros -> k. apply (fails_on_sub _ (emphasis_needs_marker 42 k)).
    apply (marked_line 95 n before text after Hbefore Htext Hafter
             (fun c => c <> 42%N)); [discriminate|].
    intros c Hc ->. discriminate. }
  assert (Hcases : n = 1 \/ n = 2 \/ n = 3) by lia.
  destruct Hm as [-> | ->].
  - destruct Hcases as [-> | [-> | ->]].
    + rewrite (Hshort 3), (Hshort 2) by lia. rewrite Hexact.
      now rewrite !Hlater.
    + rewrite (Hshort 3) by lia. rewrite Hexact. now rewrite !Hlater.
    + rewrite Hexact. now rewrite !Hlater.
  - rewrite !(Hother eq_refl).
    destruct Hcases as [-> | [-> | ->]].
    + rewrite (Hshort 3), (Hshort 2) by lia. now rewrite Hexact.
    + rewrite (Hshort 3) by lia. rewrite Hexact. now rewrite !Hlater.
    + rewrite Hexact. now rewrite !Hlater.
Qed.

Set Implicit Arguments.

(** ** Table rows *)

Unset Implicit Arguments.

Lemma strip_by_fixed_head {A} (p : A -> bool) (x : A) (s : list A) :
  strip_by p (x :: s) = x :: s -> p x = false.
Proof.
  intros H. destruct (p x) eqn:Hx; [|reflexivity]. exfalso.
  pose proof (strip_by_length p (x :: s)) as Hlen.
  unfold strip_by in H. cbn [lstrip_by] in H. rewrite Hx in H.
  fold (strip_by p s) in H. pose proof (strip_by_length p s) as Hlen'.
  rewrite H in Hlen'. cbn [length] in Hlen'. lia.
Qed.

Lemma strip_by_fixed_right {A} (p : A -> bool) (x : A) (s : list A) :
  strip_by p (x :: s) = x :: s -> rstrip_by p (x :: s) = x :: s.
Proof.
  intros H. pose proof (strip_by_fixed_head p x s H) as Hx.
  unfold strip_by in H. cbn [lstrip_by] in H. now rewrite Hx in H.
Qed.

(** A cell between two spaces is the cell again once stripped. *)
Lemma strip_pad (cell : str) :
  cell <> [] -> strip cell = cell -> strip (32%N :: cell ++ [32%N]) = cell.
Proof.
  intros Hsome Hfixed. destruct cell as [|x cell]; [contradiction|].
  unfold strip in *. pose proof (strip_by_fixed_head isspace x cell Hfixed) as Hx.
  pose proof (strip_by_fixed_right isspace x cell Hfixed) as Hright.
  unfold strip_by. cbn [lstrip_by app]. change (isspace 32) with true. cbv iota.
  rewrite Hx. change (x :: cell ++ [32%N]) with ((x :: cell) ++ [32%N]).
  rewrite rstrip_by_snoc. change (isspace 32) with true. cbv iota. exact Hright.
Qed.

Lemma pad_join (cells : list str) :
  cells <> [] ->
  32%N :: join (u " | ") cells ++ [32%N]
  = join [124%N] (map (fun cell : str => (32%N :: cell ++ [32%N] : str)) cells).
Proof.
  intros Hsome. induction cells as [|cell cells IH]; [contradiction|].
  destruct cells as [|cell' cells]; [reflexivity|].
  change (join (u " | ") (cell :: cell' :: cells))
    with (cell ++ [32; 124; 32]%N ++ join (u " | ") (cell' :: cells)).
  change (join [124%N] (map (fun cell : str => (32%N :: cell ++ [32%N] : str)) (cell :: cell' :: cells)))
    with ((32%N :: cell ++ [32%N]) ++ [124%N]
          ++ join [124%N] (map (fun cell : str => (32%N :: cell ++ [32%N] : str)) (cell' :: cells))).
  rewrite <- IH by discriminate. cbn [app]. f_equal.
  rewrite <- !app_assoc. cbn [app]. reflexivity.
Qed.

Lemma strip_row (cells : list str) :
  strip_chars (u "|") (strip (row_of cells))
  = 32%N :: join (u " | ") cells ++ [32%N].
Proof.
  unfold row_of.
  change (u "| " ++ join (u " | ") cells ++ u " |")
    with (124%N :: 32%N :: join (u " | ") cells ++ [32; 124]%N).
  replace (124%N :: 32%N :: join (u " | ") cells ++ [32; 124]%N)
    with (124%N :: (32%N :: join (u " | ") cells ++ [32%N]) ++ [124%N])
    by (cbn [app]; now rewrite <- app_assoc).
  set (inner := 32%N :: join (u " | ") cells ++ [32%N]).
  assert (E : strip (124%N :: inner ++ [124%N]) = 124%N :: inner ++ [124%N]).
  { unfold strip. rewrite strip_by_cons_keep by reflexivity. f_equal.
    now rewrite rstrip_by_snoc. }
  rewrite E. unfold strip_chars, strip_by. cbn [lstrip_by].
  change (existsb (char_eqb 124) (u "|")) with true. cbv iota.
  unfold inner at 1. cbn [app lstrip_by].
  change (existsb (char_eqb 32) (u "|")) with false. cbv iota.
  change (32%N :: (join (u " | ") cells ++ [32%N]) ++ [124%N])
    with (inner ++ [124%N]).
  rewrite rstrip_by_snoc. change (existsb (char_eqb 124) (u "|")) with true.
  cbv iota. unfold inner.
  change (32%N :: join (u " | ") cells ++ [32%N])
    with ((32%N :: join (u " | ") cells) ++ [32%N]).
  now rewrite rstrip_by_snoc.
Qed.

(** The cells of a row written from clean cells are those cells. *)
Lemma table_cells_row (cells : list str) :
  cells <> [] ->
  Forall (fun cell => cell <> [] /\ strip cell = cell /\ ~ In 124%N cell) cells ->
  table_cells (row_of cells) = cells.
Proof.
  intros Hsome Hcells. unfold table_cells.
  rewrite strip_row, pad_join by exact Hsome.
  rewrite split_join.
  - rewrite map_map. induction Hcells as [|cell cells (Hc & Hs & _) _ IH];
      [contradiction|].
    cbn [map filter]. rewrite (strip_pad cell Hc Hs).
    destruct cell as [|x cell]; [contradiction|]. cbn [nonempty]. f_equal.
    destruct cells as [|cell' cells]; [reflexivity|]. apply IH. discriminate.
  - destruct cells; [contradiction | discriminate].
  - intros l Hl Hbar. apply in_map_iff in Hl as (cell & <- & Hcell).
    destruct (proj1 (Forall_forall _ _) Hcells cell Hcell) as (_ & _ & Hno).
    destruct Hbar as [Hbar|Hbar]; [discriminate|].
    apply in_app_or in Hbar as [Hbar|[Hbar|[]]]; [contradiction | discriminate].
Qed.

Lemma contains_in (p s : str) (x : char) :
  contains p s = true -> In x p -> In x s.
Proof.
  intros H Hx. induction s as [|y s IH]; cbn [contains] in H.
  - rewrite orb_false_r in H. apply startswith_prefix in H as [t ->].
    apply in_or_app. now left.
  - apply orb_true_iff in H as [H|H].
    + apply startswith_prefix in H as [t ->]. apply in_or_app. now left.
    + right. now apply IH.
Qed.

Lemma plain_of_chars (line : str) :
  Forall (fun c => inline_char c = false /\ c <> 35%N /\ c <> 96%N
                   /\ c <> 60%N /\ c <> 62%N) line ->
  plain line = true.
Proof.
  intros H. pose proof (proj1 (Forall_forall _ _) H) as Hc.
  assert (Habsent : forall (p : str) (x : char),
            In x p -> (forall c, In c line -> c <> x) -> contains p line = false).
  { intros p x Hx Hno. destruct (contains p line) eqn:E; [|reflexivity].
    exfalso. exact (Hno x (contains_in p line x E Hx) eq_refl). }
  unfold plain, inline_free.
  rewrite (Habsent (u "<!--") 60%N), (Habsent (u "-->") 62%N),
    (Habsent (u "#") 35%N), (Habsent (u "`") 96%N);
    try (now left); try (intros c Hin; apply Hc in Hin; tauto).
  - rewrite !andb_true_r. apply forallb_forall. intros c Hin.
    apply Hc in Hin. destruct Hin as [Hin _]. now rewrite Hin.
  - right. right. now left.
Qed.

Lemma cell_char_plain (c : char) :
  cell_char c = true ->
  inline_char c = false /\ c <> 35%N /\ c <> 96%N /\ c <> 60%N /\ c <> 62%N.
Proof.
  unfold cell_char. intros H. apply andb_true_iff in H as [H _].
  apply andb_true_iff in H as [Hinline Hother].
  apply negb_true_iff in Hinline, Hother.
  split; [exact Hinline|]. repeat split; intros ->; discriminate.
Qed.

Lemma row_chars (P : char -> Prop) (cells : list str) :
  P 32%N -> P 124%N -> Forall (Forall P) cells -> Forall P (row_of cells).
Proof.
  intros Hspace Hbar Hcells. unfold row_of.
  change (u "| ") with [124; 32]%N. change (u " |") with [32; 124]%N.
  change (u " | ") with [32; 124; 32]%N.
  apply Forall_app. split; [now repeat constructor|].
  apply Forall_app. split; [|now repeat constructor].
  apply join_keeps; [now repeat constructor | exact Hcells].
Qed.

Lemma row_shape (cells : list str) :
  row_of cells = 124%N :: (32%N :: join (u " | ") cells ++ [32%N]) ++ [124%N].
Proof.
  unfold row_of.
  change (u "| " ++ join (u " | ") cells ++ u " |")
    with (124%N :: 32%N :: join (u " | ") cells ++ [32; 124]%N).
  cbn [app]. now rewrite <- app_assoc.
Qed.

(** A greedy repetition matches when what follows matches after some
    run of the class. *)
Lemma go_star_chr_some (p : char -> bool) (A : Type) (k : cursor -> option A)
    (a b : str) (cs : list (nat * str)) :
  Forall (fun x => p x = true) a ->
  forall i,
    k (Cursor (i + length a) b cs) <> None ->
    go (Star true (Chr p)) (Cursor i (a ++ b) cs) k <> None.
Proof.
  induction 1 as [|x a Hx _ IH]; intros i Hk.
  - cbn [app length] in *. rewrite Nat.add_0_r in Hk.
    destruct b as [|y b]; [now rewrite go_star_chr_nil|].
    rewrite go_star_chr_cons. destruct (p y); [|exact Hk].
    unfold orelse. now destruct (go _ _ _).
  - cbn [app length] in *. rewrite go_star_chr_cons, Hx.
    rewrite Nat.add_succ_r in Hk. specialize (IH (S i) Hk).
    unfold orelse. destruct (go _ _ _); [discriminate | contradiction].
Qed.

Lemma re_table_row_eq :
  re_table_row =
    Seq Bol
      (Seq (Star true (Chr isspace))
         (Seq (Chr (char_eqb 124))
            (Seq (Star true (Chr (fun c => negb (char_eqb c NL))))
               (Seq (Chr (char_eqb 124)) (Seq (Star true (Chr isspace)) Eol))))).
Proof. reflexivity. Qed.

(** A line between two bars is a row for line 116. *)
Lemma table_row_matches (middle : str) :
  ~ In NL middle -> matches re_table_row (124%N :: middle ++ [124%N]) = true.
Proof.
  intros Hnl. unfold matches, re_match, start.
  assert (H : go re_table_row (Cursor 0 (124%N :: middle ++ [124%N]) []) Some <> None).
  { rewrite re_table_row_eq, go_seq, go_bol. cbn [pos Nat.eqb].
    rewrite go_seq, go_star_chr_greedy.
    2:{ intros i x xs cs Hx. rewrite go_seq, go_chr.
        destruct (char_eqb 124 x) eqn:E; [|reflexivity].
        apply char_eqb_eq in E. subst x. discriminate. }
    cbn [span_by lstrip_by]. change (isspace 124) with false. cbv iota.
    rewrite go_seq, go_chr. change (char_eqb 124 124) with true. cbv iota.
    rewrite go_seq. apply go_star_chr_some.
    - apply Forall_forall. intros x Hx. apply negb_true_iff.
      destruct (char_eqb x NL) eqn:E; [|reflexivity].
      apply char_eqb_eq in E. now subst x.
    - rewrite go_seq, go_chr. change (char_eqb 124 124) with true. cbv iota.
      rewrite go_seq, go_star_chr_nil. discriminate. }
  now destruct (go re_table_row _ Some).
Qed.

(** A separator row holds nothing but white space, bars, hyphens and
    colons. *)
Lemma table_separator_chars (line : str) (c : char) :
  In c line -> separator_char c = false ->
  matches re_table_separator line = false.
Proof.
  intros Hin Hc. unfold matches, re_match, start.
  set (front :=
         Cat [Bol; Star true space; Opt (lit 124); Star true space;
              Plus (one_of (u "-:")); Star true space;
              Plus (Group 1 (Cat [lit 124; Star true space; Plus (one_of (u "-:"));
                                  Star true space]));
              Opt (lit 124); Star true space]).
  change (go re_table_separator (Cursor 0 line []) Some)
    with (go front (Cursor 0 line []) (fun c' => go Eol c' Some)).
  rewrite (@go_stuck (fun x => separator_char x = true)
             (fun s => exists x, In x s /\ separator_char x = false) front);
    [reflexivity | | | | now exists c].
  - assert (Hspace : forall x, isspace x = true -> separator_char x = true)
      by (intros x Hx; unfold separator_char; now rewrite Hx).
    assert (Hbar : forall x, char_eqb 124 x = true -> separator_char x = true)
      by (intros x Hx; apply char_eqb_eq in Hx; now subst x).
    assert (Hdash : forall x, existsb (char_eqb x) (u "-:") = true ->
                              separator_char x = true).
    { intros x Hx. change (u "-:") with [45; 58]%N in Hx. cbn [existsb] in Hx.
      rewrite orb_false_r in Hx.
      apply orb_true_iff in Hx as [Hx|Hx]; apply char_eqb_eq in Hx; now subst x. }
    unfold front, Opt, Plus, space, lit, one_of.
    cbn [Cat consumes]. repeat split; assumption.
  - intros x xs Hx (y & [<-|Hy] & Hy'); [congruence | eauto].
  - intros c' (y & Hy & Hy'). cbn [go].
    destruct (rest c') as [|z [|z' s]]; [contradiction | | reflexivity].
    destruct Hy as [<-|[]]. cbn [at_end].
    destruct (char_eqb z NL) eqn:E; [|reflexivity].
    apply char_eqb_eq in E. subst z. discriminate.
Qed.

(** A row written from clean cells, outside code and the skipped regions,
    is put out as a bullet line of its cells (lines 111-121). *)
Theorem table_row_becomes_a_bullet
    (i : nat) (st : State) (cells : list str) (cell : str) (c : char) :
  skip_yaml st = false -> skip_toc st = false -> in_code_block st = false ->
  Forall (fun cell => cell <> [] /\ strip cell = cell
                      /\ forallb cell_char cell = true) cells ->
  In cell cells -> In c cell -> separator_char c = false ->
  step i (row_of cells) st = emit (bullet_line cells) st.
Proof.
  intros Hyaml Htoc Hcode Hcells Hcell Hc Hsep.
  assert (Hsome : cells <> []) by (intros ->; contradiction).
  assert (Hchars : Forall (Forall (fun x => cell_char x = true)) cells).
  { eapply Forall_impl; [|exact Hcells]. cbv beta. intros l (_ & _ & Hl).
    apply Forall_forall. exact (proj1 (forallb_forall _ _) Hl). }
  assert (Hbar : In 124%N (row_of cells)) by (rewrite row_shape; now left).
  assert (Hplain : plain (row_of cells) = true).
  { apply plain_of_chars.
    apply (row_chars (fun x => inline_char x = false /\ x <> 35%N /\ x <> 96%N
                               /\ x <> 60%N /\ x <> 62%N));
      try (repeat split; (reflexivity || discriminate)).
    eapply Forall_impl; [|exact Hchars]. cbv beta. intros l Hl.
    eapply Forall_impl; [|exact Hl]. exact cell_char_plain. }
  rewrite step_plain; try assumption;
    [|now rewrite (bar_not_yaml _ Hbar), andb_false_r].
  unfold table_or_text. rewrite (table_rule_applies _ st Hbar Hplain Hcode).
  assert (Hin : In c (row_of cells)).
  { unfold row_of. apply in_or_app. right. apply in_or_app. left.
    clear - Hcell Hc. induction cells as [|l cells IH]; [contradiction|].
    cbn [join]. destruct cells as [|l' cells].
    - destruct Hcell as [<-|[]]. exact Hc.
    - apply in_or_app. destruct Hcell as [<-|Hcell]; [now left | right].
      apply in_or_app. right. now apply IH. }
  rewrite (table_separator_chars _ c Hin Hsep).
  rewrite row_shape at 1. rewrite table_row_matches.
  - rewrite table_cells_row; [destruct cells; [contradiction | reflexivity] | exact Hsome|].
    eapply Forall_impl; [|exact Hcells]. cbv beta. intros l (Hl & Hs & Hl').
    split; [exact Hl|]. split; [exact Hs|]. intros Hb.
    apply (proj1 (forallb_forall _ _) Hl') in Hb. discriminate.
  - intros Hnl.
    assert (Hrow : Forall (fun x => x <> NL) (row_of cells)).
    { apply row_chars; try discriminate.
      eapply Forall_impl; [|exact Hchars]. cbv beta. intros l Hl.
      eapply Forall_impl; [|exact Hl]. cbv beta. intros x Hx ->. discriminate. }
    assert (Hin' : In NL (row_of cells))
      by (rewrite row_shape; right; apply in_or_app; now left).
    exact (proj1 (Forall_forall _ _) Hrow NL Hin' eq_refl).
Qed.

Set Implicit Arguments.

(** ** Comments that are closed on their line *)

Unset Implicit Arguments.

(** A lazy repetition of a class tries what follows first. *)
Lemma go_lazy_chr (p : char -> bool) (i : nat) (s : str) (cs : list (nat * str))
    (A : Type) (k : cursor -> option A) :
  go (Star false (Chr p)) (Cursor i s cs) k =
    orelse (k (Cursor i s cs))
      match s with
      | x :: xs => if p x then go (Star false (Chr p)) (Cursor (S i) xs cs) k else None
      | [] => None
      end.
Proof.
  destruct s as [|x xs]; [reflexivity|].
  cbn [go rest pos caps length]. destruct (p x); [|reflexivity].
  replace (length xs <? S (length xs)) with true
    by (symmetry; apply Nat.ltb_lt; lia).
  reflexivity.
Qed.

(** It stops at the first place where what follows matches. *)
Lemma go_lazy_until (p : char -> bool) (A : Type) (k : cursor -> option A) (v : A)
    (t : str) (cs : list (nat * str)) (body : str) :
  Forall (fun x => p x = true) body ->
  forall i,
    (forall b1 x b2, body = b1 ++ x :: b2 ->
       k (Cursor (i + length b1) (x :: b2 ++ t) cs) = None) ->
    k (Cursor (i + length body) t cs) = Some v ->
    go (Star false (Chr p)) (Cursor i (body ++ t) cs) k = Some v.
Proof.
  induction 1 as [|x body Hx _ IH]; intros i Hnone Hk.
  - cbn [app length] in *. rewrite Nat.add_0_r in Hk.
    rewrite go_lazy_chr, Hk. reflexivity.
  - cbn [app length] in *. rewrite go_lazy_chr.
    pose proof (Hnone [] x body eq_refl) as H0.
    cbn [length app] in H0. rewrite Nat.add_0_r in H0. rewrite H0, Hx.
    cbn [orelse]. apply IH.
    + intros b1 y b2 ->. specialize (Hnone (x :: b1) y b2 eq_refl).
      cbn [length] in Hnone. now rewrite Nat.add_succ_r in Hnone.
    + now rewrite Nat.add_succ_r in Hk.
Qed.

Lemma re_html_comment_eq :
  re_html_comment =
    Seq (Seq (Chr (char_eqb 60))
           (Seq (Chr (char_eqb 33)) (Seq (Chr (char_eqb 45)) (Chr (char_eqb 45)))))
      (Seq (Star false (Chr (fun c => negb (char_eqb c NL))))
         (Seq (Chr (char_eqb 45)) (Seq (Chr (char_eqb 45)) (Chr (char_eqb 62))))).
Proof. reflexivity. Qed.

Lemma comment_needs_opener : fails_on (fun c => c <> 60%N) re_html_comment.
Proof.
  rewrite re_html_comment_eq. apply fails_on_seq_l, fails_on_seq_l.
  now apply fails_on_other.
Qed.

(** The closing delimiter does not begin inside a body that holds no [>]. *)
Lemma closer_not_inside (i : nat) (x : char) (b2 after : str) (cs : list (nat * str)) :
  ~ In 62%N (x :: b2) ->
  go (Seq (Chr (char_eqb 45)) (Seq (Chr (char_eqb 45)) (Chr (char_eqb 62))))
     (Cursor i (x :: b2 ++ 45%N :: 45%N :: 62%N :: after) cs) Some = None.
Proof.
  intros Hno. rewrite go_seq, go_chr.
  destruct (char_eqb 45 x); [|reflexivity].
  rewrite go_seq, go_chr.
  destruct b2 as [|y b2]; cbn [app].
  - change (char_eqb 45 45) with true. cbv iota. rewrite go_chr. reflexivity.
  - destruct (char_eqb 45 y); [|reflexivity]. rewrite go_chr.
    destruct b2 as [|z b2]; cbn [app]; [reflexivity|].
    rewrite not_eqb; [reflexivity|]. intros ->. apply Hno. right. right. now left.
Qed.

Lemma comment_match (i : nat) (body after : str) :
  ~ In NL body -> ~ In 62%N body ->
  exists j, i < j /\
    go re_html_comment
       (Cursor i (60%N :: 33%N :: 45%N :: 45%N :: body
                    ++ 45%N :: 45%N :: 62%N :: after) []) Some
    = Some (Cursor j after []).
Proof.
  intros Hnl Hno. rewrite re_html_comment_eq.
  rewrite go_seq, go_seq, go_chr. change (char_eqb 60 60) with true. cbv iota.
  rewrite go_seq, go_chr. change (char_eqb 33 33) with true. cbv iota.
  rewrite go_seq, go_chr. change (char_eqb 45 45) with true. cbv iota.
  rewrite go_chr. change (char_eqb 45 45) with true. cbv iota.
  rewrite go_seq.
  eexists. split; [|apply go_lazy_until].
  2:{ apply Forall_forall. intros x Hx. apply negb_true_iff.
      apply not_eqb. intros E. apply Hnl. unfold NL in *. now rewrite E. }
  2:{ intros b1 x b2 ->. apply closer_not_inside.
      intros Hin. apply Hno. apply in_or_app. now right. }
  2:{ rewrite go_seq, go_chr. change (char_eqb 45 45) with true. cbv iota.
      rewrite go_seq, go_chr. change (char_eqb 45 45) with true. cbv iota.
      rewrite go_chr. change (char_eqb 62 62) with true. cbv iota. reflexivity. }
  lia.
Qed.

Lemma contains_middle (p a b : str) : contains p (a ++ p ++ b) = true.
Proof.
  assert (H : forall s, startswith p (p ++ s) = true).
  { intros s. induction p as [|x p IH]; [reflexivity|].
    cbn [app startswith]. now rewrite char_eqb_refl, IH. }
  induction a as [|x a IH]; cbn [app].
  - destruct (p ++ b) eqn:E; cbn [contains]; rewrite <- E, H; reflexivity.
  - cbn [contains]. rewrite IH. apply orb_true_r.
Qed.

(** A comment that opens and closes on a line is cut out of it (lines
    53-54). *)
Theorem closed_comment_is_cut_out (before body after : str) :
  ~ In 60%N before -> ~ In NL body -> ~ In 62%N body -> ~ In 60%N after ->
  html_comments (before ++ u "<!--" ++ body ++ u "-->" ++ after)
  = Some (before ++ after).
Proof.
  intros Hbefore Hnl Hno Hafter. unfold html_comments.
  rewrite (contains_middle (u "<!--") before (body ++ u "-->" ++ after)).
  assert (E : contains (u "-->") (before ++ u "<!--" ++ body ++ u "-->" ++ after)
              = true).
  { replace (before ++ u "<!--" ++ body ++ u "-->" ++ after)
      with ((before ++ u "<!--" ++ body) ++ u "-->" ++ after)
      by (now rewrite <- !app_assoc).
    apply contains_middle. }
  rewrite E. cbn [andb]. f_equal.
  change (before ++ u "<!--" ++ body ++ u "-->" ++ after)
    with (before ++ 60%N :: 33%N :: 45%N :: 45%N :: body
            ++ 45%N :: 45%N :: 62%N :: after).
  unfold re_sub, start. rewrite fuel_split.
  rewrite (sub_from_skip_first (char_eqb 60) re_html_comment [] before);
    [|rewrite re_html_comment_eq; cbn [starts_with]; intros x Hx; exact Hx
     |apply Forall_forall; intros x Hx; apply not_eqb; intros ->; contradiction].
  f_equal.
  destruct (comment_match (0 + length before) body after Hnl Hno) as (j & Hj & Hgo).
  rewrite (sub_from_match _ _ _ _ _ _ _ Hgo Hj). cbn [expand flat_map app].
  apply (sub_from_fails_on _ _ _ _ comment_needs_opener).
  now apply absent_forall.
Qed.

Set Implicit Arguments.

(** ** Badge lines *)

Unset Implicit Arguments.

Lemma go_cat_cons (r : regex) (rs : list regex) (c : cursor) (A : Type)
    (k : cursor -> option A) :
  go (Cat (r :: rs)) c k = go r c (fun c' => go (Cat rs) c' k).
Proof. destruct rs; reflexivity. Qed.

(** A literal matches itself. *)
Lemma go_lits (w : str) (A : Type) (k : cursor -> option A) (s : str)
    (cs : list (nat * str)) :
  forall i, go (lits w) (Cursor i (w ++ s) cs) k = k (Cursor (i + length w) s cs).
Proof.
  unfold lits. induction w as [|x w IH]; intros i.
  - cbn [map Cat go app length]. now rewrite Nat.add_0_r.
  - cbn [map app length]. rewrite go_cat_cons. unfold lit at 1.
    rewrite go_chr, char_eqb_refl, IH. now rewrite Nat.add_succ_r.
Qed.

Lemma go_alt_l (a b : regex) (c : cursor) (A : Type) (k : cursor -> option A) :
  go a c k <> None -> go (Alt a b) c k <> None.
Proof. cbn [go]. unfold orelse. now destruct (go a c k). Qed.

Lemma go_alt_r (a b : regex) (c : cursor) (A : Type) (k : cursor -> option A) :
  go b c k <> None -> go (Alt a b) c k <> None.
Proof. cbn [go]. unfold orelse. now destruct (go a c k). Qed.

Lemma dot_all (s : str) :
  Forall (fun c => c <> NL) s ->
  Forall (fun x => negb (char_eqb x NL) = true) s.
Proof.
  intros H. eapply Forall_impl; [|exact H]. cbv beta. intros x Hx.
  apply negb_true_iff. destruct (char_eqb x NL) eqn:E; [|reflexivity].
  now apply char_eqb_eq in E.
Qed.

(** What line 81 takes for a badge. *)
Lemma badge_matches (indent alt pre host post trail : str) :
  Forall (fun c => isspace c = true) indent ->
  Forall (fun c => isspace c = true) trail ->
  Forall (fun c => c <> NL) alt -> Forall (fun c => c <> NL) pre ->
  Forall (fun c => c <> NL) post ->
  host = u "shields.io" \/ host = u "badge." ->
  matches re_badge
    (indent ++ u "![" ++ alt ++ u "](" ++ pre ++ host ++ post ++ u ")" ++ trail)
  = true.
Proof.
  intros Hindent Htrail Halt Hpre Hpost Hhost.
  unfold matches, re_match, start.
  match goal with
  | |- match ?e with _ => _ end = _ =>
      assert (H : e <> None); [|now destruct e]
  end.
  unfold re_badge, space, dot. cbn [Cat].
  rewrite go_seq, go_bol. cbn [pos Nat.eqb].
  rewrite go_seq. apply go_star_chr_some; [exact Hindent|]. cbv beta.
  rewrite go_seq, go_lits.
  rewrite go_seq. apply go_star_chr_some; [now apply dot_all|]. cbv beta.
  rewrite go_seq, go_lits.
  rewrite go_seq. apply go_star_chr_some; [now apply dot_all|]. cbv beta.
  rewrite go_seq.
  assert (Hrest : forall j,
            go (Seq (Star true (Chr (fun c => negb (char_eqb c NL))))
                  (Seq (lit 41) (Seq (Star true (Chr isspace)) Eol)))
               (Cursor j (post ++ u ")" ++ trail) []) Some <> None).
  { intros j. rewrite go_seq. apply go_star_chr_some; [now apply dot_all|].
    cbv beta. rewrite go_seq. change (u ")" ++ trail) with (41%N :: trail).
    unfold lit. rewrite go_chr, char_eqb_refl, go_seq.
    rewrite <- (app_nil_r trail). apply go_star_chr_some; [exact Htrail|].
    discriminate. }
  destruct Hhost as [-> | ->].
  - apply go_alt_l. rewrite go_lits. apply Hrest.
  - apply go_alt_r. rewrite go_lits. apply Hrest.
Qed.

Lemma strip_bang (indent others : str) :
  Forall (fun c => isspace c = true) indent ->
  exists t, strip (indent ++ 33%N :: others) = 33%N :: t.
Proof.
  intros Hindent. unfold strip, strip_by.
  rewrite (@lstrip_by_run char isspace indent (33%N :: others) Hindent).
  cbn [lstrip_by]. change (isspace 33) with false. cbv iota.
  rewrite rstrip_by_cons_keep by reflexivity. eauto.
Qed.

(** A line that holds a badge and nothing else is left out (lines 81-82). *)
Theorem badge_line_is_dropped
    (i : nat) (st : State) (indent alt pre host post trail : str) :
  skip_yaml st = false -> skip_toc st = false -> in_code_block st = false ->
  Forall (fun c => isspace c = true) indent ->
  Forall (fun c => isspace c = true) trail ->
  Forall (fun c => c <> NL /\ c <> 60%N /\ c <> 62%N) (alt ++ pre ++ post) ->
  host = u "shields.io" \/ host = u "badge." ->
  step i (indent ++ u "![" ++ alt ++ u "](" ++ pre ++ host ++ post ++ u ")" ++ trail)
    st
  = st.
Proof.
  intros Hyaml Htoc Hcode Hindent Htrail Hparts Hhost.
  apply Forall_app in Hparts as [Halt Hparts].
  apply Forall_app in Hparts as [Hpre Hpost].
  assert (Hnl : forall s, Forall (fun c => c <> NL /\ c <> 60%N /\ c <> 62%N) s ->
                          Forall (fun c => c <> NL) s)
    by (intros s Hs; eapply Forall_impl; [|exact Hs]; cbv beta; tauto).
  pose proof (badge_matches indent alt pre host post trail Hindent Htrail
                (Hnl _ Halt) (Hnl _ Hpre) (Hnl _ Hpost) Hhost) as Hbadge.
  set (line := indent ++ u "![" ++ alt ++ u "](" ++ pre ++ host ++ post
                 ++ u ")" ++ trail) in *.
  assert (Hangle : Forall (fun c => c <> 60%N /\ c <> 62%N) line).
  { assert (Hsp : forall s, Forall (fun c => isspace c = true) s ->
                            Forall (fun c => c <> 60%N /\ c <> 62%N) s).
    { intros s Hs. eapply Forall_impl; [|exact Hs]. cbv beta.
      intros c Hc. split; intros ->; discriminate. }
    assert (Hp : forall s, Forall (fun c => c <> NL /\ c <> 60%N /\ c <> 62%N) s ->
                           Forall (fun c => c <> 60%N /\ c <> 62%N) s)
      by (intros s Hs; eapply Forall_impl; [|exact Hs]; cbv beta; tauto).
    assert (Hh : Forall (fun c => c <> 60%N /\ c <> 62%N) host).
    { destruct Hhost as [-> | ->]; apply Forall_forall; intros c Hc;
        vm_compute in Hc;
        repeat (destruct Hc as [<-|Hc]; [split; discriminate|]); contradiction. }
    unfold line. change (u "![") with [33; 91]%N. change (u "](") with [93; 40]%N.
    change (u ")") with [41%N].
    repeat (apply Forall_app; split); auto;
      repeat (constructor; [split; discriminate|]); constructor. }
  assert (Habsent : forall (p : str) (x : char),
            In x p -> x = 60%N \/ x = 62%N -> contains p line = false).
  { intros p x Hx Hx'. destruct (contains p line) eqn:E; [|reflexivity].
    exfalso. pose proof (contains_in p line x E Hx) as Hin.
    apply (proj1 (Forall_forall _ _) Hangle) in Hin. destruct Hx'; tauto. }
  assert (Hreach : reaches_fence_rule line).
  { split; [apply (Habsent _ 60%N); [now left | now left]|].
    split; [apply (Habsent _ 62%N); [right; right; now left | now right]|].
    destruct (matches re_toc_start line) eqn:E; [|reflexivity]. exfalso.
    apply toc_start_head in E as [line' E]. unfold line in E.
    change (u "![") with [33; 91]%N in E.
    destruct indent as [|x indent]; cbn [app] in E; [discriminate|].
    injection E as -> _. now inversion Hindent. }
  destruct (strip_bang indent (91%N :: alt ++ u "](" ++ pre ++ host ++ post
                                 ++ u ")" ++ trail) Hindent) as [t Hstrip].
  change (indent ++ 33%N :: 91%N :: alt ++ u "](" ++ pre ++ host ++ post
            ++ u ")" ++ trail) with line in Hstrip.
  rewrite step_in_block; try assumption.
  - now rewrite Hstrip, Hcode, Hbadge.
  - rewrite Hstrip. apply andb_false_r.
Qed.

Set Implicit Arguments.

(** ** Full table rows *)

Unset Implicit Arguments.

(** Nothing is replaced where a search for the pattern finds nothing. *)
Lemma sub_from_unfound (r : regex) (tpl : list piece) :
  forall (s : str) (i fuel : nat) (cs : list (nat * str)),
    search_from r i s = false ->
    sub_from fuel r tpl (Cursor i s cs) = s.
Proof.
  induction s as [|x s IH]; intros i fuel cs H; (destruct fuel as [|fuel]; [reflexivity|]);
    cbn [sub_from pos rest]; cbn [search_from] in H;
    destruct (go r (Cursor i _ []) Some); try discriminate H; [reflexivity|].
  f_equal. now apply IH.
Qed.

Lemma re_sub_unfound (r : regex) (tpl : list piece) (s : str) :
  re_search r s = false -> re_sub r tpl s = s.
Proof. intros H. unfold re_sub, start. now apply sub_from_unfound. Qed.

(** The inline rules leave a line as it is when none of their patterns
    finds a match in it. *)
Lemma inline_markup_unmatched (line : str) :
  unmatched line = true -> inline_markup line = line.
Proof.
  unfold unmatched, inline_patterns. cbn [forallb]. intros H.
  repeat (apply andb_true_iff in H as [?H H]).
  repeat match goal with
         | Hn : negb _ = true |- _ => apply negb_true_iff in Hn
         end.
  unfold inline_markup. cbv zeta.
  repeat match goal with
         | Hn : re_search ?r line = false |- _ =>
             rewrite (re_sub_unfound r _ line Hn); clear Hn
         end.
  reflexivity.
Qed.

Lemma comment_free_line (line : str) :
  comment_free line = true -> html_comments line = Some line.
Proof.
  unfold comment_free, html_comments. intros H.
  apply andb_true_iff in H as [Hopen Hclose].
  apply negb_true_iff in Hopen, Hclose. now rewrite Hopen, Hclose.
Qed.

(** White space at both ends goes when a line is stripped. *)
Lemma rstrip_by_run {A} (p : A -> bool) (a b : list A) :
  Forall (fun x => p x = true) b -> rstrip_by p (a ++ b) = rstrip_by p a.
Proof.
  intros Hb. unfold rstrip_by. rewrite rev_app_distr. f_equal.
  apply lstrip_by_run. apply Forall_forall. intros x Hx.
  apply in_rev in Hx. exact (proj1 (Forall_forall _ _) Hb x Hx).
Qed.

Lemma strip_by_core {A} (p : A -> bool) (a b m : list A) (x y : A) :
  Forall (fun c => p c = true) a -> Forall (fun c => p c = true) b ->
  p x = false -> p y = false ->
  strip_by p (a ++ (x :: m ++ [y]) ++ b) = x :: m ++ [y].
Proof.
  intros Ha Hb Hx Hy. unfold strip_by.
  rewrite (@lstrip_by_run _ p a _ Ha). cbn [app lstrip_by]. rewrite Hx.
  change (x :: (m ++ [y]) ++ b) with ((x :: m ++ [y]) ++ b).
  rewrite (rstrip_by_run p _ b Hb).
  change (x :: m ++ [y]) with ((x :: m) ++ [y]).
  rewrite rstrip_by_snoc. now rewrite Hy.
Qed.

Lemma full_row_shape (indent : str) (cells : list str) (trail : str) :
  full_row indent cells trail
  = indent ++ (124%N :: join [124%N] cells ++ [124%N]) ++ trail.
Proof. unfold full_row. cbn [app]. now rewrite <- !app_assoc. Qed.

Lemma strip_full_row (indent : str) (cells : list str) (trail : str) :
  Forall (fun c => isspace c = true) indent ->
  Forall (fun c => isspace c = true) trail ->
  strip (full_row indent cells trail) = 124%N :: join [124%N] cells ++ [124%N].
Proof.
  intros Hindent Htrail. rewrite full_row_shape.
  apply strip_by_core; (assumption || reflexivity).
Qed.

Lemma lstrip_full_row (indent : str) (cells : list str) (trail : str) :
  Forall (fun c => isspace c = true) indent ->
  exists t, lstrip (full_row indent cells trail) = 124%N :: t.
Proof.
  intros Hindent. rewrite full_row_shape. unfold lstrip.
  rewrite (@lstrip_by_run _ isspace indent _ Hindent). cbn [app lstrip_by].
  change (isspace 124) with false. cbv iota. eauto.
Qed.

(** Bars at both ends of the stripped row stand for empty cells only. *)
Lemma split_cons_sep (c : char) (s : str) : split c (c :: s) = [] :: split c s.
Proof. cbn [split]. now rewrite char_eqb_refl. Qed.

Lemma split_snoc_sep (c : char) (s : str) : split c (s ++ [c]) = split c s ++ [[]].
Proof.
  induction s as [|x s IH].
  - cbn [app split]. now rewrite char_eqb_refl.
  - cbn [app split]. destruct (char_eqb x c); [now rewrite IH|].
    rewrite IH. destruct (split c s) as [|w ws] eqn:E; [|reflexivity].
    pose proof (split_length c s) as Hlen. rewrite E in Hlen. cbn [length] in Hlen. lia.
Qed.

Lemma kept_cells_bar_first (s : str) : kept_cells (124%N :: s) = kept_cells s.
Proof. unfold kept_cells. now rewrite split_cons_sep. Qed.

Lemma kept_cells_bar_last (s : str) : kept_cells (s ++ [124%N]) = kept_cells s.
Proof.
  unfold kept_cells. rewrite split_snoc_sep, map_app, filter_app.
  cbn [map filter]. change (nonempty (strip [])) with false. cbv iota.
  now rewrite app_nil_r.
Qed.

Lemma is_bar (x : char) : existsb (char_eqb x) (u "|") = true -> x = 124%N.
Proof.
  change (u "|") with [124%N]. cbn [existsb]. rewrite orb_false_r.
  apply char_eqb_eq.
Qed.

Lemma kept_cells_lstrip (s : str) :
  kept_cells (lstrip_by (fun c => existsb (char_eqb c) (u "|")) s) = kept_cells s.
Proof.
  induction s as [|x s IH]; [reflexivity|]. cbn [lstrip_by].
  destruct (existsb (char_eqb x) (u "|")) eqn:E; [|reflexivity].
  apply is_bar in E. subst x. now rewrite kept_cells_bar_first.
Qed.

Lemma kept_cells_rstrip (s : str) :
  kept_cells (rstrip_by (fun c => existsb (char_eqb c) (u "|")) s) = kept_cells s.
Proof.
  induction s as [|x s IH] using rev_ind; [reflexivity|].
  rewrite rstrip_by_snoc.
  destruct (existsb (char_eqb x) (u "|")) eqn:E; [|reflexivity].
  apply is_bar in E. subst x. now rewrite kept_cells_bar_last.
Qed.

Lemma kept_cells_join (cells : list str) :
  Forall (fun cell => ~ In 124%N cell) cells ->
  kept_cells (join [124%N] cells) = filter nonempty (map strip cells).
Proof.
  intros Hcells. unfold kept_cells.
  destruct cells as [|cell cells]; [reflexivity|].
  rewrite split_join; [reflexivity | discriminate|].
  intros l Hl. exact (proj1 (Forall_forall _ _) Hcells l Hl).
Qed.

(** The cells of a full row are its trimmed cells that are not empty. *)
Lemma table_cells_full_row (indent : str) (cells : list str) (trail : str) :
  Forall (fun c => isspace c = true) indent ->
  Forall (fun c => isspace c = true) trail ->
  Forall (fun cell => ~ In 124%N cell) cells ->
  table_cells (full_row indent cells trail) = filter nonempty (map strip cells).
Proof.
  intros Hindent Htrail Hcells. unfold table_cells.
  rewrite (strip_full_row indent cells trail Hindent Htrail).
  fold (kept_cells (strip_chars (u "|") (124%N :: join [124%N] cells ++ [124%N]))).
  unfold strip_chars, strip_by.
  rewrite kept_cells_rstrip, kept_cells_lstrip.
  change (124%N :: join [124%N] cells ++ [124%N])
    with ((124%N :: join [124%N] cells) ++ [124%N]).
  rewrite kept_cells_bar_last, kept_cells_bar_first.
  now apply kept_cells_join.
Qed.

Lemma space_not_bang (x : char) : isspace x = true -> char_eqb 33 x = false.
Proof.
  intros Hx. destruct (char_eqb 33 x) eqn:E; [|reflexivity].
  apply char_eqb_eq in E. subst x. discriminate Hx.
Qed.

(** A line whose first character after the white space is a bar is no
    badge line, no heading of a table of contents, no fence and no
    front matter delimiter. *)
Lemma row_not_badge (indent others : str) :
  Forall (fun c => isspace c = true) indent ->
  matches re_badge (indent ++ 124%N :: others) = false.
Proof.
  intros Hindent. unfold matches, re_match, start.
  unfold re_badge, space. rewrite go_cat_cons, go_bol. cbn [pos Nat.eqb].
  rewrite go_cat_cons, go_star_chr_greedy.
  - destruct (span_by_stop isspace indent 124%N others Hindent eq_refl) as [_ E].
    unfold str, char in *. rewrite E. clear E.
    rewrite go_cat_cons. change (lits (u "![")) with (Seq (lit 33) (lit 91)).
    rewrite go_seq. unfold lit at 1. rewrite go_chr. reflexivity.
  - intros i x xs cs Hx.
    rewrite go_cat_cons. change (lits (u "![")) with (Seq (lit 33) (lit 91)).
    rewrite go_seq. unfold lit at 1. rewrite go_chr.
    now rewrite (space_not_bang x Hx).
Qed.

Lemma row_not_toc_start (indent others : str) :
  Forall (fun c => isspace c = true) indent ->
  matches re_toc_start (indent ++ 124%N :: others) = false.
Proof.
  intros Hindent.
  destruct (matches re_toc_start (indent ++ 124%N :: others)) eqn:E; [|reflexivity].
  apply toc_start_head in E as [line' E]. exfalso.
  destruct indent as [|x indent]; [discriminate E|].
  injection E as -> _. inversion Hindent as [|? ? Hx _]. discriminate Hx.
Qed.

(** What line 116 takes for a row. *)
Lemma full_row_matches (indent : str) (cells : list str) (trail : str) :
  Forall (fun c => isspace c = true) indent ->
  Forall (fun c => isspace c = true) trail ->
  Forall (fun c => c <> NL) (join [124%N] cells) ->
  matches re_table_row (full_row indent cells trail) = true.
Proof.
  intros Hindent Htrail Hnl. unfold matches, re_match, start.
  match goal with
  | |- match ?e with _ => _ end = _ =>
      assert (H : e <> None); [|now destruct e]
  end.
  unfold full_row.
  rewrite re_table_row_eq, go_seq, go_bol. cbn [pos Nat.eqb].
  rewrite go_seq. apply go_star_chr_some; [exact Hindent|]. cbv beta.
  cbn [app]. rewrite go_seq, go_chr. change (char_eqb 124 124) with true. cbv iota.
  rewrite go_seq. apply go_star_chr_some; [now apply dot_all|]. cbv beta.
  cbn [app]. rewrite go_seq, go_chr. change (char_eqb 124 124) with true. cbv iota.
  rewrite go_seq. rewrite <- (app_nil_r trail).
  apply go_star_chr_some; [exact Htrail|]. discriminate.
Qed.

(** The characters of a separator row are not looked for by any rule
    before the table rule. *)
Lemma separator_char_high (c : char) :
  (9728 <= c)%N -> c <> 12288%N -> separator_char c = false.
Proof.
  intros Hc Hnot. unfold separator_char, isspace.
  change (u "|-:") with [124; 45; 58]%N. cbn [existsb]. unfold char_eqb.
  repeat match goal with
         | |- context [(?a <=? ?b)%N] =>
             first [ replace (a <=? b)%N with true
                       by (symmetry; apply N.leb_le; lia)
                   | replace (a <=? b)%N with false
                       by (symmetry; apply N.leb_gt; lia) ]
         | |- context [(?a =? ?b)%N] =>
             replace (a =? b)%N with false by (symmetry; apply N.eqb_neq; lia)
         end.
  reflexivity.
Qed.

Lemma separator_char_plain (c : char) :
  separator_char c = true ->
  inline_char c = false /\ c <> 35%N /\ c <> 96%N /\ c <> 60%N /\ c <> 62%N.
Proof.
  intros H.
  assert (Hnot : forall x, separator_char x = false -> c <> x)
    by (intros x Hx ->; congruence).
  split; [|repeat split; apply Hnot; reflexivity].
  destruct (inline_char c) eqn:E; [exfalso | reflexivity].
  unfold inline_char in E. change (u "[*_") with [91; 42; 95]%N in E.
  cbn [existsb] in E.
  repeat (apply orb_true_iff in E as [E|E]);
    try (apply char_eqb_eq in E; revert E; apply Hnot; reflexivity);
    try discriminate E;
    apply andb_true_iff in E as [E1 E2];
    apply N.leb_le in E1, E2;
    rewrite separator_char_high in H by lia; discriminate H.
Qed.

Lemma full_row_head (indent : str) (cells : list str) (trail : str) :
  full_row indent cells trail
  = indent ++ 124%N :: (join [124%N] cells ++ [124%N] ++ trail).
Proof. reflexivity. Qed.

Lemma full_row_bar (indent : str) (cells : list str) (trail : str) :
  In 124%N (full_row indent cells trail).
Proof. rewrite full_row_head. apply in_or_app. right. now left. Qed.

Lemma full_row_cells_in (indent : str) (cells : list str) (trail : str) (c : char) :
  In c (join [124%N] cells) -> In c (full_row indent cells trail).
Proof.
  intros H. rewrite full_row_head. apply in_or_app. right. right.
  apply in_or_app. now left.
Qed.

(** Outside code and the skipped regions, a full row in which no earlier
    rule finds anything reaches the table rule as it is. *)
Lemma step_full_row (i : nat) (st : State) (indent : str) (cells : list str)
    (trail : str) :
  skip_yaml st = false -> skip_toc st = false -> in_code_block st = false ->
  Forall (fun c => isspace c = true) indent ->
  Forall (fun c => isspace c = true) trail ->
  comment_free (full_row indent cells trail) = true ->
  unmatched (full_row indent cells trail) = true ->
  step i (full_row indent cells trail) st
  = table_or_text (full_row indent cells trail) st.
Proof.
  intros Hyaml Htoc Hcode Hindent Htrail Hcomment Hunmatched. unfold step.
  rewrite (bar_not_yaml _ (full_row_bar indent cells trail)), andb_false_r, Hyaml.
  assert (Hstart : matches re_toc_start (full_row indent cells trail) = false)
    by (rewrite full_row_head; now apply row_not_toc_start).
  rewrite Hstart, Htoc. cbn [andb]. rewrite Htoc.
  unfold handle_line. rewrite (comment_free_line _ Hcomment).
  rewrite (strip_full_row indent cells trail Hindent Htrail).
  change (startswith fence (124%N :: join [124%N] cells ++ [124%N])) with false.
  cbv iota. rewrite Hcode.
  assert (Hbadge : matches re_badge (full_row indent cells trail) = false)
    by (rewrite full_row_head; now apply row_not_badge).
  rewrite Hbadge, (inline_markup_unmatched _ Hunmatched).
  unfold clamp_heading.
  destruct (lstrip_full_row indent cells trail Hindent) as [t ->].
  reflexivity.
Qed.

(** C6, as the code has it: the example of the specification; outside
    code blocks and the skipped regions, a separator row of two or more
    cells puts out nothing, and a full row (white space, a bar, cells
    with a bar between them, a bar, white space) that is not a separator,
    holds no backtick and no comment delimiter, and in which no inline
    pattern finds a match, is put out as one bulleted line of its
    trimmed cells that are not empty, joined by dashes, or as nothing
    when it has none. *)
Theorem table_rows_become_bullets
    (i : nat) (st : State) (row indent trail : str) (cells : list str) :
  process_markdown_content (doc ["| A | B |"; "|---|---|"; "| 1 | 2 |"]%string)
    = Ok (doc ["• A — B"; "• 1 — 2"]%string)
  /\ (skip_yaml st = false -> skip_toc st = false -> in_code_block st = false ->
      (matches re_table_separator row = true -> step i row st = st)
      /\ (row = full_row indent cells trail ->
          Forall (fun c => isspace c = true) indent ->
          Forall (fun c => isspace c = true) trail ->
          Forall (fun cell => ~ In 124%N cell) cells ->
          ~ In NL row ->
          contains (u "`") row = false ->
          comment_free row = true -> unmatched row = true ->
          matches re_table_separator row = false ->
          step i row st =
            match filter nonempty (map strip cells) with
            | [] => st
            | (_ :: _) as trimmed => emit (u "• " ++ join (u " — ") trimmed) st
            end)).
Proof.
  split; [vm_compute; reflexivity|].
  intros Hyaml Htoc Hcode. split.
  - intros Hsep.
    pose proof (matches_has_bar _ table_separator_needs_bar Hsep) as Hbar.
    assert (Hplain : plain row = true).
    { apply plain_of_chars. apply Forall_forall. intros c Hc.
      apply separator_char_plain.
      destruct (separator_char c) eqn:E; [reflexivity|].
      rewrite (table_separator_chars _ c Hc E) in Hsep. discriminate Hsep. }
    rewrite step_plain; try assumption;
      [|now rewrite (bar_not_yaml _ Hbar), andb_false_r].
    unfold table_or_text. rewrite (table_rule_applies _ st Hbar Hplain Hcode).
    now rewrite Hsep.
  - intros -> Hindent Htrail Hcells Hnl Htick Hcomment Hunmatched Hsep.
    rewrite (step_full_row i st indent cells trail Hyaml Htoc Hcode Hindent Htrail
               Hcomment Hunmatched).
    unfold table_or_text.
    rewrite (contains_bar _ (full_row_bar indent cells trail)), Hcode, Htick, Hsep.
    cbn [negb andb].
    rewrite (full_row_matches indent cells trail Hindent Htrail).
    + rewrite (table_cells_full_row indent cells trail Hindent Htrail Hcells).
      destruct (filter nonempty (map strip cells)); reflexivity.
    + apply Forall_forall. intros c Hc ->. apply Hnl.
      now apply full_row_cells_in.
Qed.

Set Implicit Arguments.

(** ** Prose *)

Unset Implicit Arguments.

(** Lines 129-138 keep the first two lines of every run of blank lines. *)
Lemma cap_blank_runs_fresh (before2 : bool) (lines : list str) :
  cap_blank_runs before2 false lines = cap_blank_runs false false lines.
Proof.
  destruct lines as [|line lines]; [reflexivity|]. cbn [cap_blank_runs].
  now rewrite !andb_false_r.
Qed.

Lemma collapse_is_cap (lines : list str) :
  forall n,
    collapse_blank_lines n lines = cap_blank_runs (2 <=? n) (1 <=? n) lines.
Proof.
  induction lines as [|line lines IH]; intros n; [reflexivity|].
  cbn [collapse_blank_lines cap_blank_runs]. destruct (blank line).
  - rewrite (IH (S n)). destruct n as [|[|n]]; reflexivity.
  - rewrite (IH 0). cbn [andb]. f_equal.
    symmetry. apply cap_blank_runs_fresh.
Qed.

Lemma tidy_eq (lines : list str) :
  tidy lines = strip_by blank (collapse_blank_lines 0 (map squeeze lines)).
Proof. unfold tidy. now rewrite collapse_is_cap. Qed.

(** What [quiet] says, part by part. *)
Lemma quiet_parts (line : str) :
  quiet line = true ->
  comment_free line = true
  /\ matches re_toc_start line = false
  /\ startswith fence (strip line) = false
  /\ matches re_badge line = false
  /\ unmatched line = true
  /\ startswith (u "#") (lstrip line)
     && (re_search re_heading_tail line || re_search re_heading_deep line) = false
  /\ contains (u "|") line && negb (contains (u "`") line)
     && (matches re_table_separator line || matches re_table_row line) = false
  /\ re_search re_footer line = false.
Proof.
  unfold quiet. intros H.
  apply andb_true_iff in H as [H H9]. apply andb_true_iff in H as [H H8].
  apply andb_true_iff in H as [H H7]. apply andb_true_iff in H as [H H6].
  apply andb_true_iff in H as [H H5]. apply andb_true_iff in H as [H H4].
  apply andb_true_iff in H as [H1 H3].
  apply negb_true_iff in H3, H4, H5, H7, H8, H9.
  repeat split; assumption.
Qed.

Lemma clamp_heading_quiet (line : str) :
  startswith (u "#") (lstrip line)
  && (re_search re_heading_tail line || re_search re_heading_deep line) = false ->
  clamp_heading line = line.
Proof.
  intros H. unfold clamp_heading.
  destruct (startswith (u "#") (lstrip line)); [|reflexivity].
  cbn [andb] in H. apply orb_false_iff in H as [Htail Hdeep].
  rewrite (re_sub_unfound re_heading_tail [] line Htail).
  exact (re_sub_unfound re_heading_deep tpl_heading_deep line Hdeep).
Qed.

Lemma table_or_text_quiet (line : str) (st : State) :
  in_code_block st = false ->
  contains (u "|") line && negb (contains (u "`") line)
  && (matches re_table_separator line || matches re_table_row line) = false ->
  table_or_text line st = emit (squeeze line) st.
Proof.
  intros Hcode H. unfold table_or_text. cbv zeta.
  rewrite Hcode, (re_sub_blanks line). cbn [negb].
  destruct (contains (u "|") line); [|reflexivity].
  destruct (contains (u "`") line); [reflexivity|].
  cbn [andb negb] in *.
  apply orb_false_iff in H as [-> ->]. reflexivity.
Qed.

(** Outside code and the skipped regions, such a line is put out with
    its blanks collapsed, unless it is the first line and a front matter
    delimiter. *)
Lemma step_quiet (i : nat) (line : str) (st : State) :
  skip_yaml st = false -> skip_toc st = false -> in_code_block st = false ->
  quiet line = true ->
  (i =? 0) && str_eqb (strip line) yaml_delimiter = false ->
  step i line st = emit (squeeze line) st.
Proof.
  intros Hyaml Htoc Hcode Hquiet Hfirst.
  destruct (quiet_parts line Hquiet)
    as (Hcomment & Hstart & Hfence & Hbadge & Hnone & Hhead & Htable & _).
  unfold step. rewrite Hfirst, Hyaml, Hstart, Htoc.
  cbn [andb]. rewrite Htoc.
  unfold handle_line. rewrite (comment_free_line line Hcomment).
  rewrite Hfence, Hcode, Hbadge, (inline_markup_unmatched line Hnone).
  rewrite (clamp_heading_quiet line Hhead).
  exact (table_or_text_quiet line st Hcode Htable).
Qed.

Lemma run_quiet (lines : list str) :
  Forall (fun line => quiet line = true) lines ->
  forall (i : nat) (st : State),
    skip_yaml st = false -> skip_toc st = false -> in_code_block st = false ->
    (i = 0 -> match lines with
              | first :: _ => str_eqb (strip first) yaml_delimiter = false
              | [] => True
              end) ->
    output (run i lines st) = output st ++ map squeeze lines.
Proof.
  induction 1 as [|line lines Hline _ IH]; intros i st Hyaml Htoc Hcode Hfirst.
  - cbn [run map]. now rewrite app_nil_r.
  - cbn [run map]. rewrite (step_quiet i line st Hyaml Htoc Hcode Hline).
    + rewrite IH; try assumption; [|discriminate].
      cbn [output emit]. now rewrite <- app_assoc.
    + destruct i as [|i]; [|reflexivity].
      cbn [Nat.eqb andb]. now apply Hfirst.
Qed.

Lemma prose_line_parts (line : str) :
  prose_line line = true -> quiet line = true /\ quiet (squeeze line) = true.
Proof. unfold prose_line. apply andb_true_iff. Qed.

Lemma rewrite_lines_prose (lines : list str) :
  Forall (fun line => prose_line line = true) lines ->
  match lines with
  | first :: _ => str_eqb (strip first) yaml_delimiter = false
  | [] => True
  end ->
  rewrite_lines lines = Ok (join [NL] (tidy lines)).
Proof.
  intros Hlines Hfirst. unfold rewrite_lines.
  rewrite (run_quiet lines); try reflexivity.
  - cbn [output initial app]. rewrite tidy_eq.
    apply finish_no_footer.
    intros line Hin. apply in_map_iff in Hin as (l & <- & Hl).
    apply (proj1 (Forall_forall _ _) Hlines) in Hl.
    apply prose_line_parts in Hl as [_ Hl].
    now apply quiet_parts in Hl.
  - eapply Forall_impl; [|exact Hlines]. cbv beta.
    intros l Hl. exact (proj1 (prose_line_parts l Hl)).
  - intros _. exact Hfirst.
Qed.

(** A line is blank when it is made of white space, and stays so when
    its blanks are collapsed. *)
Lemma blank_all (line : str) : blank line = forallb isspace line.
Proof.
  unfold blank, strip, strip_by.
  induction line as [|x line IH]; [reflexivity|].
  cbn [lstrip_by forallb]. destruct (isspace x) eqn:Hx; [exact IH|].
  now rewrite (rstrip_by_cons_keep isspace x line Hx).
Qed.

Lemma squeeze_all_space (line : str) :
  forallb isspace (squeeze line) = forallb isspace line.
Proof.
  induction line as [|x line IH]; [reflexivity|].
  rewrite squeeze_cons. destruct (is_blank x) eqn:Hx.
  - cbn [forallb]. rewrite (is_blank_space x Hx). cbn [andb].
    destruct line as [|y line]; [reflexivity|].
    destruct (is_blank y); [exact IH|].
    cbn [forallb] in *. exact IH.
  - cbn [forallb]. now rewrite IH.
Qed.

Lemma blank_squeeze (line : str) : blank (squeeze line) = blank line.
Proof. rewrite !blank_all. apply squeeze_all_space. Qed.

(** The first line of the collapsed text is the first line that is not
    blank, with its blanks collapsed. *)
Lemma lstrip_by_head {A} (p : A -> bool) (s : list A) (x : A) (r : list A) :
  lstrip_by p s = x :: r -> p x = false.
Proof.
  induction s as [|y s IH]; [discriminate|]. cbn [lstrip_by].
  destruct (p y) eqn:Hy; [exact IH|]. intros E. injection E as <- _. exact Hy.
Qed.

Lemma strip_by_first {A} (p : A -> bool) (s : list A) (t : A) (ts : list A) :
  strip_by p s = t :: ts -> exists r, lstrip_by p s = t :: r.
Proof.
  unfold strip_by. destruct (lstrip_by p s) as [|x r] eqn:E; [discriminate|].
  rewrite (rstrip_by_cons_keep p x r (lstrip_by_head p s x r E)).
  intros H. injection H as <- _. eauto.
Qed.

Lemma lstrip_collapse (lines : list str) :
  forall n,
    hd_error (lstrip_by blank (collapse_blank_lines n lines))
    = hd_error (lstrip_by blank lines).
Proof.
  induction lines as [|line lines IH]; intros n; [reflexivity|].
  cbn [collapse_blank_lines lstrip_by]. destruct (blank line) eqn:Hline.
  - destruct (S n <=? 2); [cbn [lstrip_by]; rewrite Hline|]; apply IH.
  - cbn [lstrip_by]. now rewrite Hline.
Qed.

Lemma lstrip_squeezed (lines : list str) :
  lstrip_by blank (map squeeze lines) = map squeeze (lstrip_by blank lines).
Proof.
  induction lines as [|line lines IH]; [reflexivity|].
  cbn [map lstrip_by]. rewrite blank_squeeze.
  destruct (blank line); [exact IH | reflexivity].
Qed.

Lemma tidy_first (lines : list str) (t : str) (ts : list str) :
  tidy lines = t :: ts ->
  exists first others, lstrip_by blank lines = first :: others /\ t = squeeze first.
Proof.
  rewrite tidy_eq. intros H. apply strip_by_first in H as [r H].
  apply (f_equal (@hd_error str)) in H.
  rewrite lstrip_collapse, lstrip_squeezed in H.
  destruct (lstrip_by blank lines) as [|first others]; [discriminate H|].
  cbn [map hd_error] in H. injection H as <-. eauto.
Qed.

Lemma opens_with_text_first (lines : list str) :
  opens_with_text lines = true ->
  match lines with
  | first :: _ => str_eqb (strip first) yaml_delimiter = false
  | [] => True
  end.
Proof.
  unfold opens_with_text. destruct lines as [|first others]; [trivial|].
  cbn [lstrip_by]. destruct (blank first) eqn:Hblank.
  - intros _. unfold blank in Hblank. apply str_eqb_eq in Hblank.
    now rewrite Hblank.
  - unfold delimiter. intros H. apply negb_true_iff in H.
    now apply orb_false_iff in H.
Qed.

Lemma tidy_incl (lines : list str) (line : str) :
  In line (tidy lines) -> exists l, In l lines /\ line = squeeze l.
Proof.
  rewrite tidy_eq. intros H.
  apply strip_by_incl, collapse_blank_lines_incl, in_map_iff in H.
  destruct H as (l & <- & Hl). eauto.
Qed.

Lemma map_squeeze_tidy (lines : list str) :
  map squeeze (tidy lines) = tidy lines.
Proof.
  rewrite <- (map_id (tidy lines)) at 2. apply map_ext_in.
  intros line Hin. apply tidy_incl in Hin as (l & _ & ->). apply squeeze_idem.
Qed.

(** Collapsing twice is collapsing once. *)
Lemma tidy_fixed (lines : list str) : tidy (tidy lines) = tidy lines.
Proof.
  rewrite (tidy_eq (tidy lines)), map_squeeze_tidy.
  assert (Hok : runs_ok 0 (tidy lines) = true).
  { rewrite tidy_eq. apply runs_ok_strip, collapse_runs_ok. }
  rewrite (runs_ok_fixed _ _ Hok). rewrite tidy_eq. apply strip_by_idem.
Qed.

(** C4, as the code has it: on prose no line of which any rule takes for
    anything, as the line is written or once its blanks are collapsed
    (no comment delimiter; no heading of a table of contents, code fence
    or badge line; no match of an image, link, symbol or emphasis
    pattern; no heading closed by heading markers or deeper than three
    levels; no table row or separator row; no footer line), and the
    first line of which that is not blank is no front matter delimiter,
    the rewriting only collapses white space: runs of blanks to one
    space in every line, runs of blank lines to their first two lines,
    no blank line at either end; and rewriting its result again leaves
    it as it is. *)
Theorem rewrite_idempotent_on_prose (content : str) :
  Forall (fun line => prose_line line = true) (split NL content) ->
  opens_with_text (split NL content) = true ->
  exists once,
    once = join [NL] (tidy (split NL content))
    /\ process_markdown_content content = Ok once
    /\ process_markdown_content once = Ok once.
Proof.
  intros Hlines Hopens.
  exists (join [NL] (tidy (split NL content))).
  split; [reflexivity|]. split.
  - unfold process_markdown_content.
    apply rewrite_lines_prose; [exact Hlines|].
    now apply opens_with_text_first.
  - destruct (tidy (split NL content)) as [|t ts] eqn:E.
    + apply rewrite_empty.
    + unfold process_markdown_content. rewrite <- E.
      rewrite split_join.
      * rewrite rewrite_lines_prose; [now rewrite tidy_fixed| |].
        -- apply Forall_forall. intros line Hin.
           apply tidy_incl in Hin as (l & Hl & ->).
           apply (proj1 (Forall_forall _ _) Hlines) in Hl.
           apply prose_line_parts in Hl as [_ Hl].
           unfold prose_line. now rewrite squeeze_idem, Hl.
        -- rewrite E.
           destruct (tidy_first _ _ _ E) as (first & others & Hfirst & ->).
           unfold opens_with_text in Hopens. rewrite Hfirst in Hopens.
           unfold delimiter in Hopens. apply negb_true_iff in Hopens.
           now apply orb_false_iff in Hopens.
      * rewrite E. discriminate.
      * intros line Hin HNL.
        apply tidy_incl in Hin as (l & Hl & ->).
        apply squeeze_in in HNL as [HNL|HNL]; [discriminate HNL|].
        now apply (split_no_sep _ _ _ Hl).
Qed.

Set Implicit Arguments.

(** ** Fences that are left open *)

Unset Implicit Arguments.

Lemma comment_cut_keeps_head (x : char) (line : str) :
  x <> 60%N ->
  exists line', re_sub re_html_comment [] (x :: line) = x :: line'.
Proof.
  intros Hx. unfold re_sub, start. cbn [length].
  rewrite sub_from_skip; [eauto|].
  apply (go_first (char_eqb 60) re_html_comment).
  - rewrite re_html_comment_eq. cbn [starts_with]. intros y Hy. exact Hy.
  - apply not_eqb. intros E. apply Hx. now symmetry.
Qed.

(** A fence line is neither a front matter delimiter nor the heading of
    a table of contents. *)
Lemma fence_line_head (line : str) :
  fence_line line = true ->
  str_eqb (strip line) yaml_delimiter = false
  /\ matches re_toc_start line = false.
Proof.
  unfold fence_line, html_comments. intros H.
  assert (Hhash : forall t, startswith fence (strip (35%N :: t)) = false).
  { intros t. unfold strip. rewrite strip_by_cons_keep by reflexivity. reflexivity. }
  destruct (contains (u "<!--") line) eqn:Hopen.
  - destruct (contains (u "-->") line); [|discriminate H]. cbn [andb] in H. split.
    + destruct (str_eqb (strip line) yaml_delimiter) eqn:E; [|reflexivity].
      apply str_eqb_eq in E.
      assert (Hin : In 60%N (strip line)).
      { apply strip_by_keeps; [|reflexivity].
        apply (contains_in (u "<!--") line 60%N Hopen). now left. }
      rewrite E, yaml_delimiter_eq in Hin. cbn [In] in Hin.
      repeat (destruct Hin as [Hin|Hin]; [discriminate|]). contradiction.
    + destruct (matches re_toc_start line) eqn:T; [|reflexivity].
      apply toc_start_head in T as [t ->].
      destruct (comment_cut_keeps_head 35%N t) as [line' E]; [discriminate|].
      unfold char in E. rewrite E in H.
      pose proof (Hhash line') as Hnot. unfold char in Hnot.
      rewrite Hnot in H. discriminate H.
  - cbn [andb] in H. destruct (contains (u "-->") line); [discriminate H|]. split.
    + now apply fence_not_yaml.
    + destruct (matches re_toc_start line) eqn:T; [|reflexivity].
      apply toc_start_head in T as [t ->].
      pose proof (Hhash t) as Hnot. unfold char in Hnot.
      rewrite Hnot in H. discriminate H.
Qed.

(** Outside the skipped regions and outside a block, a fence line opens
    a block and puts out nothing. *)
Lemma step_opens (i : nat) (line : str) (st : State) :
  skip_yaml st = false -> skip_toc st = false -> in_code_block st = false ->
  fence_line line = true ->
  output (step i line st) = output st
  /\ skip_yaml (step i line st) = false
  /\ skip_toc (step i line st) = false
  /\ in_code_block (step i line st) = true.
Proof.
  intros Hyaml Htoc Hcode Hfence.
  destruct (fence_line_head line Hfence) as [Hdelim Hstart].
  unfold step. rewrite Hdelim, andb_false_r, Hyaml, Hstart, Htoc.
  cbn [andb]. rewrite Htoc.
  unfold handle_line. unfold fence_line in Hfence.
  destruct (html_comments line) as [line'|]; [|discriminate Hfence].
  rewrite Hfence. unfold toggle_fence. rewrite Hcode. cbn [negb].
  cbn [output skip_yaml skip_toc in_code_block]. now repeat split.
Qed.

(** Inside a block a line that is no fence line puts out nothing and
    leaves the block open. *)
Lemma handle_line_in_block (line : str) (st : State) :
  in_code_block st = true -> fence_line line = false ->
  output (handle_line line st) = output st
  /\ skip_yaml (handle_line line st) = skip_yaml st
  /\ skip_toc (handle_line line st) = skip_toc st
  /\ in_code_block (handle_line line st) = true.
Proof.
  intros Hcode Hfence. unfold handle_line. unfold fence_line in Hfence.
  destruct (html_comments line) as [line'|]; [|now repeat split].
  rewrite Hfence, Hcode. unfold buffer_code.
  cbn [output skip_yaml skip_toc in_code_block]. now repeat split.
Qed.

Lemma step_stays_open (i : nat) (line : str) (later : list str) (st : State) :
  0 < i -> skip_yaml st = false -> in_code_block st = true ->
  stays_open (skip_toc st) (line :: later) = true ->
  output (step i line st) = output st
  /\ skip_yaml (step i line st) = false
  /\ in_code_block (step i line st) = true
  /\ stays_open (skip_toc (step i line st)) later = true.
Proof.
  intros Hi Hyaml Hcode Hopen. cbn [stays_open] in Hopen. unfold step.
  replace (i =? 0) with false by (symmetry; apply Nat.eqb_neq; lia).
  cbn [andb]. rewrite Hyaml.
  destruct (matches re_toc_start line).
  { cbn [set_skip_toc output skip_yaml skip_toc in_code_block]. now repeat split. }
  destruct (skip_toc st) eqn:Htoc; cbn [andb] in *.
  - destruct (matches re_toc_end line); cbn [negb andb] in Hopen.
    + cbn [set_skip_toc skip_toc].
      apply andb_true_iff in Hopen as [Hline Hopen]. apply negb_true_iff in Hline.
      destruct (handle_line_in_block line (set_skip_toc false st) Hcode Hline)
        as (H1 & H2 & H3 & H4).
      rewrite H1, H2, H3, H4. cbn [set_skip_toc output skip_yaml skip_toc].
      now repeat split.
    + rewrite Htoc. cbv iota. rewrite Htoc. now repeat split.
  - rewrite Htoc. cbv iota.
    apply andb_true_iff in Hopen as [Hline Hopen]. apply negb_true_iff in Hline.
    destruct (handle_line_in_block line st Hcode Hline) as (H1 & H2 & H3 & H4).
    rewrite H1, H2, H3, H4, Htoc. now repeat split.
Qed.

Lemma run_stays_open (later : list str) :
  forall (i : nat) (st : State),
    0 < i -> skip_yaml st = false -> in_code_block st = true ->
    stays_open (skip_toc st) later = true ->
    output (run i later st) = output st.
Proof.
  induction later as [|line later IH]; intros i st Hi Hyaml Hcode Hopen;
    [reflexivity|].
  cbn [run].
  destruct (step_stays_open i line later st Hi Hyaml Hcode Hopen)
    as (Hout & Hyaml' & Hcode' & Hopen').
  rewrite IH by (lia || assumption). exact Hout.
Qed.

(** C9, as the code has it: when a fence line (a line that, once its
    closed comments are cut out and it is stripped, starts with three
    backticks, and that holds no comment delimiter left alone) is met
    outside front matter, outside a suppressed table of contents and
    outside a block, and no later line closes the block (each later
    fence line lies where a heading of a table of contents suppresses
    the lines), the output is that of the lines before the fence: the
    fence line and all that follows are absent. *)
Theorem unclosed_fence_drops_the_rest
    (pre : list str) (opening : str) (post : list str) :
  let before := run 0 pre initial in
  skip_yaml before = false -> skip_toc before = false ->
  in_code_block before = false ->
  fence_line opening = true ->
  stays_open false post = true ->
  rewrite_lines (pre ++ opening :: post) = rewrite_lines pre.
Proof.
  intros before Hyaml Htoc Hcode Hfence Hopen.
  unfold rewrite_lines. f_equal.
  rewrite run_app. cbn [run Nat.add]. fold before.
  destruct (step_opens (length pre) opening before Hyaml Htoc Hcode Hfence)
    as (Hout & Hyaml' & Htoc' & Hcode').
  rewrite run_stays_open; [exact Hout | lia | exact Hyaml' | exact Hcode'|].
  rewrite Htoc'. exact Hopen.
Qed.

Set Implicit Arguments.

(** ** The walk over the source tree *)

Unset Implicit Arguments.

Section WalkProperties.

Context {path world : Type} (host : Host path world).

Lemma rewrite_returns (content : str) :
  exists optimized, process_markdown_content content = Ok optimized.
Proof. apply finish_ok. Qed.

(** Whatever a file holds, it is the host alone that can make
    [process_file] fail: a file that is read, whose directory is made and
    that is written, is written with the rewriting of its content and
    reported on the standard output. *)
Theorem process_file_writes_the_rewriting
    (src_path dst_path : path) (w w1 : world) (log : list printed) (content : str) :
  read_text host src_path w = Done content ->
  mkdir host (parent host dst_path) w = (w1, Done tt) ->
  exists optimized,
    process_markdown_content content = Ok optimized
    /\ forall w2,
         write_text host dst_path optimized w1 = (w2, Done tt) ->
         process_file host src_path dst_path w log
         = (w2, log ++ [Out (u "✔  " ++ path_str host src_path ++ u " -> "
                              ++ path_str host dst_path)]).
Proof.
  intros Hread Hmkdir. destruct (rewrite_returns content) as [optimized E].
  exists optimized. split; [exact E|]. intros w2 Hwrite.
  unfold process_file. now rewrite Hread, E, Hmkdir, Hwrite.
Qed.





End WalkProperties.

Set Implicit Arguments.

(** ** Where the code departs from its documentation *)

(** C1, at inputs where the code does not keep a fenced block as it
    is: an interior line with a comment opener is lost, an interior line
    reading as the heading of a table of contents is lost together with
    the closing fence (so that the whole block is), and of four blank
    interior lines two are left. *)
Theorem code_block_not_preserved :
  process_markdown_content (doc ["```"; "<!-- note"; "```"]%string)
    = Ok (doc ["```"; "```"]%string)
  /\ process_markdown_content
       (doc ["intro"; "```"; "## Table of Contents"; "```"; "text"]%string)
     = Ok (doc ["intro"]%string)
  /\ process_markdown_content
       (doc ["```"; "a"; ""; ""; ""; ""; "b"; "```"]%string)
     = Ok (doc ["```"; "a"; ""; ""; "b"; "```"]%string).
Proof. repeat split; vm_compute; reflexivity. Qed.

(** C2, at the specification's own example: the emphasis markers of the
    footer line are stripped before the footer is looked for, so neither
    that line nor the rule above it is removed. *)
Theorem bold_footer_not_truncated :
  process_markdown_content
    (doc ["content"; ""; "---"; "**Maintained by** Team"]%string)
  = Ok (doc ["content"; ""; "---"; "Maintained by Team"]%string).
Proof. vm_compute. reflexivity. Qed.

(** C7, at an input whose footer is cut: the blank line that stood
    before the footer ends the output. *)
Theorem trailing_blank_after_footer_cut :
  process_markdown_content (doc ["content"; ""; "Maintained by: X"]%string)
  = Ok (doc ["content"; ""]%string).
Proof. vm_compute. reflexivity. Qed.

End Rewriter.

(** ** Instances *)

Lemma toc_suppression_witness :
  run ascii_only 0
    (u "## Table of Contents"
       :: [u "- [Intro](#intro)"; u "## table of contents"; u "# Intro"; u "### Deep"]
       ++ u "## Usage" :: [u "text"]) initial
  = run ascii_only 5 (u "## Usage" :: [u "text"]) (set_skip_toc false initial).
Proof.
  apply (@toc_suppression_ends_at_second_level_heading ascii_only 0 initial
           (u "## Table of Contents")
           [u "- [Intro](#intro)"; u "## table of contents"; u "# Intro"; u "### Deep"]
           (u "## Usage") [u "text"]).
  - reflexivity.
  - vm_compute. reflexivity.
  - constructor; [left; vm_compute; reflexivity|].
    constructor; [right; vm_compute; reflexivity|].
    constructor; [left; vm_compute; reflexivity|].
    constructor; [left; vm_compute; reflexivity|].
    constructor.
  - vm_compute. reflexivity.
  - vm_compute. reflexivity.
Defined.

(** A first-level heading after the table of contents does not bring
    the text back: nothing of this document is put out. *)
Lemma toc_first_level_heading_counterexample :
  for_any_alnum (fun alnum =>
    process_markdown_content alnum
      (doc ["## Table of Contents"; "- [Intro](#intro)"; "# Intro"; "text"]%string)
    = Ok []).
Proof. intros alnum. vm_compute. reflexivity. Qed.

Lemma front_matter_witness :
  process_markdown_content ascii_only (doc ["---"; "Title: X"; "more"]%string) = Ok [].
Proof.
  apply (proj2 (front_matter_is_removed ascii_only)
           (doc ["---"; "Title: X"; "more"]%string)
           (u "---") [u "Title: X"; u "more"]).
  - vm_compute. reflexivity.
  - vm_compute. reflexivity.
  - repeat (constructor; [vm_compute; reflexivity|]). constructor.
Defined.

Lemma unclosed_fence_witness :
  rewrite_lines ascii_only
    ([u "intro"] ++ u "```python <!-- sample -->"
       :: [u "x = 1"; u "## Table of Contents"; u "```"; u "more"])
  = rewrite_lines ascii_only [u "intro"].
Proof.
  apply (@unclosed_fence_drops_the_rest ascii_only
           [u "intro"] (u "```python <!-- sample -->")
           [u "x = 1"; u "## Table of Contents"; u "```"; u "more"]).
  - reflexivity.
  - reflexivity.
  - reflexivity.
  - vm_compute. reflexivity.
  - vm_compute. reflexivity.
Defined.

(** A fence line that a comment left open swallows, or that is met under
    a suppressed table of contents or inside the front matter, opens no
    block: the lines after it are put out. *)
Lemma swallowed_fence_counterexample :
  for_any_alnum (fun alnum =>
    process_markdown_content alnum (doc ["``` <!-- x"; "text"]%string)
      = Ok (u "text")
    /\ process_markdown_content alnum
         (doc ["## Table of Contents"; "```"; "## Usage"; "body"]%string)
       = Ok (doc ["## Usage"; "body"]%string)
    /\ process_markdown_content alnum
         (doc ["---"; "```"; "---"; "body"]%string)
       = Ok (u "body")).
Proof. intros alnum. repeat split; vm_compute; reflexivity. Qed.

Lemma table_rows_witness :
  step ascii_only 3 (u "|:--|--:|") initial = initial
  /\ step ascii_only 3 (full_row (u "  ") [u " #1 "; u "  "; u " x_y z "; u "w"] (u " "))
       initial
     = emit (u "• #1 — x_y z — w") initial.
Proof.
  split.
  - apply (proj1 (proj2 (table_rows_become_bullets ascii_only 3 initial
                           (u "|:--|--:|") [] [] [])
                    eq_refl eq_refl eq_refl)).
    vm_compute. reflexivity.
  - apply (proj2 (proj2 (table_rows_become_bullets ascii_only 3 initial
                    (full_row (u "  ") [u " #1 "; u "  "; u " x_y z "; u "w"] (u " "))
                    (u "  ") (u " ") [u " #1 "; u "  "; u " x_y z "; u "w"])
                    eq_refl eq_refl eq_refl)).
    + reflexivity.
    + repeat constructor.
    + repeat constructor.
    + repeat (constructor;
              [intros H; vm_compute in H;
               repeat (destruct H as [H|H]; [discriminate H|]); exact H|]).
      constructor.
    + intros H. vm_compute in H.
      repeat (destruct H as [H|H]; [discriminate H|]). exact H.
    + vm_compute. reflexivity.
    + vm_compute. reflexivity.
    + vm_compute. reflexivity.
    + vm_compute. reflexivity.
Defined.

(** A full row that holds a backtick is left as it is; the cells of a
    row with emphasis or with a comment are put out without the markers
    and without the comment; a row inside a fenced block is kept, and a
    row under a suppressed table of contents is dropped. *)
Lemma table_row_with_backtick_counterexample :
  for_any_alnum (fun alnum =>
    process_markdown_content alnum (doc ["| `a` | b |"]%string)
      = Ok (doc ["| `a` | b |"]%string)
    /\ process_markdown_content alnum (doc ["| **a** | b |"]%string)
       = Ok (doc ["• a — b"]%string)
    /\ process_markdown_content alnum (doc ["| a <!-- c --> | b |"]%string)
       = Ok (doc ["• a — b"]%string)
    /\ process_markdown_content alnum (doc ["```"; "| a | b |"; "```"]%string)
       = Ok (doc ["```"; "| a | b |"; "```"]%string)
    /\ process_markdown_content alnum
         (doc ["## Table of Contents"; "| a | b |"]%string)
       = Ok []).
Proof. intros alnum. repeat split; vm_compute; reflexivity. Qed.

Lemma rewrite_idempotent_witness :
  exists once,
    once = join [NL]
             (tidy (split NL
                (doc [""; "# Title"; ""; "Hello   world, written in C#"; "";
                      ""; ""; ""; "##  Usage"; "see [1] or [Image: a diagram]";
                      "use snake_case and 2 * 3 = 6"; "a | b"; "| `a` | b |";
                      "---"; "- - -"; ""]%string)))
    /\ process_markdown_content ascii_only
         (doc [""; "# Title"; ""; "Hello   world, written in C#"; "";
               ""; ""; ""; "##  Usage"; "see [1] or [Image: a diagram]";
               "use snake_case and 2 * 3 = 6"; "a | b"; "| `a` | b |";
               "---"; "- - -"; ""]%string) = Ok once
    /\ process_markdown_content ascii_only once = Ok once.
Proof.
  apply (rewrite_idempotent_on_prose ascii_only).
  - replace (split NL
               (doc [""; "# Title"; ""; "Hello   world, written in C#"; "";
                     ""; ""; ""; "##  Usage"; "see [1] or [Image: a diagram]";
                     "use snake_case and 2 * 3 = 6"; "a | b"; "| `a` | b |";
                     "---"; "- - -"; ""]%string))
      with [u ""; u "# Title"; u ""; u "Hello   world, written in C#"; u "";
            u ""; u ""; u ""; u "##  Usage"; u "see [1] or [Image: a diagram]";
            u "use snake_case and 2 * 3 = 6"; u "a | b"; u "| `a` | b |";
            u "---"; u "- - -"; u ""]
      by (vm_compute; reflexivity).
    repeat (constructor; [vm_compute; reflexivity|]). constructor.
  - vm_compute. reflexivity.
Defined.

(** Where rewriting twice is not rewriting once.  A heading closed by two
    groups of [#] is the rewriting of one closed by three, and is
    rewritten to one closed by a single group, which is rewritten again
    to the bare heading.  A heading that collapsing its blanks makes the
    heading of a table of contents, a rule that trimming makes the first
    line, and a comment opener that cutting a comment leaves behind, are
    put out by the first rewriting and make the second drop the rest. *)
Lemma rewrite_twice_counterexample :
  for_any_alnum (fun alnum =>
    (process_markdown_content alnum (doc ["# a # # #"]%string)
       = Ok (doc ["# a # #"]%string)
     /\ process_markdown_content alnum (doc ["# a # #"]%string)
        = Ok (doc ["# a #"]%string)
     /\ process_markdown_content alnum (doc ["# a #"]%string)
        = Ok (doc ["# a"]%string))
    /\ (process_markdown_content alnum (doc ["## Table  of Contents"; "x"]%string)
          = Ok (doc ["## Table of Contents"; "x"]%string)
        /\ process_markdown_content alnum (doc ["## Table of Contents"; "x"]%string)
           = Ok [])
    /\ (process_markdown_content alnum (doc [""; "---"; "a"]%string)
          = Ok (doc ["---"; "a"]%string)
        /\ process_markdown_content alnum (doc ["---"; "a"]%string) = Ok [])
    /\ (process_markdown_content alnum (doc ["x<!<!-- c -->-- y"]%string)
          = Ok (doc ["x<!-- y"]%string)
        /\ process_markdown_content alnum (doc ["x<!-- y"]%string) = Ok [])).
Proof. intros alnum. repeat split; vm_compute; reflexivity. Qed.

Lemma fenced_block_witness :
  run ascii_only 0
    (u "```python" :: [u "x = **1**"; u ""; u "| a | b |"; u "#### deep"] ++ [u "```"])
    initial
  = mkState
      (output initial
         ++ u "```python"
         :: [u "x = **1**"; u ""; u "| a | b |"; u "#### deep"] ++ [u "```"])
      false [] [] false false.
Proof.
  apply (@fenced_block_is_flushed ascii_only 0 initial (u "```python") (u "```")
           [u "x = **1**"; u ""; u "| a | b |"; u "#### deep"]).
  - reflexivity.
  - reflexivity.
  - reflexivity.
  - vm_compute. reflexivity.
  - vm_compute. reflexivity.
  - repeat (constructor; [vm_compute; reflexivity|]). constructor.
  - repeat (constructor; [repeat split; vm_compute; reflexivity|]). constructor.
Defined.

Lemma closed_front_matter_witness :
  process_markdown_content ascii_only
    (doc ["---"; "title: Spec"; "---"; "# Title"; "text"]%string)
  = process_markdown_content ascii_only (join [NL] [u "# Title"; u "text"]).
Proof.
  apply (@closed_front_matter_is_skipped ascii_only
           (doc ["---"; "title: Spec"; "---"; "# Title"; "text"]%string)
           (u "---") (u "---") [u "title: Spec"] [u "# Title"; u "text"]).
  - vm_compute. reflexivity.
  - vm_compute. reflexivity.
  - repeat (constructor; [vm_compute; reflexivity|]). constructor.
  - vm_compute. reflexivity.
  - vm_compute. reflexivity.
Defined.

Lemma footer_window_witness :
  cut_footer (u "Maintained by: nobody" :: repeat (u "text") 16)
    (footer_window (u "Maintained by: nobody" :: repeat (u "text") 16))
  = Ok (u "Maintained by: nobody" :: repeat (u "text") 16).
Proof.
  apply (@footer_is_sought_in_the_last_fifteen_lines
           (u "Maintained by: nobody" :: repeat (u "text") 16)).
  intros i line Hi Hline. cbn [length repeat] in Hi.
  do 2 (destruct i as [|i]; [lia|]).
  do 15 (destruct i as [|i]; [injection Hline as <-; vm_compute; reflexivity|]).
  destruct i; discriminate.
Defined.

Lemma footer_cut_witness :
  cut_footer [u "text"; u "---"; u "Maintained by: A"; u "Maintained by: B"]
    (footer_window [u "text"; u "---"; u "Maintained by: A"; u "Maintained by: B"])
  = Ok [u "text"].
Proof.
  apply (@footer_is_cut_at_the_first_match
           [u "text"; u "---"; u "Maintained by: A"; u "Maintained by: B"]
           2 (u "Maintained by: A")).
  - cbn [length]. lia.
  - reflexivity.
  - vm_compute. reflexivity.
  - intros j l Hj Hl.
    destruct j as [|[|j]];
      [injection Hl as <-; vm_compute; reflexivity .. | lia].
Defined.

Lemma symbols_are_removed_witness :
  exists out,
    process_markdown_content ascii_only
      (doc ["# Release ✨ notes"; "use `x` ☀ now"; "| a | 🚀 b |"]%string) = Ok out
    /\ Forall (fun c => symbol c = false) out.
Proof.
  apply (@symbols_are_removed ascii_only).
  replace (split NL (doc ["# Release ✨ notes"; "use `x` ☀ now"; "| a | 🚀 b |"]%string))
    with [u "# Release ✨ notes"; u "use `x` ☀ now"; u "| a | 🚀 b |"]
    by (vm_compute; reflexivity).
  repeat (constructor; [vm_compute; reflexivity|]). constructor.
Defined.

Lemma blanks_are_collapsed_witness :
  exists final_result,
    process_markdown_content ascii_only
      (doc ["# A   title"; "some    text with `code`  here"]%string)
    = Ok (join [NL] final_result)
    /\ Forall (fun line => ~ In 9%N line /\ contains (u "  ") line = false)
              final_result.
Proof.
  apply (@blanks_are_collapsed ascii_only).
  - replace (split NL (doc ["# A   title"; "some    text with `code`  here"]%string))
      with [u "# A   title"; u "some    text with `code`  here"]
      by (vm_compute; reflexivity).
    repeat (constructor; [vm_compute; reflexivity|]). constructor.
  - intros H. vm_compute in H.
    repeat (destruct H as [H|H]; [discriminate|]). exact H.
Defined.

Lemma headings_are_clamped_witness :
  exists out,
    process_markdown_content ascii_only
      (doc ["# Title"; "###### Deep   heading ##"; "  ####  indented"; "text"]%string)
    = Ok out
    /\ Forall (fun line => matches re_heading_deep line = false)
              (split NL out)
    /\ forall (indent : str) (n : nat) (sp : char) (more : str),
         forallb isspace indent = true -> 4 <= n -> isspace sp = true ->
         ~ In (indent ++ repeat 35%N n ++ sp :: more) (split NL out).
Proof.
  apply (@headings_are_clamped ascii_only).
  replace (split NL (doc ["# Title"; "###### Deep   heading ##";
                          "  ####  indented"; "text"]%string))
    with [u "# Title"; u "###### Deep   heading ##"; u "  ####  indented"; u "text"]
    by (vm_compute; reflexivity).
  repeat (constructor; [vm_compute; reflexivity|]). constructor.
Defined.

Lemma link_witness :
  inline_markup
    (u "see " ++ u "[" ++ u "the guide" ++ u "](" ++ u "https://x.io/a_b" ++ u ")"
       ++ u " for more")
  = u "see " ++ u "the guide" ++ u " for more".
Proof.
  apply (@link_is_replaced_by_its_text ascii_only
           (u "see ") (u "the guide") (u "https://x.io/a_b") (u " for more"));
    try (repeat (constructor; [reflexivity|]); constructor);
    try discriminate;
    intros H; vm_compute in H;
    repeat (destruct H as [H|H]; [discriminate|]); exact H.
Defined.

Lemma image_witness :
  inline_markup
    (u "Figure: " ++ u "![" ++ u "a diagram" ++ u "](" ++ u "img/d_1.png" ++ u ")"
       ++ u ".")
  = u "Figure: " ++ u "[Image: " ++ u "a diagram" ++ u "]" ++ u ".".
Proof.
  apply (@image_is_replaced_by_its_caption ascii_only
           (u "Figure: ") (u "a diagram") (u "img/d_1.png") (u "."));
    try (repeat (constructor; [reflexivity|]); constructor);
    try discriminate; try reflexivity;
    intros H; vm_compute in H;
    repeat (destruct H as [H|H]; [discriminate|]); exact H.
Defined.

Lemma emphasis_witness :
  inline_markup (u "a " ++ repeat 42%N 2 ++ u "bold" ++ repeat 42%N 2 ++ u " word")
  = u "a " ++ u "bold" ++ u " word".
Proof.
  apply (@emphasis_is_removed 42%N 2 (u "a ") (u "bold") (u " word"));
    try (repeat (constructor; [reflexivity|]); constructor);
    try discriminate; try lia.
Defined.

Lemma table_row_witness :
  step ascii_only 5 (row_of [u "Name"; u "Value 1"; u "a-b"]) initial
  = emit (bullet_line [u "Name"; u "Value 1"; u "a-b"]) initial.
Proof.
  apply (@table_row_becomes_a_bullet ascii_only 5 initial
           [u "Name"; u "Value 1"; u "a-b"] (u "Name") 78%N);
    try reflexivity.
  - repeat (constructor; [repeat split; (discriminate || reflexivity)|]). constructor.
  - now left.
  - now left.
Defined.

Lemma closed_comment_witness :
  html_comments (u "text " ++ u "<!--" ++ u " a - note " ++ u "-->" ++ u " more")
  = Some (u "text " ++ u " more").
Proof.
  apply (@closed_comment_is_cut_out (u "text ") (u " a - note ") (u " more"));
    intros H; vm_compute in H;
    repeat (destruct H as [H|H]; [discriminate|]); exact H.
Defined.

Lemma badge_line_witness :
  step ascii_only 3
    (u "  " ++ u "![" ++ u "build" ++ u "](" ++ u "https://img."
       ++ u "shields.io" ++ u "/badge/ok.svg" ++ u ")" ++ u " ")
    initial
  = initial.
Proof.
  apply (@badge_line_is_dropped ascii_only 3 initial
           (u "  ") (u "build") (u "https://img.") (u "shields.io")
           (u "/badge/ok.svg") (u " ")).
  - reflexivity.
  - reflexivity.
  - reflexivity.
  - repeat (constructor; [reflexivity|]). constructor.
  - repeat (constructor; [reflexivity|]). constructor.
  - apply Forall_forall. intros c H. vm_compute in H.
    repeat (destruct H as [<-|H]; [repeat split; discriminate|]). contradiction.
  - now left.
Defined.

Lemma process_file_witness :
  exists optimized,
    process_markdown_content ascii_only (doc ["# Title"; "**bold** text"]%string)
    = Ok optimized
    /\ forall w2,
         write_text memory_host [u "spec_light"; u "a.md"] optimized
           [([u "Specifications"; u "a.md"],
             Some (doc ["# Title"; "**bold** text"]%string))]
         = (w2, Done tt) ->
         process_file ascii_only memory_host
           [u "Specifications"; u "a.md"] [u "spec_light"; u "a.md"]
           [([u "Specifications"; u "a.md"],
             Some (doc ["# Title"; "**bold** text"]%string))] []
         = (w2, [] ++ [Out (u "✔  "
                              ++ path_str memory_host [u "Specifications"; u "a.md"]
                              ++ u " -> "
                              ++ path_str memory_host [u "spec_light"; u "a.md"])]).
Proof.
  apply (@process_file_writes_the_rewriting ascii_only _ _ memory_host
           [u "Specifications"; u "a.md"] [u "spec_light"; u "a.md"]
           [([u "Specifications"; u "a.md"],
             Some (doc ["# Title"; "**bold** text"]%string))]
           [([u "Specifications"; u "a.md"],
             Some (doc ["# Title"; "**bold** text"]%string))]
           [] (doc ["# Title"; "**bold** text"]%string)).
  - vm_compute. reflexivity.
  - reflexivity.
Defined.


